(** * gocover-cobertura: profile parser, declaration resolver, aggregator

    A shallow embedding of [profile.go] (profile parser and block merger)
    and [main.go] (declaration resolver, coverage aggregation, report
    emission), followed by the properties proved about them.

    Conventions of the embedding:
    - Go's [int] is the 64-bit two's-complement integer of the usual
      targets; values are [Z] and the arithmetic that can leave the range
      ([+=] in the merger) is wrapped explicitly with [wrap64].
    - Go strings are byte strings: [string] of [ascii].
    - [error] results and [panic]s are the three-way [outcome].
    - Packages [path/filepath] is modelled with its Unix behaviour
      (separator [/]). *)

From Stdlib Require Import ZArith Lia Ascii String List Sorting.Sorted.
From stdpp Require Import base option list sorting gmap strings.

Local Open Scope Z_scope.

(** ** Go's [int] *)

Definition int_min : Z := - 2 ^ 63.
Definition int_max : Z := 2 ^ 63 - 1.

Definition wrap64 (z : Z) : Z := (z + 2 ^ 63) mod 2 ^ 64 - 2 ^ 63.

(** ** Errors, panics, outcomes *)

Inductive NumError : Type :=
  | ErrSyntax   (* strconv.ErrSyntax *)
  | ErrRange.   (* strconv.ErrRange  *)

(** Each constructor stands for one [fmt.Errorf] (or propagated) error. *)
Inductive error : Type :=
  | ErrBadModeLine (line : string)              (* "bad mode line: %s" *)
  | ErrScan (cause : string)                    (* "scan profiles: %w" *)
  | ErrInconsistentNumStmt (from to : Z)        (* "inconsistent NumStmt: changed from %d to %d" *)
  | ErrPackageRequired                          (* "package required when using go modules" *)
  | ErrFilePath (pkgID file cause : string)     (* "file path error: %s , %s, %w" *)
  | ErrReadFile (path cause : string)           (* "read file %s: %w" *)
  | ErrLoad (cause : string)                    (* error of packages.Load, returned as is *)
  | ErrEncode (cause : string).                 (* error of encoder.Encode, returned as is *)

Inductive panic : Type :=
  | PanicNum (e : NumError) (s : string)        (* panic(err) in toInt *)
  | PanicSliceBounds.                           (* slice bounds out of range *)

Inductive outcome (A : Type) : Type :=
  | Ok (a : A)
  | Err (e : error)
  | Panic (p : panic).

Arguments Ok {A} a.
Arguments Err {A} e.
Arguments Panic {A} p.

#[global] Instance outcome_ret : MRet outcome := fun A a => Ok a.

#[global] Instance outcome_bind : MBind outcome := fun A B k m =>
  match m with
  | Ok a => k a
  | Err e => Err e
  | Panic p => Panic p
  end.

(** ** Package [strings] and [path/filepath] *)

Module GoStrings.

Definition byte_in (cutset : string) (c : ascii) : bool :=
  existsb (Ascii.eqb c) (list_ascii_of_string cutset).

(** [strings.HasPrefix] *)
Definition HasPrefix (s prefix : string) : bool := String.prefix prefix s.

(** [s[n:]]; [None] is the run-time panic for [n > len(s)]. *)
Fixpoint sliceFrom (s : string) (n : nat) {struct n} : option string :=
  match n, s with
  | O, _ => Some s
  | S n', String _ s' => sliceFrom s' n'
  | S _, EmptyString => None
  end.

(** [s[:n]] for [n <= len(s)] *)
Fixpoint sliceTo (s : string) (n : nat) {struct n} : string :=
  match n, s with
  | S n', String c s' => String c (sliceTo s' n')
  | _, _ => EmptyString
  end.

(** [strings.TrimLeft] *)
Fixpoint TrimLeft (s cutset : string) : string :=
  match s with
  | String c s' => if byte_in cutset c then TrimLeft s' cutset else s
  | EmptyString => EmptyString
  end.

(** [strings.TrimRight] *)
Fixpoint TrimRight (s cutset : string) : string :=
  match s with
  | String c s' =>
      match TrimRight s' cutset with
      | EmptyString => if byte_in cutset c then EmptyString else String c EmptyString
      | t => String c t
      end
  | EmptyString => EmptyString
  end.

(** The ASCII white space of [unicode.IsSpace]: tab, LF, VT, FF, CR,
    space. *)
Definition asciiSpace : string :=
  String "009" (String "010" (String "011" (String "012" (String "013" (String " " EmptyString))))).

(** [strings.TrimSpace], on ASCII text *)
Definition TrimSpace (s : string) : string :=
  TrimRight (TrimLeft s asciiSpace) asciiSpace.

(** [strings.ReplaceAll(s, old, new)] for one-byte [old] and [new], the
    only use the program makes of it. *)
Fixpoint ReplaceAll (s : string) (old new : ascii) : string :=
  match s with
  | String c s' => String (if Ascii.eqb c old then new else c) (ReplaceAll s' old new)
  | EmptyString => EmptyString
  end.

(** Pieces of [s] between occurrences of [sep] (never the empty list). *)
Fixpoint splitOn (sep : ascii) (s : string) : list string :=
  match s with
  | EmptyString => [EmptyString]
  | String c s' =>
      if Ascii.eqb c sep then EmptyString :: splitOn sep s'
      else match splitOn sep s' with
           | h :: t => String c h :: t
           | [] => [String c EmptyString]
           end
  end.

Fixpoint joinWith (sep : string) (l : list string) : string :=
  match l with
  | [] => EmptyString
  | [x] => x
  | x :: rest => x +:+ sep +:+ joinWith sep rest
  end.

End GoStrings.

Module Filepath.
Import GoStrings.

Definition Separator : ascii := "/".

(** [filepath.Split]: the path up to and including the last separator,
    and what follows it. *)
Fixpoint Split (path : string) : string * string :=
  match path with
  | EmptyString => (EmptyString, EmptyString)
  | String c rest =>
      let '(dir, file) := Split rest in
      match dir with
      | EmptyString =>
          if Ascii.eqb c Separator then (String c EmptyString, file)
          else (EmptyString, String c file)
      | _ => (String c dir, file)
      end
  end.

(** [filepath.Base] *)
Definition Base (path : string) : string :=
  match path with
  | EmptyString => "."%string
  | _ =>
      match TrimRight path "/" with
      | EmptyString => "/"%string
      | p => snd (Split p)
      end
  end.

(** The component stack of [filepath.Clean]: [.] and empty components
    vanish, [..] removes the component before it, is dropped at the
    root and is kept at the start of a relative path. [acc] is the
    stack, top first. *)
Fixpoint cleanComponents (rooted : bool) (acc : list string) (comps : list string)
  : list string :=
  match comps with
  | [] => rev acc
  | c :: rest =>
      if String.eqb c EmptyString || String.eqb c "." then cleanComponents rooted acc rest
      else if String.eqb c ".." then
        match acc with
        | top :: acc' =>
            if String.eqb top ".." then cleanComponents rooted (c :: acc) rest
            else cleanComponents rooted acc' rest
        | [] =>
            if rooted then cleanComponents rooted acc rest
            else cleanComponents rooted (c :: acc) rest
        end
      else cleanComponents rooted (c :: acc) rest
  end.

(** [filepath.Clean] *)
Definition Clean (path : string) : string :=
  match path with
  | EmptyString => "."%string
  | String c _ =>
      let rooted := Ascii.eqb c Separator in
      let body := joinWith "/" (cleanComponents rooted [] (splitOn Separator path)) in
      if rooted then ("/" +:+ body)%string
      else match body with
           | EmptyString => "."%string
           | _ => body
           end
  end.

(** [filepath.Join]: empty elements are ignored, the rest is joined by
    the separator and cleaned; all elements empty gives the empty
    string. *)
Definition Join (elems : list string) : string :=
  match filter (fun e => negb (String.eqb e EmptyString)) elems with
  | [] => EmptyString
  | l => Clean (joinWith "/" l)
  end.

End Filepath.

(** ** Package [sort]

    [sort.Sort] is not stable and its algorithm depends on the length of
    the slice (insertion sort up to 12 elements, pattern-defeating
    quicksort beyond).  The program is therefore parameterised by the
    sorting algorithm, of which the proofs use only that it returns a
    sorted permutation when [less] is a strict weak order. *)

Class SortAlgorithm : Type :=
  sort_Sort : forall A : Type, (A -> A -> bool) -> list A -> list A.

Arguments sort_Sort {_ A} less l.

Record StrictWeakOrder {A : Type} (less : A -> A -> bool) : Prop := {
  swo_asym : forall x y, less x y = true -> less y x = false;
  swo_trans : forall x y z, less x y = true -> less y z = true -> less x z = true;
  swo_negtrans : forall x y z, less x y = false -> less y z = false -> less x z = false
}.

Record SortLawful (S : SortAlgorithm) : Prop := {
  sort_perm : forall (A : Type) (less : A -> A -> bool) (l : list A),
      Permutation (sort_Sort less l) l;
  sort_sorted : forall (A : Type) (less : A -> A -> bool) (l : list A),
      StrictWeakOrder less ->
      Sorted (fun x y => less y x = false) (sort_Sort less l)
}.

Module GoSort.

(** The inner loop of [insertionSort]: the new element moves left past
    every element it is [less] than.  [rprefix] is the sorted prefix,
    last element first. *)
Fixpoint insertLeft {A : Type} (less : A -> A -> bool) (x : A) (rprefix : list A) : list A :=
  match rprefix with
  | [] => [x]
  | y :: rest => if less x y then y :: insertLeft less x rest else x :: rprefix
  end.

(** [insertionSort(data, 0, n)] *)
Definition insertionSort {A : Type} (less : A -> A -> bool) (l : list A) : list A :=
  rev (fold_left (fun rprefix x => insertLeft less x rprefix) l []).

End GoSort.

(** What [sort.Sort] does on slices of at most 12 elements. *)
#[global] Instance insertion_sort : SortAlgorithm := @GoSort.insertionSort.

(** ** Package [strconv] *)

Module Strconv.

Definition isDigit (c : ascii) : bool :=
  let n := N_of_ascii c in (48 <=? n)%N && (n <=? 57)%N.

Fixpoint digitsValue (acc : Z) (s : string) : option Z :=
  match s with
  | EmptyString => Some acc
  | String c s' =>
      if isDigit c then digitsValue (acc * 10 + (Z.of_N (N_of_ascii c) - 48)) s'
      else None
  end.

(** [strconv.Atoi]: an optional sign, then at least one decimal digit
    and nothing else; a value outside [int] is a range error. *)
Definition Atoi (s : string) : Z + NumError :=
  let '(neg, body) :=
    match s with
    | String "+" rest => (false, rest)
    | String "-" rest => (true, rest)
    | _ => (false, s)
    end in
  match body with
  | EmptyString => inr ErrSyntax
  | _ =>
      match digitsValue 0 body with
      | None => inr ErrSyntax
      | Some v =>
          let n := if neg then - v else v in
          if (int_min <=? n) && (n <=? int_max) then inl n else inr ErrRange
      end
  end.

(** The value of a string of decimal digits, continuing from [acc]. *)
Fixpoint decimal (acc : Z) (s : string) : Z :=
  match s with
  | EmptyString => acc
  | String c s' => decimal (acc * 10 + (Z.of_N (N_of_ascii c) - 48)) s'
  end.

(** One or more decimal digits and nothing else: what [[0-9]+]
    matches. *)
Definition digitString (s : string) : bool :=
  negb (String.eqb s EmptyString) && forallb isDigit (list_ascii_of_string s).

End Strconv.

(** ** Package [regexp], as far as [lineRe] needs it *)

Module Regexp.
Import GoStrings.

Definition inRange (lo hi : N) (c : ascii) : bool :=
  let n := N_of_ascii c in (lo <=? n)%N && (n <=? hi)%N.

(** Width in bytes of the first rune of [s], as
    [utf8.DecodeRuneInString] gives it: an ill-formed or truncated
    sequence is one byte (decoded as U+FFFD). *)
Definition runeWidth (s : string) : nat :=
  match s with
  | EmptyString => 0%nat
  | String c0 s1 =>
      let b0 := N_of_ascii c0 in
      if (b0 <? 194)%N then 1%nat
      else if (b0 <? 224)%N then
        match s1 with
        | String c1 _ => if inRange 128 191 c1 then 2%nat else 1%nat
        | _ => 1%nat
        end
      else if (b0 <? 240)%N then
        let lo := if (b0 =? 224)%N then 160%N else 128%N in
        let hi := if (b0 =? 237)%N then 159%N else 191%N in
        match s1 with
        | String c1 (String c2 _) =>
            if inRange lo hi c1 && inRange 128 191 c2 then 3%nat else 1%nat
        | _ => 1%nat
        end
      else if (b0 <? 245)%N then
        let lo := if (b0 =? 240)%N then 144%N else 128%N in
        let hi := if (b0 =? 244)%N then 143%N else 191%N in
        match s1 with
        | String c1 (String c2 (String c3 _)) =>
            if inRange lo hi c1 && inRange 128 191 c2 && inRange 128 191 c3
            then 4%nat else 1%nat
        | _ => 1%nat
        end
      else 1%nat
  end.

(** One character class: the bytes it consumes at the start of
    the text, if it matches there. *)
Definition atom : Type := string -> option nat.

(** [.]: any rune but a line feed *)
Definition dot : atom := fun s =>
  match s with
  | EmptyString => None
  | String c _ => if Ascii.eqb c "010" then None else Some (runeWidth s)
  end.

(** [[0-9]] *)
Definition digit : atom := fun s =>
  match s with
  | String c _ => if Strconv.isDigit c then Some 1%nat else None
  | EmptyString => None
  end.

Inductive item : Type :=
  | Lit (c : ascii)       (* a literal byte *)
  | One (u : atom)        (* one atom, not captured *)
  | Group (u : atom).     (* a capturing group [(u+)], greedy *)

(** The lengths of the prefixes of [s] made of one or more [u], longest
    first: the order in which a greedy [u+] tries them. *)
Fixpoint repeats (u : atom) (fuel : nat) (s : string) (consumed : nat) : list nat :=
  match fuel with
  | O => []
  | S fuel' =>
      match u s with
      | Some w =>
          match sliceFrom s w with
          | Some s' => repeats u fuel' s' (consumed + w) ++ [(consumed + w)%nat]
          | None => []
          end
      | None => []
      end
  end.

Fixpoint firstSome {A B : Type} (f : A -> option B) (l : list A) : option B :=
  match l with
  | [] => None
  | a :: rest => match f a with Some b => Some b | None => firstSome f rest end
  end.

(** Anchored backtracking match of a sequence of items against the
    whole text (the pattern is between [^] and [$]); the result is the
    text of the groups, in order.  Leftmost-first semantics: the first
    success of the backtracking search. *)
Fixpoint matchItems (items : list item) (s : string) : option (list string) :=
  match items with
  | [] => match s with EmptyString => Some [] | _ => None end
  | Lit c :: rest =>
      match s with
      | String c' s' => if Ascii.eqb c c' then matchItems rest s' else None
      | EmptyString => None
      end
  | One u :: rest =>
      match u s with
      | Some w => s' ← sliceFrom s w; matchItems rest s'
      | None => None
      end
  | Group u :: rest =>
      firstSome
        (fun n => s' ← sliceFrom s n;
                  caps ← matchItems rest s';
                  Some (sliceTo s n :: caps))
        (repeats u (String.length s) s 0)
  end.

End Regexp.

(** * profile.go *)

(** Profile represents the profiling data for a specific file. *)
Record ProfileBlock : Type := mkBlock {
  StartLine : Z; StartCol : Z;
  EndLine : Z; EndCol : Z;
  NumStmt : Z; Count : Z
}.

Record Profile : Type := mkProfile {
  FileName : string;
  Mode : string;
  Blocks : list ProfileBlock
}.

Definition setCount (b : ProfileBlock) (c : Z) : ProfileBlock :=
  mkBlock (StartLine b) (StartCol b) (EndLine b) (EndCol b) (NumStmt b) c.

Definition setBlocks (p : Profile) (bs : list ProfileBlock) : Profile :=
  mkProfile (FileName p) (Mode p) bs.

(** [Ignore.Match] is defined in a file that is not among the sources at
    hand; the filter is taken as the predicate it implements, on the file
    name and the file contents when they are available. *)
Record Ignore : Type := mkIgnore {
  Match : string -> option string -> bool
}.

(** [^(.+):([0-9]+).([0-9]+),([0-9]+).([0-9]+) ([0-9]+) ([0-9]+)$] *)
Definition lineRe : list Regexp.item :=
  let digits := Regexp.Group Regexp.digit in
  [ Regexp.Group Regexp.dot; Regexp.Lit ":";
    digits; Regexp.One Regexp.dot; digits; Regexp.Lit ",";
    digits; Regexp.One Regexp.dot; digits; Regexp.Lit " ";
    digits; Regexp.Lit " "; digits ].

(** [lineRe.FindStringSubmatch]: the whole match, then the seven groups. *)
Definition FindStringSubmatch (line : string) : option (list string) :=
  caps ← Regexp.matchItems lineRe line; Some (line :: caps).

Definition toInt (s : string) : outcome Z :=
  match Strconv.Atoi s with
  | inl i => Ok i
  | inr err => Panic (PanicNum err s)
  end.

Definition modePrefix : string := "mode: ".

(** [parseLine]; the mode (updated through the pointer) and the [files]
    map (mutated in place) are returned. *)
Definition parseLine (mode : string) (line : string) (files : gmap string Profile)
    (ignore : Ignore) : outcome (string * gmap string Profile) :=
  if String.eqb mode EmptyString then
    if negb (GoStrings.HasPrefix line modePrefix) || String.eqb line modePrefix then
      Err (ErrBadModeLine line)
    else
      match GoStrings.sliceFrom line (String.length modePrefix) with
      | Some m => Ok (m, files)
      | None => Panic PanicSliceBounds
      end
  else
    match FindStringSubmatch line with
    | None => Ok (mode, files)
    | Some match_ =>
        let group i := nth i match_ EmptyString in
        let filename := group 1%nat in
        if Match ignore filename None then Ok (mode, files)
        else
          let profile :=
            match files !! filename with
            | Some p => p
            | None => mkProfile filename mode []
            end in
          startLine ← toInt (group 2%nat);
          startCol ← toInt (group 3%nat);
          endLine ← toInt (group 4%nat);
          endCol ← toInt (group 5%nat);
          numStmt ← toInt (group 6%nat);
          count ← toInt (group 7%nat);
          Ok (mode,
              <[filename :=
                  setBlocks profile
                    (Blocks profile ++ [mkBlock startLine startCol endLine endCol numStmt count])]>
                files)
    end.

(** [blocksByStart.Less] *)
Definition blocksByStart_Less (bi bj : ProfileBlock) : bool :=
  (StartLine bi <? StartLine bj)
  || ((StartLine bi =? StartLine bj) && (StartCol bi <? StartCol bj)).

(** [byFileName.Less]: Go compares strings byte-wise. *)
Definition byFileName_Less (pi pj : Profile) : bool :=
  String.ltb (FileName pi) (FileName pj).

Definition sameLocation (currentBlock last : ProfileBlock) : bool :=
  (StartLine currentBlock =? StartLine last)
  && (StartCol currentBlock =? StartCol last)
  && (EndLine currentBlock =? EndLine last)
  && (EndCol currentBlock =? EndCol last).

(** The combination of the counts of two samples of one location. *)
Definition mergeCount (mode : string) (last current : Z) : Z :=
  if String.eqb mode "set" then Z.lor last current
  else wrap64 (last + current).

(** The loop of [mergeSameLocationSamples] over one profile, on the slice
    it rewrites in place: [n] iterations remain, [blockIndex] is read,
    [blockNo] is the length of the merged prefix. *)
Fixpoint mergeLoop (mode : string) (n : nat) (blocks : list ProfileBlock)
    (blockNo blockIndex : nat) : outcome (list ProfileBlock * nat) :=
  match n with
  | O => Ok (blocks, blockNo)
  | S n' =>
      match blocks !! blockIndex, blocks !! (blockNo - 1)%nat with
      | Some currentBlock, Some last =>
          if sameLocation currentBlock last then
            if negb (NumStmt currentBlock =? NumStmt last) then
              Err (ErrInconsistentNumStmt (NumStmt last) (NumStmt currentBlock))
            else
              mergeLoop mode n'
                (<[(blockNo - 1)%nat :=
                     setCount last (mergeCount mode (Count last) (Count currentBlock))]> blocks)
                blockNo (S blockIndex)
          else
            mergeLoop mode n' (<[blockNo := currentBlock]> blocks) (S blockNo) (S blockIndex)
      | _, _ => Panic PanicSliceBounds
      end
  end.

(** The same loop as a recursion on the blocks still to read, [last]
    being the block at [blockNo - 1]; lemma [mergeLoop_mergeRun] relates
    the two. *)
Fixpoint mergeRun (mode : string) (last : ProfileBlock) (rest : list ProfileBlock)
  : outcome (list ProfileBlock) :=
  match rest with
  | [] => Ok [last]
  | currentBlock :: rest' =>
      if sameLocation currentBlock last then
        if negb (NumStmt currentBlock =? NumStmt last) then
          Err (ErrInconsistentNumStmt (NumStmt last) (NumStmt currentBlock))
        else
          mergeRun mode
            (setCount last (mergeCount mode (Count last) (Count currentBlock))) rest'
      else
        merged ← mergeRun mode currentBlock rest'; Ok (last :: merged)
  end.

(** Positions in (line, column) order. *)
Definition posLe (l1 c1 l2 c2 : Z) : Prop := l1 < l2 \/ (l1 = l2 /\ c1 <= c2).
Definition posLt (l1 c1 l2 c2 : Z) : Prop := l1 < l2 \/ (l1 = l2 /\ c1 < c2).

Definition startLe (a b : ProfileBlock) : Prop :=
  posLe (StartLine a) (StartCol a) (StartLine b) (StartCol b).
Definition startLt (a b : ProfileBlock) : Prop :=
  posLt (StartLine a) (StartCol a) (StartLine b) (StartCol b).

Definition startOf (b : ProfileBlock) : Z * Z := (StartLine b, StartCol b).
Definition locationOf (b : ProfileBlock) : Z * Z * Z * Z :=
  (StartLine b, StartCol b, EndLine b, EndCol b).

(** Two neighbours of a (sorted) slice at one location whose statement
    counts differ. *)
Definition adjacentMismatch (l : list ProfileBlock) : Prop :=
  exists pre a b post,
    l = pre ++ a :: b :: post
    /\ sameLocation b a = true /\ NumStmt a <> NumStmt b.

(** Blocks that start at the same position cover the same span. *)
Definition startDeterminesSpan (l : list ProfileBlock) : Prop :=
  forall a b, a ∈ l -> b ∈ l -> startOf a = startOf b -> locationOf a = locationOf b.

(** The counts of the samples of one location, combined from the left. *)
Definition combineCounts (mode : string) (counts : list Z) : Z :=
  match counts with
  | [] => 0
  | c :: rest => fold_left (mergeCount mode) rest c
  end.

(** Every profile of the map is filed under its own name and has at
    least one block. *)
Definition keyed (files : gmap string Profile) : Prop :=
  forall k p, files !! k = Some p -> FileName p = k /\ Blocks p <> [].

(** The filter that ignores nothing, [&Ignore{}]. *)
Definition noIgnore : Ignore := mkIgnore (fun _ _ => false).

(** What [bufio.Scanner] delivers from the reader: the lines read, and
    the error (if any) that ended the scan. *)
Record Reader : Type := mkReader {
  scanned : list string;
  scanErr : option string
}.

Section WithSort.
Context {S : SortAlgorithm}.

(** The body of the outer loop of [mergeSameLocationSamples]: sort,
    merge in place, truncate.  [Blocks[:blockNo]] is out of bounds for
    the empty slice, where [blockNo] is still 1. *)
Definition mergeProfile (mode : string) (profile : Profile) : outcome Profile :=
  let sorted := sort_Sort blocksByStart_Less (Blocks profile) in
  '(blocks, blockNo) ← mergeLoop mode (length sorted - 1) sorted 1 1;
  if decide (blockNo <= length blocks)%nat
  then Ok (setBlocks profile (take blockNo blocks))
  else Panic PanicSliceBounds.

(** The iteration over the map; Go visits the keys in an unspecified
    order, here the order of [map_to_list]. *)
Fixpoint mergeProfiles (mode : string) (todo : list (string * Profile))
    (files : gmap string Profile) : outcome (gmap string Profile) :=
  match todo with
  | [] => Ok files
  | (name, profile) :: rest =>
      profile' ← mergeProfile mode profile;
      mergeProfiles mode rest (<[name := profile']> files)
  end.

Definition mergeSameLocationSamples (files : gmap string Profile) (mode : string)
  : outcome (gmap string Profile) :=
  mergeProfiles mode (map_to_list files) files.

Definition generateSortedProfilesSlice (files : gmap string Profile) : list Profile :=
  sort_Sort byFileName_Less (snd <$> map_to_list files).

(** The scanning loop of [ParseProfiles]. *)
Fixpoint scanLines (mode : string) (files : gmap string Profile) (lines : list string)
    (ignore : Ignore) : outcome (string * gmap string Profile) :=
  match lines with
  | [] => Ok (mode, files)
  | line :: rest =>
      '(mode', files') ← parseLine mode line files ignore;
      scanLines mode' files' rest ignore
  end.

Definition ParseProfiles (input : Reader) (ignore : Ignore) : outcome (list Profile) :=
  '(mode, files) ← scanLines EmptyString ∅ (scanned input) ignore;
  match scanErr input with
  | Some err => Err (ErrScan err)
  | None =>
      files' ← mergeSameLocationSamples files mode;
      Ok (generateSortedProfilesSlice files')
  end.

End WithSort.

(** * The coverage tree

    The types of the report ([Coverage], [Package], [Class], [Method],
    [Line]) and their methods are declared in a file that is not among
    the sources at hand; the records below have the fields [main.go]
    reads and writes. *)

(** Modelled from the spec: [HitRate], the fraction of lines with hits.
    The source keeps a [float32] quotient; the model keeps the two terms
    (lines with hits, lines), the rate of no lines being the zero of the
    spec. *)
Record Rate : Type := mkRate { rate_hit : nat; rate_lines : nat }.

Record Line : Type := mkLine { Number : Z; Hits : Z }.

Record Method : Type := mkMethod {
  Method_Name : string;
  Method_LineRate : Rate;
  Method_Lines : list Line
}.

Record Class : Type := mkClass {
  Class_Name : string;
  Class_Filename : string;
  Class_LineRate : Rate;
  Class_Methods : list Method;
  Class_Lines : list Line
}.

Record Package : Type := mkPackage {
  Package_Name : string;
  Package_LineRate : Rate;
  Package_Classes : list Class
}.

Record Coverage : Type := mkCoverage {
  Sources : list string;
  Packages : list Package;
  Timestamp : Z;
  LinesValid : nat;
  LinesCovered : nat;
  LineRate : Rate
}.

(** Modelled from the spec: [Lines.NumLinesWithHits], the lines with a
    hit count above zero. *)
Definition NumLinesWithHits (lines : list Line) : nat :=
  length (filter (fun l => 0 <? Hits l) lines).

(** Modelled from the spec: [Lines.HitRate]. *)
Definition Lines_HitRate (lines : list Line) : Rate :=
  mkRate (NumLinesWithHits lines) (length lines).

(** Modelled from the spec: the lines of a package are those of its
    classes; the lines of the report those of its packages. *)
Definition Package_AllLines (pkg : Package) : list Line :=
  concat (map Class_Lines (Package_Classes pkg)).

Definition Package_HitRate (pkg : Package) : Rate :=
  Lines_HitRate (Package_AllLines pkg).

Definition Coverage_AllLines (cov : Coverage) : list Line :=
  concat (map Package_AllLines (Packages cov)).

(** Modelled from the spec: the combination of the hit counts of a line
    number that recurs within one method ("under boolean mode the
    combination is logical-OR (>=1 becomes hit); under count mode the
    combination is numeric sum").  The boolean mode is the mode [set]. *)
Definition combineHits (mode : string) (old new : Z) : Z :=
  if String.eqb mode "set"
  then (if (1 <=? old) || (1 <=? new) then 1 else 0)
  else wrap64 (old + new).

(** Modelled from the spec: [Lines.AddOrUpdateLine], which is not among
    the sources at hand.  A line number that the method does not have
    yet is recorded with the hit count; one that recurs has its count
    combined with the new one, so that a line number stays unique within
    the method.  [main.go] calls it with the line number and the count;
    the coverage mode on which the spec makes the combination depend is
    that of the profile being resolved. *)
Fixpoint AddOrUpdateLine (mode : string) (lines : list Line) (lineNumber : Z) (hits : Z)
  : list Line :=
  match lines with
  | [] => [mkLine lineNumber hits]
  | l :: rest =>
      if Number l =? lineNumber
      then mkLine lineNumber (combineHits mode (Hits l) hits) :: rest
      else l :: AddOrUpdateLine mode rest lineNumber hits
  end.

(** * main.go *)

(** ** The collaborators *)

(** [packages.Module] and [packages.Package], the fields in use. *)
Record GoModule : Type := mkModule { Path : string; Dir : string }.

Record GoPackage : Type := mkGoPackage {
  ID : string;
  GoFiles : list string;
  Module : option GoModule
}.

(** [token.Position] *)
Record Position : Type := mkPosition { Offset : nat; PosLine : Z; PosColumn : Z }.

(** [*ast.FuncDecl] with the positions the file set gives: of the
    declaration ([n.Pos()], [n.End()]) and, for a method, of the type of
    its first receiver ([n.Recv.List[0].Type]). *)
Record FuncDecl : Type := mkFuncDecl {
  Decl_Name : string;
  Decl_Recv : option (Position * Position);
  Decl_Pos : Position;
  Decl_End : Position
}.

(** The destination of the report, an [io.Writer]: whether a write fails
    is decided by the writes attempted before it and by the data; the
    data of the successful writes is kept in order.  (A failed write
    delivers nothing.) *)
Record Writer : Type := mkWriter {
  failure : list string -> string -> option string;
  attempted : list string;
  delivered : list string
}.

Definition Fprint (w : Writer) (data : string) : Writer * option string :=
  match failure w (attempted w) data with
  | None => (mkWriter (failure w) (attempted w ++ [data]) (delivered w ++ [data]), None)
  | Some err => (mkWriter (failure w) (attempted w ++ [data]) (delivered w), Some err)
  end.

(** The world outside the program.
    - [parser_ParseFile]: [parser.ParseFile(fset, path, nil, 0)]; of the
      syntax tree only the function declarations matter, which
      [ast.Walk] meets in source order (a [FuncDecl] is a top-level
      declaration, never nested).
    - [os_ReadFile]: [os.ReadFile].
    - [packages_Load]: [packages.Load] with the build flags and the
      patterns; the slice may hold nil entries.
    - [time_Now]: [time.Now().UnixNano()].
    - [xml_Encode]: the text [encoder.Encode] produces for a report with
      the given prefix and indentation, in the pieces that its buffered
      writer hands to the destination. *)
Record Env : Type := mkEnv {
  parser_ParseFile : string -> string + list FuncDecl;
  os_ReadFile : string -> string + string;
  packages_Load : list string -> list string -> string + list (option GoPackage);
  time_Now : Z;
  xml_Encode : string -> string -> Coverage -> list string
}.

Definition dq : string := String "034" EmptyString.
Definition newline : string := String "010" EmptyString.

(** [xml.Header] *)
Definition xml_Header : string :=
  "<?xml version=" +:+ dq +:+ "1.0" +:+ dq +:+ " encoding=" +:+ dq +:+ "UTF-8" +:+ dq +:+ "?>"
  +:+ newline.

Definition DTDDecl : string :=
  "<!DOCTYPE coverage SYSTEM " +:+ dq
  +:+ "http://cobertura.sourceforge.net/xml/coverage-04.dtd" +:+ dq +:+ ">".

(** No package, or a package without module. *)
Definition noModule (pkgPkg : option GoPackage) : Prop :=
  match pkgPkg with
  | None => True
  | Some p => Module p = None
  end.

(** ** The declaration resolver *)

(** [fileVisitor].  The package the visitor points to is held in [pkg]
    and written back to the report when the walk is over; [classes] maps
    a class name to the index, in [pkg.Classes], of the class that the
    map and the package share. *)
Record fileVisitor : Type := mkVisitor {
  fileName : string;
  fileData : string;
  pkg : Package;
  classes : gmap string nat;
  profile : Profile
}.

Definition setPkg (v : fileVisitor) (p : Package) (cs : gmap string nat) : fileVisitor :=
  mkVisitor (fileName v) (fileData v) p cs (profile v).

(** [block.StartLine > endLine || (block.StartLine == endLine &&
    block.StartCol >= endCol)] *)
Definition pastEnd (block : ProfileBlock) (endLine endCol : Z) : bool :=
  (StartLine block >? endLine)
  || ((StartLine block =? endLine) && (StartCol block >=? endCol)).

(** [block.EndLine < startLine || (block.EndLine == startLine &&
    block.EndCol <= startCol)] *)
Definition beforeStart (block : ProfileBlock) (startLine startCol : Z) : bool :=
  (EndLine block <? startLine)
  || ((EndLine block =? startLine) && (EndCol block <=? startCol)).

(** [for i := block.StartLine; i <= block.EndLine; i++ {
    method.Lines.AddOrUpdateLine(i, int64(block.Count)) }]; the counter
    is taken not to wrap, which asks that [EndLine] be below the largest
    [int]. *)
Definition addBlockLines (mode : string) (block : ProfileBlock) (lines : list Line)
  : list Line :=
  fold_left (fun ls i => AddOrUpdateLine mode ls i (Count block))
            (seqZ (StartLine block) (EndLine block - StartLine block + 1)) lines.

(** The loop of [method] over the blocks of the profile, with its
    [break] and [continue]. *)
Fixpoint methodLoop (mode : string) (startLine startCol endLine endCol : Z)
    (blocks : list ProfileBlock) (lines : list Line) : list Line :=
  match blocks with
  | [] => lines
  | block :: rest =>
      if pastEnd block endLine endCol then lines
      else if beforeStart block startLine startCol
      then methodLoop mode startLine startCol endLine endCol rest lines
      else methodLoop mode startLine startCol endLine endCol rest
             (addBlockLines mode block lines)
  end.

(** The blocks for which the loop records lines: those met before the
    [break] and not skipped by the [continue]. *)
Fixpoint selectBlocks (startLine startCol endLine endCol : Z)
    (blocks : list ProfileBlock) : list ProfileBlock :=
  match blocks with
  | [] => []
  | block :: rest =>
      if pastEnd block endLine endCol then []
      else if beforeStart block startLine startCol
      then selectBlocks startLine startCol endLine endCol rest
      else block :: selectBlocks startLine startCol endLine endCol rest
  end.





(** [fileVisitor.method]; the rate is set by [Visit]. *)
Definition method (v : fileVisitor) (n : FuncDecl) : Method :=
  let start := Decl_Pos n in
  let end_ := Decl_End n in
  mkMethod (Decl_Name n) (mkRate 0 0)
    (methodLoop (Mode (profile v))
       (PosLine start) (PosColumn start) (PosLine end_) (PosColumn end_)
       (Blocks (profile v)) []).

(** [data[lo:hi]] *)
Definition slice (data : string) (lo hi : nat) : outcome string :=
  if decide (lo <= hi <= String.length data)%nat
  then match GoStrings.sliceFrom (GoStrings.sliceTo data hi) lo with
       | Some s => Ok s
       | None => Panic PanicSliceBounds
       end
  else Panic PanicSliceBounds.

(** [fileVisitor.recvName] *)
Definition recvName (v : fileVisitor) (n : FuncDecl) : outcome string :=
  match Decl_Recv n with
  | None => Ok "-"%string
  | Some (start, end_) =>
      name ← slice (fileData v) (Offset start) (Offset end_);
      Ok (GoStrings.TrimSpace (GoStrings.TrimLeft name "*"))
  end.

Section Resolver.
Context {S : SortAlgorithm}.
Variable env : Env.
(** The global flag [byFiles]. *)
Variable byFiles : bool.

(** [fileVisitor.class]: the visitor after the call, and the index of
    the class in [pkg.Classes]. *)
Definition class (v : fileVisitor) (n : FuncDecl) : outcome (fileVisitor * nat) :=
  className ←
    (if byFiles
     then Ok (GoStrings.ReplaceAll (GoStrings.ReplaceAll (fileName v) "/" ".") "\" ".")
     else recvName v n);
  match classes v !! className with
  | Some idx => Ok (v, idx)
  | None =>
      let created := mkClass className (fileName v) (mkRate 0 0) [] [] in
      let idx := length (Package_Classes (pkg v)) in
      Ok (setPkg v
            (mkPackage (Package_Name (pkg v)) (Package_LineRate (pkg v))
               (Package_Classes (pkg v) ++ [created]))
            (<[className := idx]> (classes v)),
          idx)
  end.

(** [fileVisitor.Visit] on a function declaration (it does nothing on
    the other nodes). *)
Definition Visit (v : fileVisitor) (n : FuncDecl) : outcome fileVisitor :=
  '(v1, idx) ← class v n;
  let m := method v1 n in
  let m := mkMethod (Method_Name m) (Lines_HitRate (Method_Lines m)) (Method_Lines m) in
  match Package_Classes (pkg v1) !! idx with
  | None => Panic PanicSliceBounds
  | Some cls =>
      let lines := Class_Lines cls ++ Method_Lines m in
      let class' :=
        mkClass (Class_Name cls) (Class_Filename cls) (Lines_HitRate lines)
          (Class_Methods cls ++ [m]) lines in
      Ok (setPkg v1
            (mkPackage (Package_Name (pkg v1)) (Package_LineRate (pkg v1))
               (<[idx := class']> (Package_Classes (pkg v1))))
            (classes v1))
  end.

(** [ast.Walk(visitor, parsed)] *)
Fixpoint Walk (v : fileVisitor) (decls : list FuncDecl) : outcome fileVisitor :=
  match decls with
  | [] => Ok v
  | n :: rest => v' ← Visit v n; Walk v' rest
  end.

(** [getPackageName] *)
Definition getPackageName (filename : string) : string :=
  let '(pkgName, _) := Filepath.Split filename in
  GoStrings.TrimRight (GoStrings.TrimRight pkgName "\") "/".

(** [findAbsFilePath] *)
Definition findAbsFilePath (pkgPkg : GoPackage) (profileName : string) : string :=
  let filename := Filepath.Base profileName in
  match List.find (fun fullpath => String.eqb (Filepath.Base fullpath) filename)
                  (GoFiles pkgPkg) with
  | Some fullpath => fullpath
  | None => EmptyString
  end.

(** The search of [ParseProfile] for the package named [pkgPath]: the
    loop has no [break], the last match stays. *)
Fixpoint findPackage (packages : list Package) (pkgPath : string) (index : nat)
    (found : option nat) : option nat :=
  match packages with
  | [] => found
  | p :: rest =>
      findPackage rest pkgPath (Datatypes.S index)
        (if String.eqb (Package_Name p) pkgPath then Some index else found)
  end.

Definition setPackages (cov : Coverage) (ps : list Package) : Coverage :=
  mkCoverage (Sources cov) ps (Timestamp cov) (LinesValid cov) (LinesCovered cov)
    (LineRate cov).

(** The package path that [ParseProfile] looks up. *)
Definition resolvedPkgPath (module : GoModule) (fileName : string) : string :=
  let '(pkgPath, _) := Filepath.Split fileName in
  let pkgPath := GoStrings.TrimRight (GoStrings.TrimRight pkgPath "/") "\" in
  let pkgPath := Filepath.Join [Path module; pkgPath] in
  GoStrings.ReplaceAll pkgPath "\" "/".

(** [Coverage.ParseProfile]: the report after the call, and the error
    or panic if there is one. *)
Definition ParseProfile (cov : Coverage) (profile : Profile) (pkgPkg : option GoPackage)
    (ignore : Ignore) : Coverage * outcome () :=
  match pkgPkg with
  | None => (cov, Err ErrPackageRequired)
  | Some pkgPkg =>
      match Module pkgPkg with
      | None => (cov, Err ErrPackageRequired)
      | Some module =>
          match GoStrings.sliceFrom (FileName profile) (String.length (Path module) + 1) with
          | None => (cov, Panic PanicSliceBounds)
          | Some fileName =>
              let absFilePath := findAbsFilePath pkgPkg (FileName profile) in
              match parser_ParseFile env absFilePath with
              | inl err => (cov, Err (ErrFilePath (ID pkgPkg) (FileName profile) err))
              | inr parsed =>
                  match os_ReadFile env absFilePath with
                  | inl err => (cov, Err (ErrReadFile absFilePath err))
                  | inr data =>
                      if Match ignore fileName (Some data) then (cov, Ok ())
                      else
                        let pkgPath := resolvedPkgPath module fileName in
                        let '(cov, index) :=
                          match findPackage (Packages cov) pkgPath 0 None with
                          | Some index => (cov, index)
                          | None =>
                              (setPackages cov
                                 (Packages cov ++ [mkPackage (ID pkgPkg) (mkRate 0 0) []]),
                               length (Packages cov))
                          end in
                        match Packages cov !! index with
                        | None => (cov, Panic PanicSliceBounds)
                        | Some target =>
                            match Walk (mkVisitor fileName data target ∅ profile) parsed with
                            | Ok v =>
                                let walked := pkg v in
                                let walked :=
                                  mkPackage (Package_Name walked) (Package_HitRate walked)
                                    (Package_Classes walked) in
                                (setPackages cov (<[index := walked]> (Packages cov)), Ok ())
                            | Err e => (cov, Err e)
                            | Panic p => (cov, Panic p)
                            end
                        end
                  end
              end
          end
      end
  end.

(** The loop of [Coverage.parseProfiles]. *)
Fixpoint parseProfilesLoop (cov : Coverage) (profiles : list Profile)
    (pkgMap : gmap string GoPackage) (ignore : Ignore) : Coverage * outcome () :=
  match profiles with
  | [] => (cov, Ok ())
  | profile :: rest =>
      let pkgName := getPackageName (FileName profile) in
      let pkgPkg := pkgMap !! pkgName in
      match ParseProfile cov profile pkgPkg ignore with
      | (cov', Ok _) => parseProfilesLoop cov' rest pkgMap ignore
      | (cov', r) => (cov', r)
      end
  end.

(** [Coverage.parseProfiles] *)
Definition parseProfiles (cov : Coverage) (profiles : list Profile)
    (pkgMap : gmap string GoPackage) (ignore : Ignore) : Coverage * outcome () :=
  match parseProfilesLoop (setPackages cov []) profiles pkgMap ignore with
  | (cov, Ok _) =>
      let lines := Coverage_AllLines cov in
      (mkCoverage (Sources cov) (Packages cov) (Timestamp cov)
         (length lines) (NumLinesWithHits lines) (Lines_HitRate lines),
       Ok ())
  | r => r
  end.

(** [appendIfUnique] *)
Definition appendIfUnique (sources : list string) (dir : string) : list string :=
  if existsb (String.eqb dir) sources then sources else sources ++ [dir].

(** [getPackages] *)
Definition getPackages (profiles : list Profile) (buildTags : list string)
  : string + list (option GoPackage) :=
  match profiles with
  | [] => inr []
  | _ =>
      let pkgNames := map (fun p => getPackageName (FileName p)) profiles in
      let buildFlags :=
        match buildTags with
        | [] => []
        | _ => ["-tags=" +:+ GoStrings.joinWith "," buildTags]
        end in
      packages_Load env buildFlags pkgNames
  end.

(** The first loop of [Convert]: the source directories and the map of
    the packages by ID. *)
Fixpoint collectPackages (pkgs : list (option GoPackage)) (sources : list string)
    (pkgMap : gmap string GoPackage) : list string * gmap string GoPackage :=
  match pkgs with
  | [] => (sources, pkgMap)
  | None :: rest => collectPackages rest sources pkgMap
  | Some pkg :: rest =>
      match Module pkg with
      | None => collectPackages rest sources pkgMap
      | Some module =>
          collectPackages rest (appendIfUnique sources (Dir module))
            (<[ID pkg := pkg]> pkgMap)
      end
  end.

(** The writes of the encoder: the first failure stops them and is the
    error of [Encode]. *)
Fixpoint encodeChunks (out : Writer) (chunks : list string) : Writer * option string :=
  match chunks with
  | [] => (out, None)
  | chunk :: rest =>
      match Fprint out chunk with
      | (out', None) => encodeChunks out' rest
      | (out', Some err) => (out', Some err)
      end
  end.

(** [Convert]: the destination after the call and the result. *)
Definition Convert (input : Reader) (out : Writer) (ignore : Ignore)
    (buildTags : list string) : Writer * outcome () :=
  match ParseProfiles input ignore with
  | Err e => (out, Err e)
  | Panic p => (out, Panic p)
  | Ok profiles =>
      match getPackages profiles buildTags with
      | inl err => (out, Err (ErrLoad err))
      | inr pkgs =>
          let '(sources, pkgMap) := collectPackages pkgs [] ∅ in
          let coverage := mkCoverage sources [] (Z.quot (time_Now env) 1000000) 0 0 (mkRate 0 0) in
          match parseProfiles coverage profiles pkgMap ignore with
          | (_, Err e) => (out, Err e)
          | (_, Panic p) => (out, Panic p)
          | (coverage, Ok _) =>
              let '(out, _) := Fprint out xml_Header in
              let '(out, _) := Fprint out (DTDDecl +:+ newline) in
              match encodeChunks out (xml_Encode env EmptyString "  " coverage) with
              | (out, Some err) => (out, Err (ErrEncode err))
              | (out, None) =>
                  let '(out, _) := Fprint out newline in
                  (out, Ok ())
              end
          end
      end
  end.

(** The stages of [Convert] before the first write: the report to
    emit, or the error or panic that ends the run. *)
Definition coverageOf (input : Reader) (ignore : Ignore) (buildTags : list string)
  : outcome Coverage :=
  profiles ← ParseProfiles input ignore;
  match getPackages profiles buildTags with
  | inl err => Err (ErrLoad err)
  | inr pkgs =>
      let '(sources, pkgMap) := collectPackages pkgs [] ∅ in
      let coverage := mkCoverage sources [] (Z.quot (time_Now env) 1000000) 0 0 (mkRate 0 0) in
      match parseProfiles coverage profiles pkgMap ignore with
      | (_, Err e) => Err e
      | (_, Panic p) => Panic p
      | (coverage, Ok _) => Ok coverage
      end
  end.

(** The pieces of the serialized report. *)
Definition reportChunks (coverage : Coverage) : list string :=
  xml_Encode env EmptyString "  " coverage.

End Resolver.

(** ** Auxiliary notions and sample data *)

(** The mode token of a mode line is white space only. *)
Definition blankToken (line : string) : bool :=
  match GoStrings.sliceFrom line (String.length modePrefix) with
  | Some token => negb (String.eqb token EmptyString)
                  && String.eqb (GoStrings.TrimSpace token) EmptyString
  | None => false
  end.

(** The package is named (by its ID) as [ParseProfile] looks it up. *)
Definition consistentPackage (profile : Profile) (pkgPkg : option GoPackage) : Prop :=
  forall p module fileName,
    pkgPkg = Some p -> Module p = Some module ->
    GoStrings.sliceFrom (FileName profile) (String.length (Path module) + 1) = Some fileName ->
    ID p = resolvedPkgPath module fileName.

(** A world in which every file exists and holds one function that
    spans lines 5 to 8, and every package is found, with its module. *)
Definition sampleEnv : Env :=
  mkEnv (fun _ => inr [mkFuncDecl "Func1" None (mkPosition 40 5 1) (mkPosition 90 8 2)])
        (fun _ => inr "package fmt"%string)
        (fun _ names =>
           inr (map (fun name =>
                       Some (mkGoPackage name ["/go/src/fmt/a.go"; "/go/src/fmt/b.go"]%string
                               (Some (mkModule "std" "/go/src")))) names))
        0
        (fun _ _ _ => ["<coverage>"; "</coverage>"]%string).

Definition emptyCoverage : Coverage := mkCoverage [] [] 0 0 0 (mkRate 0 0).

(** The same world without modules: every package is found, none has
    module metadata. *)
Definition bareEnv : Env :=
  mkEnv (parser_ParseFile sampleEnv) (os_ReadFile sampleEnv)
        (fun _ names => inr (map (fun name => Some (mkGoPackage name [] None)) names))
        0 (xml_Encode sampleEnv).

(** A destination whose first write fails and that takes every later
    one. *)
Definition firstWriteFails : Writer :=
  mkWriter (fun before _ => match before with [] => Some "short write"%string | _ => None end)
           [] [].

(** A destination that takes every write, and one that is closed. *)
Definition openWriter : Writer := mkWriter (fun _ _ => None) [] [].
Definition closedWriter : Writer :=
  mkWriter (fun _ _ => Some "io: read/write on closed pipe"%string) [] [].

(** ** Further notions *)

(** The block and the span of the declaration overlap: neither of the
    two guards of the loop of [method] holds. *)
Definition overlaps (block : ProfileBlock) (startLine startCol endLine endCol : Z) : bool :=
  negb (pastEnd block endLine endCol) && negb (beforeStart block startLine startCol).

(** The sum of the counts of the blocks. *)
Definition totalCount (blocks : list ProfileBlock) : Z :=
  foldr (fun b acc => Count b + acc) 0 blocks.

(** The name of the class of a declaration, the first step of
    [fileVisitor.class]. *)
Definition classKey (byFiles : bool) (v : fileVisitor) (n : FuncDecl) : outcome string :=
  if byFiles
  then Ok (GoStrings.ReplaceAll (GoStrings.ReplaceAll (fileName v) "/" ".") "\" ".")
  else recvName v n.

Definition keyIs (byFiles : bool) (v : fileVisitor) (name : string) (n : FuncDecl) : bool :=
  match classKey byFiles v n with
  | Ok k => String.eqb k name
  | _ => false
  end.

(** The method that [Visit] appends for a declaration. *)
Definition visitedMethod (v : fileVisitor) (n : FuncDecl) : Method :=
  let m := method v n in
  mkMethod (Method_Name m) (Lines_HitRate (Method_Lines m)) (Method_Lines m).

(** The state of a walk that started from [v0] with [base] classes in
    the package and has visited [visited]: the classes that were there
    are as they were, the map names exactly the classes added since,
    and each of these holds, in the order of the source, the methods of
    the declarations visited that bear its name. *)
Definition walkInv (byFiles : bool) (v0 : fileVisitor) (visited : list FuncDecl)
    (v : fileVisitor) : Prop :=
  let base := length (Package_Classes (pkg v0)) in
  fileName v = fileName v0 /\ fileData v = fileData v0 /\ profile v = profile v0
  /\ take base (Package_Classes (pkg v)) = Package_Classes (pkg v0)
  /\ (forall name idx,
        classes v !! name = Some idx <->
        (base <= idx)%nat
        /\ exists c, Package_Classes (pkg v) !! idx = Some c /\ Class_Name c = name)
  /\ (forall idx c,
        (base <= idx)%nat -> Package_Classes (pkg v) !! idx = Some c ->
        Class_Filename c = fileName v0
        /\ Class_Methods c
           = visitedMethod v0 <$> filter (fun n => keyIs byFiles v0 (Class_Name c) n) visited
        /\ Class_Lines c = concat (Method_Lines <$> Class_Methods c)
        /\ Class_Methods c <> [])
  /\ (forall n, n ∈ visited ->
        exists k, classKey byFiles v0 n = Ok k /\ is_Some (classes v !! k)).


(** No separator in the text. *)
Definition noSlash (s : string) : bool :=
  forallb (fun c => negb (Ascii.eqb c "/")) (list_ascii_of_string s).

(** The text of one block of a cover profile:
    [name:line<sep1>column,line<sep2>column statements count]; the tool
    that writes profiles puts a dot for both separators. *)
Definition blockLine (file startLine sep1 startCol endLine sep2 endCol numStmt count : string)
  : string :=
  (file +:+ ":" +:+ startLine +:+ sep1 +:+ startCol +:+ "," +:+
   endLine +:+ sep2 +:+ endCol +:+ " " +:+ numStmt +:+ " " +:+ count)%string.

(** ASCII text without line feed. *)
Definition asciiText (s : string) : bool :=
  forallb (fun c => (N_of_ascii c <? 128)%N && negb (Ascii.eqb c "010"))
          (list_ascii_of_string s).

(** The text holds no colon. *)
Definition noColon (s : string) : bool :=
  forallb (fun c => negb (Ascii.eqb c ":")) (list_ascii_of_string s).

(** ** The boundaries of the blocks in the source *)

(** [Boundary.Norm] is a [float64]; it is kept as the expression that
    [normalize] computes it with. *)
Inductive NormValue : Type :=
  | NormZero                        (* 0, also the zero value of the field *)
  | NormSet                         (* 0.8 *)
  | NormLog (count maxCount : Z).   (* math.Log(float64(count)) / math.Log(float64(maxCount)) *)

Record Boundary : Type := mkBoundary {
  B_Offset : Z;
  B_Start : bool;
  B_Count : Z;
  B_Norm : NormValue
}.

(** [Profile.getMaxCount] *)
Definition getMaxCount (p : Profile) : Z :=
  fold_left (fun maxCount b => if Count b >? maxCount then Count b else maxCount)
            (Blocks p) 0.

(** [Profile.normalize] *)
Definition normalize (count maxCount : Z) : NormValue :=
  if maxCount <=? 1 then NormSet
  else if count >? 0 then NormLog count maxCount
  else NormZero.

(** [Profile.createBoundary] *)
Definition createBoundary (offset : Z) (start : bool) (count maxCount : Z) : Boundary :=
  let boundary := mkBoundary offset start count NormZero in
  if negb start || (count =? 0) then boundary
  else mkBoundary offset start count (normalize count maxCount).

(** The loop of [Profile.Boundaries]; [fuel] bounds the number of
    iterations, each of which moves on in the blocks or in the source. *)
Fixpoint boundariesLoop (fuel : nat) (p : Profile) (src : string) (maxCount : Z)
    (si bi : nat) (line col : Z) (boundaries : list Boundary) : list Boundary :=
  match fuel with
  | O => boundaries
  | Datatypes.S fuel' =>
      match String.get si src, Blocks p !! bi with
      | Some c, Some b =>
          let boundaries :=
            if (StartLine b =? line) && (StartCol b =? col)
            then boundaries ++ [createBoundary (Z.of_nat si) true (Count b) maxCount]
            else boundaries in
          if (EndLine b =? line) && (EndCol b =? col)
          then boundariesLoop fuel' p src maxCount si (bi + 1) line col
                 (boundaries ++ [createBoundary (Z.of_nat si) false 0 maxCount])
          else
            let '(line, col) :=
              if Ascii.eqb c "010" then (wrap64 (line + 1), 0) else (line, col) in
            boundariesLoop fuel' p src maxCount (si + 1) bi line (wrap64 (col + 1)) boundaries
      | _, _ => boundaries
      end
  end.

(** [boundariesByPos.Less] *)
Definition boundariesByPos_Less (bi bj : Boundary) : bool :=
  if B_Offset bi =? B_Offset bj then negb (B_Start bi) && B_Start bj
  else B_Offset bi <? B_Offset bj.

(** [Profile.Boundaries] *)
Definition Boundaries {S : SortAlgorithm} (p : Profile) (src : string) : list Boundary :=
  sort_Sort boundariesByPos_Less
    (boundariesLoop (String.length src + length (Blocks p)) p src (getMaxCount p)
       0 0 1 1 []).

(** The order of the result of [Boundaries]: by offset, and at one
    offset no closing boundary after an opening one. *)
Definition boundaryLe (x y : Boundary) : Prop :=
  B_Offset x < B_Offset y
  \/ (B_Offset x = B_Offset y /\ (B_Start x = true -> B_Start y = true)).

(** The line and column of the byte at offset [n], as the loop of
    [Boundaries] counts them from [line] and [col]: a line feed starts
    the next line at column 1, any other byte is one column. *)
Fixpoint posFrom (src : string) (n : nat) (line col : Z) {struct n} : Z * Z :=
  match n, src with
  | Datatypes.S n', String c rest =>
      let '(line, col) :=
        if Ascii.eqb c "010" then (wrap64 (line + 1), 0) else (line, col) in
      posFrom rest n' line (wrap64 (col + 1))
  | _, _ => (line, col)
  end.

Definition posAt (src : string) (n : nat) : Z * Z := posFrom src n 1 1.

(** What a boundary of [p] in the source [src] looks like: it lies at
    the offset of a byte, at the line and column where a block starts
    (with the count and the norm of the block), or where a block ends
    (with count 0 and no norm). *)
Definition boundaryOf (p : Profile) (src : string) (b : Boundary) : Prop :=
  exists (si : nat) (block : ProfileBlock),
    B_Offset b = Z.of_nat si /\ (si < String.length src)%nat /\ block ∈ Blocks p
    /\ if B_Start b
       then posAt src si = (StartLine block, StartCol block)
            /\ B_Count b = Count block
            /\ B_Norm b = (if Count block =? 0 then NormZero
                           else normalize (Count block) (getMaxCount p))
       else posAt src si = (EndLine block, EndCol block)
            /\ B_Count b = 0 /\ B_Norm b = NormZero.

(** The boundary closes a block. *)
Definition closing (b : Boundary) : bool := negb (B_Start b).




(** * Properties *)

(** Boolean comparisons of integers as propositions. *)
Ltac zbool :=
  repeat (rewrite ?orb_true_iff, ?andb_true_iff, ?orb_false_iff, ?andb_false_iff,
            ?negb_true_iff, ?negb_false_iff, ?Z.gtb_ltb, ?Z.geb_leb,
            ?Z.ltb_lt, ?Z.ltb_ge, ?Z.leb_le, ?Z.leb_gt, ?Z.eqb_eq, ?Z.eqb_neq in *).

(** ** Sorting *)

Lemma insertLeft_perm {A : Type} (less : A -> A -> bool) (x : A) (l : list A) :
  Permutation (GoSort.insertLeft less x l) (x :: l).
Proof.
  induction l as [|y l IH]; simpl; [done|].
  destruct (less x y); [|done].
  rewrite IH. apply perm_swap.
Qed.

Lemma insertLeft_fold_perm {A : Type} (less : A -> A -> bool) (l acc : list A) :
  Permutation (fold_left (fun rp x => GoSort.insertLeft less x rp) l acc) (acc ++ l).
Proof.
  revert acc. induction l as [|x l IH]; intros acc; simpl.
  - by rewrite app_nil_r.
  - rewrite IH, insertLeft_perm. simpl. apply Permutation_middle.
Qed.

Lemma insertLeft_sorted {A : Type} (less : A -> A -> bool) (x : A) (l : list A) :
  (forall a b, less a b = true -> less b a = false) ->
  Sorted (fun a b => less a b = false) l ->
  Sorted (fun a b => less a b = false) (GoSort.insertLeft less x l).
Proof.
  intros Hasym. induction 1 as [|y l Hl IH Hhd]; simpl.
  - repeat constructor.
  - destruct (less x y) eqn:Hxy.
    + constructor; [done|].
      destruct Hhd as [|z l Hyz]; simpl.
      * constructor. by apply Hasym.
      * destruct (less x z); constructor; [done|by apply Hasym].
    + constructor; [by constructor|by constructor].
Qed.

Lemma insertionSort_lawful : SortLawful insertion_sort.
Proof.
  split; intros A less l; unfold sort_Sort, insertion_sort, GoSort.insertionSort.
  - rewrite <- Permutation_rev. by rewrite insertLeft_fold_perm.
  - intros Hswo. rewrite rev_alt.
    apply (Sorted_reverse (fun a b => less a b = false)).
    generalize (Sorted_nil (fun a b : A => less a b = false)).
    generalize (@nil A). induction l as [|x l IH]; intros acc Hacc; simpl; [done|].
    apply IH, insertLeft_sorted; [apply Hswo|done].
Qed.

(** ** Orders *)

Lemma ascii_compare_N (a b : ascii) :
  Ascii.compare a b = N.compare (N_of_ascii a) (N_of_ascii b).
Proof. reflexivity. Qed.

Lemma string_compare_trans (s1 s2 s3 : string) :
  String.compare s1 s2 = Lt -> String.compare s2 s3 = Lt -> String.compare s1 s3 = Lt.
Proof.
  revert s2 s3. induction s1 as [|a s1 IH]; intros [|b s2] [|c s3]; simpl; try done.
  rewrite !ascii_compare_N.
  destruct (N.compare_spec (N_of_ascii a) (N_of_ascii b)) as [Hab|Hab|Hab]; try done;
  destruct (N.compare_spec (N_of_ascii b) (N_of_ascii c)) as [Hbc|Hbc|Hbc]; try done;
  intros H1 H2.
  - rewrite Hab, Hbc, N.compare_refl. eauto.
  - rewrite Hab. by apply N.compare_lt_iff in Hbc as ->.
  - rewrite <- Hbc. by apply N.compare_lt_iff in Hab as ->.
  - assert (N_of_ascii a < N_of_ascii c)%N as Hac by lia.
    by apply N.compare_lt_iff in Hac as ->.
Qed.

Lemma string_ltb_total (s1 s2 : string) :
  String.ltb s1 s2 = false -> s1 <> s2 -> String.ltb s2 s1 = true.
Proof.
  unfold String.ltb. rewrite (String.compare_antisym s1 s2).
  destruct (String.compare s2 s1) eqn:Hc; simpl; try done.
  apply String.compare_eq_iff in Hc. intros _ Hne. by destruct Hne.
Qed.

Lemma byFileName_Less_swo : StrictWeakOrder byFileName_Less.
Proof.
  assert (Hlt : forall s t, String.ltb s t = true <-> String.compare s t = Lt).
  { intros s t. unfold String.ltb. destruct (String.compare s t); naive_solver. }
  assert (Htr : forall x y z, String.ltb x y = true -> String.ltb y z = true ->
                              String.ltb x z = true).
  { intros x y z. rewrite !Hlt. apply string_compare_trans. }
  assert (Has : forall x y, String.ltb x y = true -> String.ltb y x = false).
  { intros x y. rewrite Hlt. intros Hc. unfold String.ltb.
    by rewrite String.compare_antisym, Hc. }
  split; unfold byFileName_Less.
  - intros x y. apply Has.
  - intros x y z. apply Htr.
  - intros x y z Hxy Hyz. destruct (String.ltb (FileName x) (FileName z)) eqn:Hxz; [|done].
    destruct (decide (FileName x = FileName y)) as [Heq|Hne].
    { rewrite Heq in Hxz. congruence. }
    apply string_ltb_total in Hxy; [|done].
    pose proof (Htr _ _ _ Hxy Hxz). congruence.
Qed.

(** Ascending order of the start positions. *)
Lemma blocksByStart_Less_swo : StrictWeakOrder blocksByStart_Less.
Proof.
  split; unfold blocksByStart_Less; intros; zbool; lia.
Qed.

(** ** The merge loop *)

Lemma mergeLoop_mergeRun (mode : string) (rest : list ProfileBlock) :
  forall (out : list ProfileBlock) (last : ProfileBlock) (junk : list ProfileBlock),
    match mergeRun mode last rest with
    | Ok merged =>
        exists blocks blockNo,
          mergeLoop mode (length rest) (out ++ last :: junk ++ rest)
            (Datatypes.S (length out)) (Datatypes.S (length out) + length junk)%nat
          = Ok (blocks, blockNo)
          /\ (blockNo <= length blocks)%nat
          /\ take blockNo blocks = out ++ merged
    | Err e =>
        mergeLoop mode (length rest) (out ++ last :: junk ++ rest)
          (Datatypes.S (length out)) (Datatypes.S (length out) + length junk)%nat
        = Err e
    | Panic _ => False
    end.
Proof.
  induction rest as [|cur rest IH]; intros out last junk; simpl.
  - eexists _, _. split; [done|]. rewrite app_nil_r.
    split; [rewrite length_app; simpl; lia|].
    rewrite (cons_middle last), app_assoc.
    rewrite take_app_length'; [done|]. rewrite length_app; simpl; lia.
  - assert (Hcur : (out ++ last :: junk ++ cur :: rest)
                     !! (Datatypes.S (length out + length junk)) = Some cur).
    { rewrite lookup_app_r by lia.
      replace (Datatypes.S (length out + length junk) - length out)%nat
        with (Datatypes.S (length junk)) by lia.
      simpl. rewrite lookup_app_r by lia. by rewrite Nat.sub_diag. }
    assert (Hlast : (out ++ last :: junk ++ cur :: rest) !! (length out - 0)%nat = Some last).
    { rewrite Nat.sub_0_r, lookup_app_r by lia. by rewrite Nat.sub_diag. }
    rewrite Hcur, Hlast. clear Hcur Hlast.
    destruct (sameLocation cur last) eqn:Hsame.
    + destruct (negb (NumStmt cur =? NumStmt last)) eqn:Hnum; [done|].
      specialize (IH out (setCount last (mergeCount mode (Count last) (Count cur)))
                     (junk ++ [cur])).
      assert (Hins : <[(length out - 0)%nat :=
                         setCount last (mergeCount mode (Count last) (Count cur))]>
                       (out ++ last :: junk ++ cur :: rest)
                     = out ++ setCount last (mergeCount mode (Count last) (Count cur))
                           :: (junk ++ [cur]) ++ rest).
      { rewrite Nat.sub_0_r, insert_app_r_alt by lia. rewrite Nat.sub_diag. simpl.
        by rewrite <- app_assoc. }
      rewrite Hins.
      replace (Datatypes.S (Datatypes.S (length out + length junk)))
        with (Datatypes.S (length out) + length (junk ++ [cur]))%nat
        by (rewrite length_app; simpl; lia).
      apply IH.
    + specialize (IH (out ++ [last]) cur
                     (match junk with [] => [] | _ :: js => js ++ [cur] end)).
      assert (Hins : <[Datatypes.S (length out) := cur]> (out ++ last :: junk ++ cur :: rest)
                     = (out ++ [last]) ++ cur
                         :: (match junk with [] => [] | _ :: js => js ++ [cur] end) ++ rest).
      { rewrite insert_app_r_alt by lia.
        replace (Datatypes.S (length out) - length out)%nat with 1%nat by lia.
        rewrite <- app_assoc. simpl. destruct junk as [|j js]; simpl; [done|].
        by rewrite <- app_assoc. }
      rewrite Hins.
      replace (Datatypes.S (Datatypes.S (length out)))
        with (Datatypes.S (length (out ++ [last]))) by (rewrite length_app; simpl; lia).
      replace (Datatypes.S (Datatypes.S (length out + length junk)))
        with (Datatypes.S (length (out ++ [last]))
              + length (match junk with [] => [] | _ :: js => js ++ [cur] end))%nat.
      2:{ rewrite length_app. destruct junk; simpl; [lia|]. rewrite length_app; simpl; lia. }
      destruct (mergeRun mode cur rest) as [merged|e|p]; simpl; [|done|done].
      destruct IH as (blocks & blockNo & Heq & Hle & Htake).
      exists blocks, blockNo. split; [exact Heq|]. split; [done|].
      by rewrite Htake, <- app_assoc.
Qed.

Lemma mergeRun_no_panic (mode : string) (rest : list ProfileBlock) (last : ProfileBlock) p :
  mergeRun mode last rest <> Panic p.
Proof.
  revert last. induction rest as [|cur rest IH]; intros last; simpl; [done|].
  destruct (sameLocation cur last); [destruct (negb _); [done|apply IH]|].
  specialize (IH cur). destruct (mergeRun mode cur rest); simpl; done.
Qed.

Section Merge.
Context {S : SortAlgorithm}.

(** The in-place loop of a profile is the list recursion on its sorted
    blocks. *)
Lemma mergeProfile_mergeRun (mode : string) (p : Profile) :
  mergeProfile mode p =
  match sort_Sort blocksByStart_Less (Blocks p) with
  | [] => Panic PanicSliceBounds
  | last :: rest => merged ← mergeRun mode last rest; Ok (setBlocks p merged)
  end.
Proof.
  unfold mergeProfile.
  destruct (sort_Sort blocksByStart_Less (Blocks p)) as [|last rest]; [done|].
  pose proof (mergeLoop_mergeRun mode rest [] last []) as H.
  simpl in *. rewrite Nat.sub_0_r.
  destruct (mergeRun mode last rest) as [merged|e|pp]; simpl; [|by rewrite H|done].
  destruct H as (blocks & blockNo & -> & Hle & Htake). simpl.
  rewrite decide_True by done. by rewrite Htake.
Qed.
End Merge.

Lemma Sorted_weaken {A : Type} (R R' : A -> A -> Prop) (l : list A) :
  (forall x y, R x y -> R' x y) -> Sorted R l -> Sorted R' l.
Proof.
  intros HR. induction 1 as [|x l Hl IH Hhd]; constructor; [done|].
  destruct Hhd; constructor; auto.
Qed.

Lemma startLe_trans : Transitive startLe.
Proof. intros a b c. unfold startLe, posLe. lia. Qed.

Lemma sorted_blocks_startLe (l : list ProfileBlock) :
  Sorted (fun x y => blocksByStart_Less y x = false) l -> StronglySorted startLe l.
Proof.
  intros H. apply @Sorted_StronglySorted; [exact startLe_trans|].
  eapply Sorted_weaken; [|exact H].
  intros x y. unfold blocksByStart_Less, startLe, posLe. intros Hxy. zbool. lia.
Qed.

Lemma sameLocation_spec (a b : ProfileBlock) :
  sameLocation a b = true <-> locationOf a = locationOf b.
Proof.
  unfold sameLocation, locationOf. zbool. split; [intros (((-> & ->) & ->) & ->); done|].
  intros [= -> -> -> ->]. done.
Qed.

(** The merged blocks are in the order of their start positions, and
    each stands at the location of a block of the input. *)
Lemma mergeRun_sorted (mode : string) (rest : list ProfileBlock) :
  forall (last : ProfileBlock) (merged : list ProfileBlock),
    StronglySorted startLe (last :: rest) ->
    mergeRun mode last rest = Ok merged ->
    StronglySorted startLe merged
    /\ Forall (fun b => exists b0, b0 ∈ last :: rest /\ locationOf b = locationOf b0) merged.
Proof.
  induction rest as [|cur rest IH]; intros last merged Hsorted; simpl.
  - intros [= <-]. split; [done|]. repeat constructor. exists last. split; [left|done].
  - apply StronglySorted_inv in Hsorted as [Hrest Hlast].
    apply Forall_cons in Hlast as [Hlc Hlast].
    destruct (sameLocation cur last) eqn:Hsame.
    + destruct (negb _); [done|]. intros Hrun.
      apply IH in Hrun as [Hs Hloc].
      * split; [done|]. eapply Forall_impl; [exact Hloc|].
        intros b (b0 & Hin & Hb). apply elem_of_cons in Hin as [->|Hin].
        -- exists last. split; [left|done].
        -- exists b0. split; [by do 2 right|done].
      * apply StronglySorted_inv in Hrest as [Hrest _].
        constructor; [done|]. eapply Forall_impl; [exact Hlast|].
        intros b. unfold startLe. simpl. done.
    + destruct (mergeRun mode cur rest) as [m'| |] eqn:Hrun; simpl; try done.
      intros [= <-]. destruct (IH cur m' Hrest Hrun) as [Hs Hloc].
      split.
      * constructor; [done|]. eapply Forall_impl; [exact Hloc|].
        intros b (b0 & Hin & Hb).
        assert (startLe last b0) as Hle.
        { apply elem_of_cons in Hin as [->|Hin]; [done|].
          rewrite Forall_forall in Hlast. by apply Hlast. }
        unfold startLe in *. unfold locationOf in Hb. injection Hb as -> -> _ _. done.
      * constructor.
        -- exists last. split; [left|done].
        -- eapply Forall_impl; [exact Hloc|].
           intros b (b0 & Hin & Hb). exists b0. split; [by right|done].
Qed.

Section ParserOrder.
Context {S : SortAlgorithm} (HS : SortLawful S).

Lemma mergeProfile_sorted (mode : string) (p p' : Profile) :
  mergeProfile mode p = Ok p' ->
  FileName p' = FileName p /\ StronglySorted startLe (Blocks p').
Proof.
  rewrite mergeProfile_mergeRun.
  pose proof (sort_sorted S HS _ blocksByStart_Less (Blocks p) blocksByStart_Less_swo) as Hs.
  apply sorted_blocks_startLe in Hs.
  destruct (sort_Sort blocksByStart_Less (Blocks p)) as [|last rest]; [done|].
  destruct (mergeRun mode last rest) as [merged| |] eqn:Hrun; simpl; try done.
  intros [= <-]. split; [done|]. simpl.
  by apply (mergeRun_sorted mode rest last merged Hs) in Hrun as [? _].
Qed.

Lemma mergeProfiles_lookup (mode : string) (todo : list (string * Profile)) :
  forall (files files' : gmap string Profile),
    mergeProfiles mode todo files = Ok files' ->
    forall k p', files' !! k = Some p' ->
      (exists p, (k, p) ∈ todo /\ mergeProfile mode p = Ok p')
      \/ ((k ∉ todo.*1) /\ files !! k = Some p').
Proof.
  induction todo as [|[name p] todo IH]; intros files files'; simpl.
  - intros [= <-] k p' Hk. right. split; [apply not_elem_of_nil|done].
  - destruct (mergeProfile mode p) as [p1| |] eqn:Hp; simpl; try done.
    intros Hrest k p' Hk.
    destruct (IH _ _ Hrest k p' Hk) as [(p0 & Hin & Hm)|[Hnot Hlook]].
    + left. exists p0. split; [by right|done].
    + destruct (decide (name = k)) as [->|Hne].
      * rewrite lookup_insert_eq in Hlook. injection Hlook as <-.
        left. exists p. split; [left|done].
      * rewrite lookup_insert_ne in Hlook by done.
        right. split; [|done]. csimpl. apply not_elem_of_cons. done.
Qed.

Lemma mergeSameLocationSamples_lookup (mode : string) (files files' : gmap string Profile) :
  mergeSameLocationSamples files mode = Ok files' ->
  forall k p', files' !! k = Some p' ->
    exists p, files !! k = Some p /\ mergeProfile mode p = Ok p'.
Proof.
  intros Hm k p' Hk.
  destruct (mergeProfiles_lookup mode _ _ _ Hm k p' Hk) as [(p & Hin & Hp)|[Hnot Hlook]].
  - exists p. split; [by apply elem_of_map_to_list in Hin|done].
  - exfalso. apply Hnot. apply list_elem_of_fmap. exists (k, p'). split; [done|].
    by apply elem_of_map_to_list.
Qed.
End ParserOrder.

(** ** The scanning loop *)

Lemma HasPrefix_sliceFrom (prefix s : string) :
  GoStrings.HasPrefix s prefix = true ->
  exists rest, s = (prefix +:+ rest)%string
               /\ GoStrings.sliceFrom s (String.length prefix) = Some rest.
Proof.
  unfold GoStrings.HasPrefix. revert s.
  induction prefix as [|a prefix IH]; intros s; simpl.
  - intros _. exists s. split; [reflexivity|]. by destruct s.
  - destruct s as [|b s]; simpl; [done|]. destruct (ascii_dec a b) as [<-|]; [|done].
    intros (rest & -> & Hrest)%IH. exists rest. split; [reflexivity|]. exact Hrest.
Qed.

Lemma toInt_Ok (s : string) (i : Z) : toInt s = Ok i -> Strconv.Atoi s = inl i.
Proof. unfold toInt. destruct (Strconv.Atoi s); naive_solver. Qed.

(** What [parseLine] does to its state on a line that it accepts. *)
Lemma parseLine_Ok (mode line : string) (files : gmap string Profile) (ignore : Ignore)
    (mode' : string) (files' : gmap string Profile) :
  parseLine mode line files ignore = Ok (mode', files') ->
  (mode = EmptyString /\ files' = files /\ mode' <> EmptyString
   /\ line = (modePrefix +:+ mode')%string)
  \/ (mode <> EmptyString /\ mode' = mode /\
      (files' = files
       \/ exists m block,
            FindStringSubmatch line = Some m
            /\ files' = <[nth 1 m EmptyString :=
                 setBlocks (default (mkProfile (nth 1 m EmptyString) mode []) 
                                    (files !! nth 1 m EmptyString))
                   (Blocks (default (mkProfile (nth 1 m EmptyString) mode [])
                                    (files !! nth 1 m EmptyString)) ++ [block])]> files)).
Proof.
  unfold parseLine. destruct (String.eqb mode EmptyString) eqn:Hmode.
  - apply String.eqb_eq in Hmode as ->.
    destruct (negb (GoStrings.HasPrefix line modePrefix) || (line =? modePrefix)%string)
      eqn:Hbad; [done|].
    apply orb_false_iff in Hbad as [Hpre Hne]. apply negb_false_iff in Hpre.
    apply String.eqb_neq in Hne.
    apply HasPrefix_sliceFrom in Hpre as (rest & -> & ->).
    intros [= <- <-]. left. repeat split.
    intros ->. apply Hne. done.
  - apply String.eqb_neq in Hmode. intros H. right. split; [done|].
    destruct (FindStringSubmatch line) as [m|]; [|by injection H as <- <-; auto].
    cbv zeta in H. destruct (Match ignore _ None); [by injection H as <- <-; auto|].
    repeat match type of H with
    | context [toInt ?s] => destruct (toInt s); simpl in H; try done
    end.
    injection H as <- <-. split; [done|]. right. eexists m, _. split; [done|].
    by destruct (files !! nth 1 m EmptyString).
Qed.

Lemma parseLine_keyed (mode line : string) (files : gmap string Profile) (ignore : Ignore)
    (mode' : string) (files' : gmap string Profile) :
  keyed files -> parseLine mode line files ignore = Ok (mode', files') -> keyed files'.
Proof.
  intros Hk H. apply parseLine_Ok in H as [(_ & -> & _)|(_ & _ & [->|(m & b & _ & ->)])];
    try done.
  intros k p. destruct (decide (nth 1 m EmptyString = k)) as [<-|Hne].
  - rewrite lookup_insert_eq. intros [= <-]. simpl. split.
    + destruct (files !! nth 1 m EmptyString) as [p0|] eqn:Hp0; simpl; [|done].
      by apply Hk in Hp0 as [? _].
    + by destruct (Blocks _).
  - rewrite lookup_insert_ne by done. apply Hk.
Qed.

Lemma scanLines_keyed (lines : list string) (ignore : Ignore) :
  forall mode files mode' files',
    keyed files -> scanLines mode files lines ignore = Ok (mode', files') -> keyed files'.
Proof.
  induction lines as [|line lines IH]; intros mode files mode' files' Hk; simpl.
  - by intros [= <- <-].
  - destruct (parseLine mode line files ignore) as [[m1 f1]| |] eqn:Hline; simpl; try done.
    apply IH. by eapply parseLine_keyed.
Qed.

Lemma keyed_empty : keyed ∅.
Proof. intros k p. by rewrite lookup_empty. Qed.

(** ** Order of the result *)

Lemma sorted_names_strict (l : list Profile) :
  Sorted (fun p q => byFileName_Less q p = false) l ->
  NoDup (FileName <$> l) ->
  StronglySorted (fun p q => String.ltb (FileName p) (FileName q) = true) l.
Proof.
  intros Hs. apply Sorted_StronglySorted in Hs.
  2:{ intros p q r Hpq Hqr. eapply (swo_negtrans _ byFileName_Less_swo); eauto. }
  induction Hs as [|p l Hl IH Hall]; csimpl; [constructor|].
  intros [Hnotin Hnd]%NoDup_cons. constructor; [by apply IH|].
  apply Forall_forall. intros q Hq. rewrite Forall_forall in Hall.
  apply string_ltb_total; [by apply Hall|].
  intros Heq. apply Hnotin. rewrite <- Heq. apply list_elem_of_fmap. eauto.
Qed.

Section ParserResult.
Context {S : SortAlgorithm} (HS : SortLawful S).

(** A successful [ParseProfiles], step by step. *)
Lemma ParseProfiles_Ok (input : Reader) (ignore : Ignore) (profiles : list Profile) :
  ParseProfiles input ignore = Ok profiles ->
  exists mode files files',
    scanLines EmptyString ∅ (scanned input) ignore = Ok (mode, files)
    /\ scanErr input = None
    /\ mergeSameLocationSamples files mode = Ok files'
    /\ profiles = generateSortedProfilesSlice files'.
Proof.
  unfold ParseProfiles.
  destruct (scanLines _ _ _ _) as [[mode files]| |]; simpl; try done.
  destruct (scanErr input); [done|].
  destruct (mergeSameLocationSamples files mode) as [files'| |] eqn:Hm; simpl; try done.
  intros [= <-]. exists mode, files, files'. repeat split. exact Hm.
Qed.

Lemma merged_files_keyed (files files' : gmap string Profile) (mode : string) :
  keyed files -> mergeSameLocationSamples files mode = Ok files' ->
  forall k p', files' !! k = Some p' ->
    FileName p' = k /\ StronglySorted startLe (Blocks p').
Proof.
  intros Hk Hm k p' Hp'.
  destruct (mergeSameLocationSamples_lookup mode _ _ Hm k p' Hp') as (p & Hp & Hmp).
  apply (mergeProfile_sorted HS) in Hmp as [-> Hs]. split; [|done].
  by apply Hk in Hp as [? _].
Qed.

End ParserResult.

(** C6. For every input that [ParseProfiles] accepts, the profiles
    returned are in ascending order of their file names (byte-wise, no
    two equal), and the blocks of each profile are in ascending order of
    (start line, start column). *)
Theorem ParseProfiles_sorted (S : SortAlgorithm) (HS : SortLawful S)
    (input : Reader) (ignore : Ignore) (profiles : list Profile) :
  ParseProfiles input ignore = Ok profiles ->
  StronglySorted (fun p q => String.ltb (FileName p) (FileName q) = true) profiles
  /\ Forall (fun p => StronglySorted startLe (Blocks p)) profiles.
Proof.
  intros (mode & files & files' & Hscan & _ & Hmerge & ->)%ParseProfiles_Ok.
  assert (Hk : keyed files) by (eapply scanLines_keyed; [apply keyed_empty|exact Hscan]).
  pose proof (merged_files_keyed HS _ _ _ Hk Hmerge) as Hk'.
  unfold generateSortedProfilesSlice.
  pose proof (sort_perm S HS _ byFileName_Less (snd <$> map_to_list files')) as Hperm.
  split.
  - apply sorted_names_strict.
    + apply (sort_sorted S HS), byFileName_Less_swo.
    + rewrite Hperm. rewrite <- list_fmap_compose.
      rewrite (list_fmap_ext _ fst (map_to_list files')).
      * apply NoDup_fst_map_to_list.
      * intros i [k p] Hin. simpl.
        apply list_elem_of_lookup_2, elem_of_map_to_list in Hin.
        by apply Hk' in Hin as [? _].
  - apply Forall_forall. intros p Hp. rewrite Hperm in Hp.
    apply list_elem_of_fmap in Hp as ([k p'] & -> & Hin). simpl.
    apply elem_of_map_to_list in Hin. by apply Hk' in Hin as [_ ?].
Qed.

Lemma ParseProfiles_sorted_witness :
  let input := mkReader ["mode: set"; "b.go:7.1,8.2 1 0"; "a.go:3.1,4.2 1 1";
                         "b.go:5.1,6.2 1 1"; "b.go:7.1,8.2 1 1"]%string None in
  exists profiles,
    ParseProfiles input noIgnore = Ok profiles
    /\ StronglySorted (fun p q => String.ltb (FileName p) (FileName q) = true) profiles
    /\ Forall (fun p => StronglySorted startLe (Blocks p)) profiles.
Proof.
  eexists. split; [vm_compute; reflexivity|].
  apply (ParseProfiles_sorted insertion_sort insertionSort_lawful
           (mkReader ["mode: set"; "b.go:7.1,8.2 1 0"; "a.go:3.1,4.2 1 1";
                      "b.go:5.1,6.2 1 1"; "b.go:7.1,8.2 1 1"]%string None) noIgnore).
  vm_compute. reflexivity.
Defined.

(** ** The mode line *)

Lemma parseLine_mode_line (line : string) (files : gmap string Profile) (ignore : Ignore) :
  parseLine EmptyString line files ignore =
  if negb (GoStrings.HasPrefix line modePrefix) || String.eqb line modePrefix
  then Err (ErrBadModeLine line)
  else match GoStrings.sliceFrom line (String.length modePrefix) with
       | Some m => Ok (m, files)
       | None => Panic PanicSliceBounds
       end.
Proof. reflexivity. Qed.

Lemma parseLine_no_Err (mode line : string) (files : gmap string Profile) (ignore : Ignore)
    (e : error) :
  mode <> EmptyString -> parseLine mode line files ignore <> Err e.
Proof.
  intros Hmode%String.eqb_neq. unfold parseLine. rewrite Hmode.
  destruct (FindStringSubmatch line) as [m|]; [|done].
  cbv zeta. destruct (Match ignore _ None); [done|].
  repeat match goal with
  | |- context [toInt ?s] => unfold toInt at 1; destruct (Strconv.Atoi s); simpl; try done
  end.
Qed.

Lemma scanLines_no_Err (lines : list string) (ignore : Ignore) :
  forall mode files e,
    mode <> EmptyString -> scanLines mode files lines ignore <> Err e.
Proof.
  induction lines as [|line lines IH]; intros mode files e Hmode; simpl; [done|].
  destruct (parseLine mode line files ignore) as [[m1 f1]|e1|] eqn:Hline; simpl; try done.
  - apply parseLine_Ok in Hline as [(-> & _)|(_ & -> & _)]; [done|]. by apply IH.
  - by apply parseLine_no_Err in Hline.
Qed.

Lemma mergeRun_Err (mode : string) (rest : list ProfileBlock) :
  forall last e, mergeRun mode last rest = Err e ->
                 exists from to, e = ErrInconsistentNumStmt from to.
Proof.
  induction rest as [|cur rest IH]; intros last e; simpl; [done|].
  destruct (sameLocation cur last).
  - destruct (negb _); [intros [= <-]; eauto|apply IH].
  - destruct (mergeRun mode cur rest) eqn:Hrun; simpl; try done.
    intros [= <-]. by eapply IH.
Qed.

Section ModeLine.
Context {S : SortAlgorithm}.

Lemma mergeProfile_Err (mode : string) (p : Profile) (e : error) :
  mergeProfile mode p = Err e -> exists from to, e = ErrInconsistentNumStmt from to.
Proof.
  rewrite mergeProfile_mergeRun.
  destruct (sort_Sort blocksByStart_Less (Blocks p)) as [|last rest]; [done|].
  destruct (mergeRun mode last rest) eqn:Hrun; simpl; try done.
  intros [= <-]. by eapply mergeRun_Err.
Qed.

Lemma mergeProfiles_Err (mode : string) (todo : list (string * Profile)) :
  forall files e, mergeProfiles mode todo files = Err e ->
                  exists from to, e = ErrInconsistentNumStmt from to.
Proof.
  induction todo as [|[k p] todo IH]; intros files e; simpl; [done|].
  destruct (mergeProfile mode p) eqn:Hp; simpl; try done.
  - apply IH.
  - intros [= <-]. by eapply mergeProfile_Err.
Qed.

Lemma ParseProfiles_bad_mode_line (input : Reader) (ignore : Ignore) (l : string) :
  ParseProfiles input ignore = Err (ErrBadModeLine l) <->
  exists rest, scanned input = l :: rest
               /\ (GoStrings.HasPrefix l modePrefix = false \/ l = modePrefix).
Proof.
  unfold ParseProfiles. destruct (scanned input) as [|line rest]; simpl.
  { split; [|by intros (? & ? & _)].
    destruct (scanErr input); [done|].
    unfold mergeSameLocationSamples. rewrite map_to_list_empty. done. }
  rewrite parseLine_mode_line.
  destruct (negb (GoStrings.HasPrefix line modePrefix) || (line =? modePrefix)%string)
    eqn:Hbad.
  - simpl. apply orb_true_iff in Hbad. rewrite negb_true_iff, String.eqb_eq in Hbad.
    split; [intros [= ->]; eauto|]. by intros (? & [= -> _] & _).
  - apply orb_false_iff in Hbad as [Hpre Hne].
    apply negb_false_iff in Hpre. apply String.eqb_neq in Hne.
    split; [|intros (? & [= -> _] & [?|?]); congruence].
    destruct (HasPrefix_sliceFrom _ _ Hpre) as (m & Hline & ->). simpl.
    assert (m <> EmptyString) as Hm by (intros ->; by apply Hne).
    destruct (scanLines m ∅ rest ignore) as [[m1 files]|e|] eqn:Hscan; simpl; try done.
    + destruct (scanErr input); [done|].
      destruct (mergeSameLocationSamples files m1) eqn:Hmerge; simpl; try done.
      intros [= ->]. by apply mergeProfiles_Err in Hmerge as (? & ? & ?).
    + by apply scanLines_no_Err in Hscan.
Qed.
End ModeLine.

(** C5, the claim as stated fails: a first line whose mode token is a
    single space is accepted (the mode is then that space), and the parse
    succeeds. *)
Lemma ParseProfiles_blank_mode_accepted :
  blankToken "mode:  " = true
  /\ ParseProfiles (mkReader ["mode:  "; "f.go:1.1,2.2 1 1"]%string None) noIgnore
     = Ok [mkProfile "f.go" " " [mkBlock 1 1 2 2 1 1]].
Proof. split; vm_compute; reflexivity. Qed.

(** C5, amended. [ParseProfiles] fails with "bad mode line" exactly when
    there is a first line and it does not start with [mode: ] or is
    [mode: ] alone (an empty mode token; a mode token of white space is
    accepted).  Once the mode is set, a line that does not match the
    block pattern is skipped, leaving the mode and the profiles as they
    are, and no line makes [parseLine] return an error. *)
Theorem ParseProfiles_mode_line (S : SortAlgorithm) (input : Reader) (ignore : Ignore) :
  (forall l, ParseProfiles input ignore = Err (ErrBadModeLine l) <->
             exists rest, scanned input = l :: rest
                          /\ (GoStrings.HasPrefix l modePrefix = false \/ l = modePrefix))
  /\ (forall mode line files,
        mode <> EmptyString -> FindStringSubmatch line = None ->
        parseLine mode line files ignore = Ok (mode, files))
  /\ (forall mode line files e,
        mode <> EmptyString -> parseLine mode line files ignore <> Err e).
Proof.
  split; [intros l; apply ParseProfiles_bad_mode_line|]. split.
  - intros mode line files Hmode%String.eqb_neq Hno. unfold parseLine.
    by rewrite Hmode, Hno.
  - intros mode line files e. apply parseLine_no_Err.
Qed.

Lemma ParseProfiles_mode_line_witness :
  ParseProfiles (mkReader ["mode:"; "f.go:1.1,2.2 1 1"]%string None) noIgnore
    = Err (ErrBadModeLine "mode:")
  /\ parseLine "set" "PASS" ∅ noIgnore = Ok ("set"%string, ∅).
Proof.
  pose proof (ParseProfiles_mode_line insertion_sort
                (mkReader ["mode:"; "f.go:1.1,2.2 1 1"]%string None) noIgnore)
    as (Hbad & Hskip & _).
  split.
  - apply Hbad. eexists. split; [reflexivity|]. left. vm_compute. reflexivity.
  - apply Hskip; [discriminate|vm_compute; reflexivity].
Defined.

(** ** The block pattern and the conversions *)

Lemma firstSome_Some {A B : Type} (f : A -> option B) (l : list A) (b : B) :
  Regexp.firstSome f l = Some b -> exists a, a ∈ l /\ f a = Some b.
Proof.
  induction l as [|a l IH]; simpl; [done|].
  destruct (f a) eqn:Hfa.
  - intros [= <-]. exists a. split; [left|done].
  - intros (a' & Hin & Ha')%IH. exists a'. split; [by right|done].
Qed.

Lemma repeats_digit (fuel : nat) :
  forall (s : string) (c n : nat),
    n ∈ Regexp.repeats Regexp.digit fuel s c ->
    (c < n)%nat /\ Strconv.digitString (GoStrings.sliceTo s (n - c)) = true.
Proof.
  induction fuel as [|fuel IH]; intros s c n; simpl; [by intros ?%elem_of_nil|].
  destruct s as [|ch s]; simpl; [by intros ?%elem_of_nil|].
  destruct (Strconv.isDigit ch) eqn:Hch; simpl; [|by intros ?%elem_of_nil].
  intros [Hin| ->%list_elem_of_singleton]%elem_of_app.
  - apply IH in Hin as [Hlt Hd]. split; [lia|].
    replace (n - c)%nat with (Datatypes.S (n - (c + 1))) by lia.
    unfold Strconv.digitString in *. simpl. rewrite Hch. simpl.
    by apply andb_true_iff in Hd as [_ ->].
  - split; [lia|]. replace (c + 1 - c)%nat with 1%nat by lia.
    unfold Strconv.digitString. simpl. by rewrite Hch.
Qed.

Lemma matchItems_Group (u : Regexp.atom) (rest : list Regexp.item) (s : string)
    (caps : list string) :
  Regexp.matchItems (Regexp.Group u :: rest) s = Some caps ->
  exists n s' caps',
    n ∈ Regexp.repeats u (String.length s) s 0
    /\ GoStrings.sliceFrom s n = Some s'
    /\ Regexp.matchItems rest s' = Some caps'
    /\ caps = GoStrings.sliceTo s n :: caps'.
Proof.
  simpl. intros (n & Hin & Hn)%firstSome_Some.
  destruct (GoStrings.sliceFrom s n) as [s'|] eqn:Hs'; simpl in Hn; [|done].
  destruct (Regexp.matchItems rest s') as [caps'|] eqn:Hrest; simpl in Hn; [|done].
  injection Hn as <-. by exists n, s', caps'.
Qed.





Lemma digitsValue_decimal (s : string) :
  forall acc, forallb Strconv.isDigit (list_ascii_of_string s) = true ->
    Strconv.digitsValue acc s = Some (Strconv.decimal acc s)
    /\ (0 <= acc -> 0 <= Strconv.decimal acc s).
Proof.
  induction s as [|c s IH]; intros acc; simpl; [done|].
  intros [Hc Hs]%andb_true_iff. rewrite Hc.
  destruct (IH (acc * 10 + (Z.of_N (N_of_ascii c) - 48)) Hs) as [-> Hpos].
  split; [done|]. intros Hacc. apply Hpos.
  unfold Strconv.isDigit in Hc. apply andb_true_iff in Hc as [Hlo _].
  apply N.leb_le in Hlo. lia.
Qed.

(** The conversion of a string of digits fails only by leaving the range
    of [int], and then [toInt] panics. *)
Lemma toInt_digitString (s : string) :
  Strconv.digitString s = true ->
  toInt s = if Strconv.decimal 0 s <=? int_max then Ok (Strconv.decimal 0 s)
            else Panic (PanicNum ErrRange s).
Proof.
  unfold Strconv.digitString. intros [Hne Hd]%andb_true_iff.
  destruct (digitsValue_decimal s 0 Hd) as [Hv Hpos]. specialize (Hpos ltac:(lia)).
  unfold toInt, Strconv.Atoi.
  destruct s as [|c s]; [done|].
  assert (Hc : Strconv.isDigit c = true) by (simpl in Hd; by apply andb_true_iff in Hd as [? _]).
  assert (Hsign : match String c s with
                  | String "+" rest => (false, rest)
                  | String "-" rest => (true, rest)
                  | _ => (false, String c s)
                  end = (false, String c s)).
  { destruct c as [[] [] [] [] [] [] [] []]; try done. }
  rewrite Hsign, Hv.
  assert ((int_min <=? Strconv.decimal 0 (String c s)) = true) as ->.
  { apply Z.leb_le. unfold int_min. lia. }
  simpl. by destruct (_ <=? int_max).
Qed.



(** ** Merging the samples of one location *)

Lemma sameLocation_sym (a b : ProfileBlock) : sameLocation a b = sameLocation b a.
Proof.
  unfold sameLocation. rewrite (Z.eqb_sym (StartLine a)), (Z.eqb_sym (StartCol a)),
    (Z.eqb_sym (EndLine a)), (Z.eqb_sym (EndCol a)). done.
Qed.

Lemma sameLocation_false (a b : ProfileBlock) :
  sameLocation a b = false <-> locationOf a <> locationOf b.
Proof.
  rewrite <- sameLocation_spec. by destruct (sameLocation a b).
Qed.

Lemma startLt_location (a b : ProfileBlock) : startLt a b -> locationOf a <> locationOf b.
Proof. unfold startLt, posLt, locationOf. intros H [= ? ? ? ?]. lia. Qed.

Lemma filter_none {A : Type} (P : A -> Prop) `{forall x, Decision (P x)} (l : list A) :
  (forall x, x ∈ l -> ~ P x) -> filter P l = [].
Proof.
  induction l as [|x l IH]; intros Hl; [done|].
  rewrite filter_cons_False by (apply Hl; left). apply IH. intros y Hy. apply Hl. by right.
Qed.

(** A block that opens a new location starts before all that follow. *)
Lemma new_location_strict (last cur : ProfileBlock) (rest : list ProfileBlock) :
  StronglySorted startLe (last :: cur :: rest) ->
  startDeterminesSpan (last :: cur :: rest) ->
  sameLocation cur last = false ->
  forall b, b ∈ cur :: rest -> startLt last b.
Proof.
  intros Hs Hd Hdiff b Hb.
  apply StronglySorted_inv in Hs as [Hs Hlast]. rewrite Forall_forall in Hlast.
  assert (startLe last cur) as Hlc by (apply Hlast; left).
  assert (startLe last b) as Hlb by (by apply Hlast).
  assert (startLe cur b) as Hcb.
  { apply elem_of_cons in Hb as [->|Hb]; [unfold startLe, posLe; lia|].
    apply StronglySorted_inv in Hs as [_ Hcur]. rewrite Forall_forall in Hcur. by apply Hcur. }
  destruct (decide (startOf last = startOf b)) as [Heq|Hne].
  - exfalso. apply sameLocation_false in Hdiff. apply Hdiff.
    apply Hd; [right; left|left|].
    unfold startOf, startLe, posLe in *. injection Heq as H1 H2. f_equal; lia.
  - unfold startOf, startLe, startLt, posLe, posLt in *.
    destruct (decide (StartLine last = StartLine b)); [|lia].
    destruct (decide (StartCol last = StartCol b)); [|lia]. destruct Hne. congruence.
Qed.

Lemma startDeterminesSpan_tail (a : ProfileBlock) (l : list ProfileBlock) :
  startDeterminesSpan (a :: l) -> startDeterminesSpan l.
Proof. intros H x y Hx Hy. apply H; by right. Qed.

Lemma startDeterminesSpan_merged (last cur : ProfileBlock) (c : Z) (rest : list ProfileBlock) :
  sameLocation cur last = true ->
  startDeterminesSpan (last :: cur :: rest) ->
  startDeterminesSpan (setCount last c :: rest).
Proof.
  intros Hsame Hd x y Hx Hy.
  assert (forall z, z ∈ setCount last c :: rest ->
            exists z0, z0 ∈ last :: cur :: rest
                       /\ startOf z = startOf z0 /\ locationOf z = locationOf z0) as Hin.
  { intros z [->|Hz]%elem_of_cons.
    - exists last. split; [left|done].
    - exists z. split; [by do 2 right|done]. }
  destruct (Hin x Hx) as (x0 & Hx0 & -> & ->). destruct (Hin y Hy) as (y0 & Hy0 & -> & ->).
  by apply Hd.
Qed.

Lemma sorted_merged (last cur : ProfileBlock) (c : Z) (rest : list ProfileBlock) :
  StronglySorted startLe (last :: cur :: rest) ->
  StronglySorted startLe (setCount last c :: rest).
Proof.
  intros [Hs Hlast]%StronglySorted_inv.
  apply StronglySorted_inv in Hs as [Hs _]. apply Forall_cons in Hlast as [_ Hlast].
  by constructor.
Qed.

(** With spans determined by their start, the merged blocks start at
    strictly increasing positions: no location is left twice. *)
Lemma mergeRun_strict (mode : string) (rest : list ProfileBlock) :
  forall (last : ProfileBlock) (merged : list ProfileBlock),
    StronglySorted startLe (last :: rest) ->
    startDeterminesSpan (last :: rest) ->
    mergeRun mode last rest = Ok merged ->
    StronglySorted startLt merged.
Proof.
  induction rest as [|cur rest IH]; intros last merged Hs Hd; simpl.
  - intros [= <-]. repeat constructor.
  - destruct (sameLocation cur last) eqn:Hsame.
    + destruct (negb _); [done|]. apply IH.
      * by eapply sorted_merged.
      * by eapply startDeterminesSpan_merged.
    + destruct (mergeRun mode cur rest) as [m'| |] eqn:Hrun; simpl; try done.
      intros [= <-].
      pose proof (new_location_strict _ _ _ Hs Hd Hsame) as Hstrict.
      apply StronglySorted_inv in Hs as [Hs _].
      constructor.
      * eapply IH; [done|by eapply startDeterminesSpan_tail|done].
      * destruct (mergeRun_sorted mode rest cur m' Hs Hrun) as [_ Hloc].
        eapply Forall_impl; [exact Hloc|].
        intros b (b0 & Hb0 & Hb). apply Hstrict in Hb0.
        unfold startLt, locationOf in *. injection Hb as -> -> _ _. done.
Qed.

(** Every location of the input is a location of the result. *)
Lemma mergeRun_covers (mode : string) (rest : list ProfileBlock) :
  forall (last : ProfileBlock) (merged : list ProfileBlock),
    mergeRun mode last rest = Ok merged ->
    forall b, b ∈ last :: rest -> exists b', b' ∈ merged /\ locationOf b' = locationOf b.
Proof.
  induction rest as [|cur rest IH]; intros last merged; simpl.
  - intros [= <-] b ->%list_elem_of_singleton. exists last. split; [left|done].
  - destruct (sameLocation cur last) eqn:Hsame.
    + destruct (negb _); [done|]. intros Hrun b Hb.
      apply sameLocation_spec in Hsame.
      assert (exists b0, b0 ∈ setCount last (mergeCount mode (Count last) (Count cur)) :: rest
                         /\ locationOf b0 = locationOf b) as (b0 & Hb0 & <-).
      { apply elem_of_cons in Hb as [->|[->|Hb]%elem_of_cons].
        - eexists. split; [left|done].
        - eexists. split; [left|]. by rewrite Hsame.
        - exists b. split; [by right|done]. }
      by eapply IH.
    + destruct (mergeRun mode cur rest) as [m'| |] eqn:Hrun; simpl; try done.
      intros [= <-] b [->|Hb]%elem_of_cons.
      * exists last. split; [left|done].
      * destruct (IH _ _ Hrun b Hb) as (b' & Hb' & Hloc). exists b'. split; [by right|done].
Qed.

(** The count of a merged block combines the counts of the blocks of
    the input at its location. *)
Lemma mergeRun_counts (mode : string) (rest : list ProfileBlock) :
  forall (last : ProfileBlock) (merged : list ProfileBlock),
    StronglySorted startLe (last :: rest) ->
    startDeterminesSpan (last :: rest) ->
    mergeRun mode last rest = Ok merged ->
    forall b', b' ∈ merged ->
      Count b' = combineCounts mode
                   (Count <$> filter (fun b => sameLocation b b') (last :: rest)).
Proof.
  induction rest as [|cur rest IH]; intros last merged Hs Hd; simpl.
  - intros [= <-] b' ->%list_elem_of_singleton.
    rewrite filter_cons_True; [done|]. apply Is_true_true, sameLocation_spec. done.
  - destruct (sameLocation cur last) eqn:Hsame.
    + destruct (negb _); [done|]. intros Hrun b' Hb'.
      rewrite (IH _ _ (sorted_merged _ _ _ _ Hs)
                 (startDeterminesSpan_merged _ _ _ _ Hsame Hd) Hrun b' Hb').
      apply sameLocation_spec in Hsame.
      destruct (sameLocation last b') eqn:Hlb.
      * assert (sameLocation cur b' = true) as Hcb.
        { apply sameLocation_spec. rewrite Hsame. by apply sameLocation_spec. }
        rewrite !filter_cons_True; try (apply Is_true_true; done).
        done.
      * assert (sameLocation cur b' = false) as Hcb.
        { apply sameLocation_false. rewrite Hsame. by apply sameLocation_false. }
        rewrite !filter_cons_False; try (apply Is_true_false; done).
        done.
    + destruct (mergeRun mode cur rest) as [m'| |] eqn:Hrun; simpl; try done.
      intros [= <-] b' Hb'.
      pose proof (new_location_strict _ _ _ Hs Hd Hsame) as Hstrict.
      apply elem_of_cons in Hb' as [->|Hb'].
      * rewrite filter_cons_True by (apply Is_true_true, sameLocation_spec; done).
        replace (filter (fun b => sameLocation b last) (cur :: rest)) with (@nil ProfileBlock);
          [done|].
        symmetry. apply filter_none. intros b Hb%Hstrict%startLt_location Hsl.
        apply Is_true_true, sameLocation_spec in Hsl. congruence.
      * apply StronglySorted_inv in Hs as [Hs _].
        rewrite filter_cons_False.
        { by eapply IH; [done|by eapply startDeterminesSpan_tail|done|]. }
        intros Hsl. apply Is_true_true, sameLocation_spec in Hsl.
        destruct (mergeRun_sorted mode rest cur m' Hs Hrun) as [_ Hloc].
        rewrite Forall_forall in Hloc. destruct (Hloc b' Hb') as (b0 & Hb0 & Hb).
        apply Hstrict, startLt_location in Hb0. congruence.
Qed.

(** Neighbours at one location with different statement counts stop the
    merge with the error. *)
Lemma mergeRun_mismatch (mode : string) (rest : list ProfileBlock) :
  forall last, adjacentMismatch (last :: rest) ->
    exists from to, mergeRun mode last rest = Err (ErrInconsistentNumStmt from to).
Proof.
  induction rest as [|cur rest IH]; intros last (pre & a & b & post & Hl & Hsame & Hnum).
  { destruct pre as [|? [|? ?]]; discriminate. }
  simpl. destruct pre as [|x pre]; simpl in Hl.
  - injection Hl as <- <- <-. rewrite Hsame.
    assert ((NumStmt cur =? NumStmt last) = false) as -> by (apply Z.eqb_neq; congruence).
    simpl. eauto.
  - injection Hl as <- Hl.
    destruct (sameLocation cur last) eqn:Hcl.
    + destruct (NumStmt cur =? NumStmt last) eqn:Hn; simpl; [|eauto].
      apply Z.eqb_eq in Hn. apply IH.
      destruct pre as [|y pre]; simpl in Hl.
      * injection Hl as <- ->. exists [], (setCount last (mergeCount mode (Count last) (Count cur))), b, post.
        split; [done|]. split; [|simpl; congruence].
        apply sameLocation_spec. apply sameLocation_spec in Hsame, Hcl.
        rewrite Hsame, Hcl. done.
      * injection Hl as <- ->.
        by exists (setCount last (mergeCount mode (Count last) (Count cur)) :: pre), a, b, post.
    + destruct (IH cur) as (from & to & ->); [|simpl; eauto].
      by exists pre, a, b, post.
Qed.

Section MergeProfiles.
Context {S : SortAlgorithm} (HS : SortLawful S).

Lemma sorted_blocks_nonempty (blocks : list ProfileBlock) :
  blocks <> [] -> sort_Sort blocksByStart_Less blocks <> [].
Proof.
  intros Hne Hnil. pose proof (sort_perm S HS _ blocksByStart_Less blocks) as Hp.
  rewrite Hnil in Hp. by apply Permutation_nil in Hp.
Qed.

Lemma mergeProfile_no_panic (mode : string) (p : Profile) (pn : panic) :
  Blocks p <> [] -> mergeProfile mode p <> Panic pn.
Proof.
  intros Hne%sorted_blocks_nonempty. rewrite mergeProfile_mergeRun.
  destruct (sort_Sort blocksByStart_Less (Blocks p)) as [|last rest]; [done|].
  pose proof (mergeRun_no_panic mode rest last) as Hnp.
  destruct (mergeRun mode last rest) as [| |p0]; simpl; [done|done|].
  by destruct (Hnp p0).
Qed.

Lemma mergeProfiles_fails (mode : string) (todo : list (string * Profile)) :
  forall files k p e,
    Forall (fun kp => Blocks kp.2 <> []) todo ->
    (k, p) ∈ todo -> mergeProfile mode p = Err e ->
    exists e', mergeProfiles mode todo files = Err e'.
Proof.
  induction todo as [|[k0 p0] todo IH]; intros files k p e Hne Hin Hp; simpl.
  { by apply elem_of_nil in Hin. }
  apply Forall_cons in Hne as [Hne0 Hne].
  destruct (mergeProfile mode p0) as [p0'|e0|pn] eqn:Hp0; simpl; [|eauto|].
  - apply elem_of_cons in Hin as [[= -> ->]|Hin]; [congruence|]. by eapply IH.
  - by apply mergeProfile_no_panic in Hp0.
Qed.

(** One profile whose merge fails makes the whole parse fail. *)
Lemma ParseProfiles_fails (input : Reader) (ignore : Ignore) (mode : string)
    (files : gmap string Profile) (k : string) (p : Profile) (e : error) :
  scanLines EmptyString ∅ (scanned input) ignore = Ok (mode, files) ->
  scanErr input = None ->
  files !! k = Some p ->
  mergeProfile mode p = Err e ->
  exists from to, ParseProfiles input ignore = Err (ErrInconsistentNumStmt from to).
Proof.
  intros Hscan Herr Hk Hp. unfold ParseProfiles. rewrite Hscan. simpl. rewrite Herr.
  assert (keyed files) as Hkeyed by (eapply scanLines_keyed; [apply keyed_empty|done]).
  destruct (mergeProfiles_fails mode (map_to_list files) files k p e) as [e' He'];
    [|by apply elem_of_map_to_list|done|].
  { apply Forall_forall. intros [k1 p1] Hin%elem_of_map_to_list. simpl.
    by apply Hkeyed in Hin as [_ ?]. }
  unfold mergeSameLocationSamples. rewrite He'. simpl.
  apply mergeProfiles_Err in He' as (from & to & ->). eauto.
Qed.

End MergeProfiles.

(** C4, the claim as stated fails.  On a slice of three blocks
    [sort.Sort] is an insertion sort, which leaves blocks of equal start
    in their order; the block that starts where the two identical lines
    start and ends elsewhere stays between them, and the loop, which
    compares neighbours only, merges nothing: the location of the two
    identical lines is left twice. *)
Lemma identical_lines_not_merged :
  @ParseProfiles insertion_sort
    (mkReader ["mode: count"; "f.go:1.1,2.2 1 1"; "f.go:1.1,3.3 1 1"; "f.go:1.1,2.2 1 1"]%string
              None) noIgnore
  = Ok [mkProfile "f.go" "count"
          [mkBlock 1 1 2 2 1 1; mkBlock 1 1 3 3 1 1; mkBlock 1 1 2 2 1 1]].
Proof. vm_compute. reflexivity. Qed.

(** C4, amended.  For every profile, [mergeSameLocationSamples] sorts
    the blocks by (start line, start column) and then runs the merge of
    neighbours ([mergeRun]): a neighbour at the location of the block
    before it is folded into it, with the counts combined by bitwise OR
    in mode [set] and by (wrapping) addition in every other mode, unless
    the statement counts differ, which is the error that fails the whole
    parse.  When the blocks that start at one position all cover one
    span, no two blocks of the result are at one location, every location
    of the input is one of the result, and the count of a block of the
    result combines the counts of all the blocks of the input at its
    location; in particular two identical block lines, alone in their
    file, yield one block. *)
Theorem mergeSameLocationSamples_merges (S : SortAlgorithm) (HS : SortLawful S)
    (mode : string) (p : Profile) :
  let sorted := sort_Sort blocksByStart_Less (Blocks p) in
  (Permutation sorted (Blocks p) /\ StronglySorted startLe sorted)
  /\ mergeProfile mode p =
     match sorted with
     | [] => Panic PanicSliceBounds
     | last :: rest => merged ← mergeRun mode last rest; Ok (setBlocks p merged)
     end
  /\ (forall a b, mergeCount "set" a b = Z.lor a b)
  /\ (forall a b, mode <> "set"%string -> mergeCount mode a b = wrap64 (a + b))
  /\ (adjacentMismatch sorted ->
      exists from to, mergeProfile mode p = Err (ErrInconsistentNumStmt from to))
  /\ (forall input ignore files e,
        scanLines EmptyString ∅ (scanned input) ignore = Ok (mode, files) ->
        scanErr input = None ->
        files !! FileName p = Some p ->
        mergeProfile mode p = Err e ->
        exists from to, ParseProfiles input ignore = Err (ErrInconsistentNumStmt from to))
  /\ (startDeterminesSpan (Blocks p) ->
      forall p', mergeProfile mode p = Ok p' ->
        StronglySorted startLt (Blocks p')
        /\ (forall b, b ∈ Blocks p ->
              exists b', b' ∈ Blocks p' /\ locationOf b' = locationOf b)
        /\ (forall b', b' ∈ Blocks p' ->
              Count b' = combineCounts mode
                           (Count <$> filter (fun b => sameLocation b b') sorted)))
  /\ (forall b, Blocks p = [b; b] ->
        mergeProfile mode p
        = Ok (setBlocks p [setCount b (mergeCount mode (Count b) (Count b))])).
Proof.
  intros sorted.
  pose proof (sort_perm S HS _ blocksByStart_Less (Blocks p)) as Hperm.
  pose proof (sort_sorted S HS _ blocksByStart_Less (Blocks p) blocksByStart_Less_swo) as Hs.
  apply sorted_blocks_startLe in Hs. fold sorted in Hperm, Hs.
  pose proof (mergeProfile_mergeRun mode p) as Hrun. fold sorted in Hrun.
  split; [done|]. split; [done|]. split; [done|]. split.
  { intros a b Hmode%String.eqb_neq. unfold mergeCount. by rewrite Hmode. }
  split.
  { intros Hmis. rewrite Hrun. destruct sorted as [|last rest].
    - destruct Hmis as ([|? ?] & ? & ? & ? & ? & _); discriminate.
    - destruct (mergeRun_mismatch mode rest last Hmis) as (from & to & ->). simpl. eauto. }
  split.
  { intros input ignore files e. by apply ParseProfiles_fails. }
  split.
  - intros Hd p'. rewrite Hrun. clear Hrun.
    assert (startDeterminesSpan sorted) as Hd'.
    { intros a b Ha Hb. apply Hd; by rewrite <- Hperm. }
    destruct sorted as [|last rest]; [done|].
    destruct (mergeRun mode last rest) as [merged| |] eqn:Hm; simpl; try done.
    intros [= <-]. simpl. split; [by eapply mergeRun_strict|]. split.
    + intros b Hb. rewrite <- Hperm in Hb. by eapply mergeRun_covers.
    + by eapply mergeRun_counts.
  - intros b Hb. rewrite Hrun. rewrite Hb in Hperm.
    assert (sorted = [b; b]) as ->.
    { destruct sorted as [|x [|y [|z l]]];
        try (apply Permutation_length in Hperm; simpl in Hperm; lia).
      assert (x ∈ [b; b]) as Hx by (rewrite <- Hperm; left).
      assert (y ∈ [b; b]) as Hy by (rewrite <- Hperm; right; left).
      assert (forall z, z ∈ [b; b] -> z = b) as Hbb.
      { intros z [->|[->|Hz%elem_of_nil]%elem_of_cons]%elem_of_cons; done. }
      by rewrite (Hbb x Hx), (Hbb y Hy). }
    simpl. assert (sameLocation b b = true) as -> by (by apply sameLocation_spec).
    by rewrite Z.eqb_refl.
Qed.

Lemma mergeSameLocationSamples_merges_witness :
  let p := mkProfile "f.go" "count"
             [mkBlock 1 1 2 2 1 1; mkBlock 3 1 4 2 1 5; mkBlock 1 1 2 2 1 2] in
  let q := mkProfile "g.go" "set" [mkBlock 1 1 2 2 1 1; mkBlock 1 1 2 2 2 1] in
  let r := mkProfile "h.go" "set" [mkBlock 1 1 2 2 1 0; mkBlock 1 1 2 2 1 0] in
  (@mergeProfile insertion_sort "count" p
     = Ok (mkProfile "f.go" "count" [mkBlock 1 1 2 2 1 3; mkBlock 3 1 4 2 1 5])
   /\ StronglySorted startLt [mkBlock 1 1 2 2 1 3; mkBlock 3 1 4 2 1 5])
  /\ (exists from to,
        @mergeProfile insertion_sort "set" q = Err (ErrInconsistentNumStmt from to))
  /\ @mergeProfile insertion_sort "set" r
     = Ok (mkProfile "h.go" "set" [mkBlock 1 1 2 2 1 0])
  /\ mergeCount "atomic" 2 3 = wrap64 (2 + 3).
Proof.
  intros p q r.
  pose proof (mergeSameLocationSamples_merges insertion_sort insertionSort_lawful "count" p)
    as (_ & _ & _ & _ & _ & _ & Hp & _).
  pose proof (mergeSameLocationSamples_merges insertion_sort insertionSort_lawful "set" q)
    as (_ & _ & _ & _ & Hq & _).
  pose proof (mergeSameLocationSamples_merges insertion_sort insertionSort_lawful "set" r)
    as (_ & _ & _ & _ & _ & _ & _ & Hr).
  pose proof (mergeSameLocationSamples_merges insertion_sort insertionSort_lawful "atomic" r)
    as (_ & _ & _ & Hadd & _).
  split; [|split; [|split]].
  - assert (@mergeProfile insertion_sort "count" p
            = Ok (mkProfile "f.go" "count" [mkBlock 1 1 2 2 1 3; mkBlock 3 1 4 2 1 5])) as Heq
      by (vm_compute; reflexivity).
    split; [exact Heq|].
    refine (proj1 (Hp _ _ Heq)).
    intros a b Ha Hb. unfold p in Ha, Hb. simpl in Ha, Hb.
    repeat (apply elem_of_cons in Ha as [->|Ha]); [| | |by apply elem_of_nil in Ha];
      repeat (apply elem_of_cons in Hb as [->|Hb]); try (by apply elem_of_nil in Hb);
      vm_compute; congruence.
  - apply Hq. exists [], (mkBlock 1 1 2 2 1 1), (mkBlock 1 1 2 2 2 1), [].
    split; [vm_compute; reflexivity|]. split; [reflexivity|]. simpl. lia.
  - apply (Hr (mkBlock 1 1 2 2 1 0)). reflexivity.
  - apply Hadd. discriminate.
Defined.

(** ** The declaration resolver *)

Lemma pastEnd_spec (b : ProfileBlock) (endLine endCol : Z) :
  pastEnd b endLine endCol = true <-> posLe endLine endCol (StartLine b) (StartCol b).
Proof. unfold pastEnd, posLe. zbool. lia. Qed.

Lemma beforeStart_spec (b : ProfileBlock) (startLine startCol : Z) :
  beforeStart b startLine startCol = true <-> posLe (EndLine b) (EndCol b) startLine startCol.
Proof. unfold beforeStart, posLe. zbool. lia. Qed.

Lemma methodLoop_selectBlocks (mode : string) (sl sc el ec : Z) (blocks : list ProfileBlock) :
  forall lines,
    methodLoop mode sl sc el ec blocks lines
    = fold_left (fun ls b => addBlockLines mode b ls) (selectBlocks sl sc el ec blocks) lines.
Proof.
  induction blocks as [|b blocks IH]; intros lines; simpl; [done|].
  destruct (pastEnd b el ec); [done|]. destruct (beforeStart b sl sc); simpl; apply IH.
Qed.

Lemma selectBlocks_sound (sl sc el ec : Z) (blocks : list ProfileBlock) (b : ProfileBlock) :
  b ∈ selectBlocks sl sc el ec blocks ->
  b ∈ blocks /\ pastEnd b el ec = false /\ beforeStart b sl sc = false.
Proof.
  induction blocks as [|x blocks IH]; simpl; [by intros ?%elem_of_nil|].
  destruct (pastEnd x el ec) eqn:Hp; [by intros ?%elem_of_nil|].
  destruct (beforeStart x sl sc) eqn:Hb.
  - intros (? & ? & ?)%IH. split; [by right|done].
  - intros [->|(? & ? & ?)%IH]%elem_of_cons; (split; [|done]); [left|by right].
Qed.

Lemma selectBlocks_stop (sl sc el ec : Z) (pre post : list ProfileBlock) (b : ProfileBlock) :
  pastEnd b el ec = true ->
  selectBlocks sl sc el ec (pre ++ b :: post) = selectBlocks sl sc el ec pre.
Proof.
  intros Hb. induction pre as [|x pre IH]; simpl; [by rewrite Hb|].
  destruct (pastEnd x el ec); [done|]. destruct (beforeStart x sl sc); by rewrite IH.
Qed.

Lemma selectBlocks_complete (sl sc el ec : Z) (pre post : list ProfileBlock)
    (b : ProfileBlock) :
  Forall (fun x => pastEnd x el ec = false) pre ->
  pastEnd b el ec = false -> beforeStart b sl sc = false ->
  b ∈ selectBlocks sl sc el ec (pre ++ b :: post).
Proof.
  intros Hpre Hp Hb. induction Hpre as [|x pre Hx Hpre IH]; simpl.
  - rewrite Hp, Hb. left.
  - rewrite Hx. destruct (beforeStart x sl sc); [done|by right].
Qed.

(** C3. The blocks whose lines [method] records are selected by
    comparing positions in (line, column) order, the bounds excluded: a
    block that starts at or after the end of the declaration stops the
    scan, so that neither it nor any block behind it is selected; a block
    that ends at or before the start of the declaration is passed over;
    every other block met before the scan stops is selected. *)
Theorem method_selects_overlapping (v : fileVisitor) (n : FuncDecl) :
  let sl := PosLine (Decl_Pos n) in
  let sc := PosColumn (Decl_Pos n) in
  let el := PosLine (Decl_End n) in
  let ec := PosColumn (Decl_End n) in
  let blocks := Blocks (profile v) in
  let selected := selectBlocks sl sc el ec blocks in
  Method_Lines (method v n)
    = fold_left (fun ls b => addBlockLines (Mode (profile v)) b ls) selected []
  /\ (forall b, pastEnd b el ec = true <-> posLe el ec (StartLine b) (StartCol b))
  /\ (forall b, beforeStart b sl sc = true <-> posLe (EndLine b) (EndCol b) sl sc)
  /\ (forall b, b ∈ selected ->
        b ∈ blocks
        /\ posLt (StartLine b) (StartCol b) el ec
        /\ posLt sl sc (EndLine b) (EndCol b))
  /\ (forall b, (EndLine b, EndCol b) = (sl, sc) -> b ∉ selected)
  /\ (forall b, (StartLine b, StartCol b) = (el, ec) -> b ∉ selected)
  /\ (forall pre b post,
        blocks = pre ++ b :: post ->
        posLe el ec (StartLine b) (StartCol b) ->
        selected = selectBlocks sl sc el ec pre)
  /\ (forall pre b post,
        blocks = pre ++ b :: post ->
        Forall (fun x => posLt (StartLine x) (StartCol x) el ec) (pre ++ [b]) ->
        posLt sl sc (EndLine b) (EndCol b) ->
        b ∈ selected).
Proof.
  intros sl sc el ec blocks selected.
  assert (Hnp : forall b, pastEnd b el ec = false <-> posLt (StartLine b) (StartCol b) el ec).
  { intros b. unfold pastEnd, posLt. zbool. lia. }
  assert (Hnb : forall b, beforeStart b sl sc = false <-> posLt sl sc (EndLine b) (EndCol b)).
  { intros b. unfold beforeStart, posLt. zbool. lia. }
  split; [apply methodLoop_selectBlocks|].
  split; [intros b; apply pastEnd_spec|].
  split; [intros b; apply beforeStart_spec|].
  split.
  { intros b (Hin & Hp & Hb)%selectBlocks_sound. by rewrite <- Hnp, <- Hnb. }
  split.
  { intros b [= Hl Hc] (_ & _ & Hb%Hnb)%selectBlocks_sound. unfold posLt in Hb. lia. }
  split.
  { intros b [= Hl Hc] (_ & Hp%Hnp & _)%selectBlocks_sound. unfold posLt in Hp. lia. }
  split.
  { intros pre b post Hblocks Hp%pastEnd_spec. unfold selected. rewrite Hblocks.
    by apply selectBlocks_stop. }
  intros pre b post Hblocks Hpre Hb. unfold selected. rewrite Hblocks.
  apply Forall_app in Hpre as [Hpre Hlast]. apply Forall_cons in Hlast as [Hlast _].
  apply selectBlocks_complete.
  - eapply Forall_impl; [exact Hpre|]. intros x. apply Hnp.
  - by apply Hnp.
  - by apply Hnb.
Qed.

Lemma method_selects_overlapping_witness :
  let blocks := [mkBlock 1 1 5 10 1 1; mkBlock 5 10 6 2 1 1; mkBlock 8 2 9 1 1 1;
                 mkBlock 9 1 10 1 1 1] in
  (mkBlock 1 1 5 10 1 1 ∉ selectBlocks 5 10 8 2 blocks)
  /\ (mkBlock 8 2 9 1 1 1 ∉ selectBlocks 5 10 8 2 blocks)
  /\ selectBlocks 5 10 8 2 blocks = [mkBlock 5 10 6 2 1 1]
  /\ mkBlock 5 10 6 2 1 1 ∈ selectBlocks 5 10 8 2 blocks.
Proof.
  intros blocks.
  destruct (method_selects_overlapping
              (mkVisitor "f.go" EmptyString (mkPackage "p" (mkRate 0 0) []) ∅
                 (mkProfile "f.go" "set" blocks))
              (mkFuncDecl "F" None (mkPosition 40 5 10) (mkPosition 90 8 2)))
    as (_ & _ & _ & _ & Hstart & Hend & Hstop & Hsel).
  simpl in Hstart, Hend, Hstop, Hsel.
  split; [by apply Hstart|]. split; [by apply Hend|]. split.
  - rewrite (Hstop [mkBlock 1 1 5 10 1 1; mkBlock 5 10 6 2 1 1] (mkBlock 8 2 9 1 1 1)
               [mkBlock 9 1 10 1 1 1] eq_refl); [reflexivity|].
    right. simpl. lia.
  - apply (Hsel [mkBlock 1 1 5 10 1 1] (mkBlock 5 10 6 2 1 1)
             [mkBlock 8 2 9 1 1 1; mkBlock 9 1 10 1 1 1] eq_refl).
    + repeat constructor; unfold posLt; simpl; lia.
    + unfold posLt; simpl; lia.
Defined.

(** ** The lines of a method *)













(** ** One block over one declaration *)

(** C2, the claim as stated fails.  The block [file.go:5.1,9.2 3 1],
    alone in mode [set], overlaps a declaration that spans lines 5 to 8;
    the method gets a line for each line of the block, 5 to 9, each with
    the count of the block: five lines, all hit. *)
Lemma single_block_five_lines :
  let v := mkVisitor "file.go" EmptyString (mkPackage "p" (mkRate 0 0) []) ∅
             (mkProfile "file.go" "set" [mkBlock 5 1 9 2 3 1]) in
  let n := mkFuncDecl "Func1" None (mkPosition 40 5 1) (mkPosition 90 8 2) in
  @ParseProfiles insertion_sort (mkReader ["mode: set"; "file.go:5.1,9.2 3 1"]%string None)
    noIgnore = Ok [profile v]
  /\ Method_Lines (method v n)
     = [mkLine 5 1; mkLine 6 1; mkLine 7 1; mkLine 8 1; mkLine 9 1]
  /\ Method_Lines (method v n) <> [mkLine 5 1; mkLine 6 0; mkLine 7 0; mkLine 8 0].
Proof. intros v n. split; [|split]; vm_compute; [reflexivity|reflexivity|discriminate]. Qed.

(** C2, amended.  Given mode [set] and the single block
    [file.go:5.1,9.2 3 1], a declaration that spans lines 5 to 8 (at any
    columns) gets a method of exactly five lines, numbered 5 to 9, each
    with hit count 1. *)
Theorem single_block_method_lines (v : fileVisitor) (n : FuncDecl) :
  Mode (profile v) = "set"%string ->
  Blocks (profile v) = [mkBlock 5 1 9 2 3 1] ->
  PosLine (Decl_Pos n) = 5 ->
  PosLine (Decl_End n) = 8 ->
  Method_Lines (method v n)
  = [mkLine 5 1; mkLine 6 1; mkLine 7 1; mkLine 8 1; mkLine 9 1].
Proof.
  intros Hmode Hblocks Hstart Hend. unfold method. simpl.
  rewrite Hmode, Hblocks, Hstart, Hend. reflexivity.
Qed.

Lemma single_block_method_lines_witness :
  Method_Lines
    (method
       (mkVisitor "file.go" EmptyString (mkPackage "p" (mkRate 0 0) []) ∅
          (mkProfile "file.go" "set" [mkBlock 5 1 9 2 3 1]))
       (mkFuncDecl "Func1" None (mkPosition 40 5 1) (mkPosition 90 8 2)))
  = [mkLine 5 1; mkLine 6 1; mkLine 7 1; mkLine 8 1; mkLine 9 1].
Proof. apply single_block_method_lines; reflexivity. Defined.

(** ** Packages without module *)

Section Aggregator.
Context {S : SortAlgorithm}.
Variable env : Env.
Variable byFiles : bool.

Lemma ParseProfile_noModule (cov : Coverage) (profile : Profile)
    (pkgPkg : option GoPackage) (ignore : Ignore) :
  noModule pkgPkg ->
  ParseProfile env byFiles cov profile pkgPkg ignore = (cov, Err ErrPackageRequired).
Proof.
  unfold noModule, ParseProfile. destruct pkgPkg as [p|]; [|done]. by intros ->.
Qed.

Lemma parseProfilesLoop_app (before rest : list Profile) (pkgMap : gmap string GoPackage)
    (ignore : Ignore) :
  forall cov,
    parseProfilesLoop env byFiles cov (before ++ rest) pkgMap ignore
    = match parseProfilesLoop env byFiles cov before pkgMap ignore with
      | (cov', Ok _) => parseProfilesLoop env byFiles cov' rest pkgMap ignore
      | r => r
      end.
Proof.
  induction before as [|p before IH]; intros cov; simpl; [done|].
  destruct (ParseProfile env byFiles cov p _ ignore) as [cov' [[]| |]]; [apply IH|done|done].
Qed.

Lemma Convert_stages (input : Reader) (out : Writer) (ignore : Ignore)
    (buildTags : list string) :
  Convert env byFiles input out ignore buildTags
  = match coverageOf env byFiles input ignore buildTags with
    | Ok coverage =>
        let '(out, _) := Fprint out xml_Header in
        let '(out, _) := Fprint out (DTDDecl +:+ newline) in
        match encodeChunks out (reportChunks env coverage) with
        | (out, Some err) => (out, Err (ErrEncode err))
        | (out, None) => let '(out, _) := Fprint out newline in (out, Ok ())
        end
    | Err e => (out, Err e)
    | Panic p => (out, Panic p)
    end.
Proof.
  unfold Convert, coverageOf, reportChunks.
  destruct (ParseProfiles input ignore) as [profiles| |]; simpl; try done.
  destruct (getPackages env profiles buildTags) as [err|pkgs]; [done|].
  destruct (collectPackages pkgs [] ∅) as [sources pkgMap].
  destruct (parseProfiles _ _ _ _ _ _) as [coverage [[]| |]]; done.
Qed.

End Aggregator.

(** C8. [ParseProfile] called without package, or with a package that
    has no module, fails with "package required when using go modules",
    whatever the file system holds, and leaves the report as it was;
    [parseProfiles] stops there with the report as the profiles before
    left it, and [Convert] returns the error without a write. *)
Theorem ParseProfile_requires_module (S : SortAlgorithm) (env : Env) (byFiles : bool)
    (ignore : Ignore) (profile : Profile) :
  (forall cov pkgPkg,
      noModule pkgPkg ->
      ParseProfile env byFiles cov profile pkgPkg ignore = (cov, Err ErrPackageRequired))
  /\ (forall cov cov' before rest pkgMap,
        noModule (pkgMap !! getPackageName (FileName profile)) ->
        parseProfilesLoop env byFiles cov before pkgMap ignore = (cov', Ok ()) ->
        parseProfilesLoop env byFiles cov (before ++ profile :: rest) pkgMap ignore
        = (cov', Err ErrPackageRequired))
  /\ (forall cov cov' before rest pkgMap,
        noModule (pkgMap !! getPackageName (FileName profile)) ->
        parseProfilesLoop env byFiles (setPackages cov []) before pkgMap ignore
          = (cov', Ok ()) ->
        parseProfiles env byFiles cov (before ++ profile :: rest) pkgMap ignore
        = (cov', Err ErrPackageRequired))
  /\ (forall input out buildTags,
        coverageOf env byFiles input ignore buildTags = Err ErrPackageRequired ->
        Convert env byFiles input out ignore buildTags = (out, Err ErrPackageRequired)).
Proof.
  split; [intros cov pkgPkg; apply ParseProfile_noModule|].
  assert (Hloop : forall cov cov' before rest pkgMap,
            noModule (pkgMap !! getPackageName (FileName profile)) ->
            parseProfilesLoop env byFiles cov before pkgMap ignore = (cov', Ok ()) ->
            parseProfilesLoop env byFiles cov (before ++ profile :: rest) pkgMap ignore
            = (cov', Err ErrPackageRequired)).
  { intros cov cov' before rest pkgMap Hno Hbefore.
    rewrite parseProfilesLoop_app, Hbefore. simpl.
    by rewrite ParseProfile_noModule. }
  split; [exact Hloop|]. split.
  - intros cov cov' before rest pkgMap Hno Hbefore. unfold parseProfiles.
    by rewrite (Hloop _ _ _ rest _ Hno Hbefore).
  - intros input out buildTags Hcov. by rewrite Convert_stages, Hcov.
Qed.

Lemma ParseProfile_requires_module_witness :
  ParseProfile sampleEnv false emptyCoverage (mkProfile "fmt/a.go" "set" [])
    (Some (mkGoPackage "fmt" ["/go/src/fmt/a.go"]%string None)) noIgnore
    = (emptyCoverage, Err ErrPackageRequired)
  /\ parseProfiles sampleEnv false emptyCoverage
       ([] ++ mkProfile "fmt/a.go" "set" [] :: [mkProfile "fmt/b.go" "set" []]) ∅ noIgnore
     = (emptyCoverage, Err ErrPackageRequired)
  /\ @Convert insertion_sort bareEnv false
       (mkReader ["mode: set"; "fmt/a.go:5.1,9.2 3 1"]%string None) openWriter noIgnore []
     = (openWriter, Err ErrPackageRequired).
Proof.
  destruct (ParseProfile_requires_module insertion_sort sampleEnv false noIgnore
              (mkProfile "fmt/a.go" "set" [])) as (Hone & _ & Hall & _).
  destruct (ParseProfile_requires_module insertion_sort bareEnv false noIgnore
              (mkProfile "fmt/a.go" "set" [])) as (_ & _ & _ & Hconvert).
  split; [|split].
  - apply Hone. reflexivity.
  - apply Hall; reflexivity.
  - apply Hconvert. vm_compute. reflexivity.
Defined.

(** ** The emitter *)

Lemma Fprint_attempted (w : Writer) (data : string) :
  attempted (Fprint w data).1 = attempted w ++ [data]
  /\ failure (Fprint w data).1 = failure w.
Proof. unfold Fprint. by destruct (failure w (attempted w) data). Qed.

Lemma Fprint_delivered (w : Writer) (data : string) :
  failure w (attempted w) data = None ->
  Fprint w data = (mkWriter (failure w) (attempted w ++ [data]) (delivered w ++ [data]), None).
Proof. unfold Fprint. by intros ->. Qed.

Lemma Fprint_failed (w : Writer) (data err : string) :
  failure w (attempted w) data = Some err ->
  Fprint w data = (mkWriter (failure w) (attempted w ++ [data]) (delivered w), Some err).
Proof. unfold Fprint. by intros ->. Qed.

(** The writes of the encoder that have all gone through. *)
Lemma encodeChunks_None (chunks : list string) :
  forall out out',
    encodeChunks out chunks = (out', None) ->
    attempted out' = attempted out ++ chunks
    /\ delivered out' = delivered out ++ chunks
    /\ failure out' = failure out.
Proof.
  induction chunks as [|chunk chunks IH]; intros out out'; simpl.
  - intros [= <-]. by rewrite !app_nil_r.
  - unfold Fprint. destruct (failure out (attempted out) chunk) eqn:Hf; [done|].
    intros (Ha & Hd & Hfail)%IH. simpl in *.
    rewrite Ha, Hd, Hfail, <- !app_assoc. done.
Qed.

(** The first write of the encoder that fails is the error of [Encode]. *)
Lemma encodeChunks_fails (pre post : list string) (chunk err : string) :
  forall out,
    (forall k, (k < length pre)%nat ->
               failure out (attempted out ++ take k pre) (pre !!! k) = None) ->
    failure out (attempted out ++ pre) chunk = Some err ->
    (encodeChunks out (pre ++ chunk :: post)).2 = Some err.
Proof.
  induction pre as [|c pre IH]; intros out Hpre Hchunk; simpl.
  - rewrite app_nil_r in Hchunk. by rewrite (Fprint_failed _ _ _ Hchunk).
  - assert (failure out (attempted out) c = None) as Hc.
    { specialize (Hpre 0%nat ltac:(simpl; lia)). simpl in Hpre.
      by rewrite app_nil_r in Hpre. }
    rewrite (Fprint_delivered _ _ Hc). apply IH; simpl.
    + intros k Hk. specialize (Hpre (Datatypes.S k) ltac:(simpl; lia)). simpl in Hpre.
      by rewrite <- app_assoc.
    + by rewrite <- app_assoc.
Qed.

Lemma encodeChunks_all_fail (chunks : list string) (err : string) (out : Writer) :
  (forall a d, failure out a d = Some err) -> chunks <> [] ->
  (encodeChunks out chunks).2 = Some err.
Proof.
  intros Hfail Hne. destruct chunks as [|c chunks]; [done|]. simpl.
  by rewrite (Fprint_failed _ _ _ (Hfail _ _)).
Qed.

Lemma encodeChunks_all_succeed (chunks : list string) :
  forall out, (forall a d, failure out a d = None) ->
    encodeChunks out chunks
    = (mkWriter (failure out) (attempted out ++ chunks) (delivered out ++ chunks), None).
Proof.
  induction chunks as [|c chunks IH]; intros out Hok; simpl.
  - rewrite !app_nil_r. by destruct out.
  - rewrite (Fprint_delivered _ _ (Hok _ _)), IH by done. simpl.
    by rewrite <- !app_assoc.
Qed.

(** C9, the claim as stated fails.  The destination refuses the first
    write, that of the XML header; [Convert] drops the error, writes the
    rest and reports success: the report has no header, and the failure
    is returned to no one. *)
Lemma Convert_drops_header_failure :
  @Convert insertion_sort sampleEnv false (mkReader ["mode: set"]%string None)
    firstWriteFails noIgnore []
  = (mkWriter (failure firstWriteFails)
       [xml_Header; DTDDecl +:+ newline; "<coverage>"; "</coverage>"; newline]%string
       [DTDDecl +:+ newline; "<coverage>"; "</coverage>"; newline]%string,
     Ok ()).
Proof. vm_compute. reflexivity. Qed.

(** C9, amended.  A conversion that succeeds has attempted, in this
    order, the write of the XML header, of the DOCTYPE line, of the
    pieces of the report serialized with two spaces of indentation, and
    of a final line feed, and every piece of the report has been
    delivered; on a destination that never fails the text delivered is
    exactly that.  A failure to write a piece of the report is returned
    as the error of the conversion (so is every failure of a destination
    on which all writes fail); a failure to write the header, the DOCTYPE
    line or the final line feed is discarded. *)
Theorem Convert_emits (S : SortAlgorithm) (env : Env) (byFiles : bool) (input : Reader)
    (out : Writer) (ignore : Ignore) (buildTags : list string) :
  let result := Convert env byFiles input out ignore buildTags in
  (result.2 = Ok () ->
   exists coverage,
     coverageOf env byFiles input ignore buildTags = Ok coverage
     /\ attempted result.1
        = attempted out
          ++ [xml_Header; DTDDecl +:+ newline]
          ++ xml_Encode env EmptyString "  " coverage ++ [newline]
     /\ exists header trailer,
          delivered result.1
          = delivered out ++ header ++ xml_Encode env EmptyString "  " coverage ++ trailer
          /\ sublist header [xml_Header; DTDDecl +:+ newline]
          /\ sublist trailer [newline])
  /\ (forall coverage,
        coverageOf env byFiles input ignore buildTags = Ok coverage ->
        (forall a d, failure out a d = None) ->
        result.2 = Ok ()
        /\ delivered result.1
           = delivered out
             ++ [xml_Header; DTDDecl +:+ newline]
             ++ xml_Encode env EmptyString "  " coverage ++ [newline])
  /\ (forall coverage pre chunk post err,
        coverageOf env byFiles input ignore buildTags = Ok coverage ->
        xml_Encode env EmptyString "  " coverage = pre ++ chunk :: post ->
        (forall k, (k < length pre)%nat ->
           failure out (attempted out ++ [xml_Header; DTDDecl +:+ newline] ++ take k pre)
                   (pre !!! k) = None) ->
        failure out (attempted out ++ [xml_Header; DTDDecl +:+ newline] ++ pre) chunk
          = Some err ->
        result.2 = Err (ErrEncode err))
  /\ (forall coverage err,
        coverageOf env byFiles input ignore buildTags = Ok coverage ->
        xml_Encode env EmptyString "  " coverage <> [] ->
        (forall a d, failure out a d = Some err) ->
        result.2 = Err (ErrEncode err)).
Proof.
  intros result. unfold result. rewrite Convert_stages. unfold reportChunks.
  destruct (coverageOf env byFiles input ignore buildTags) as [coverage|e|p].
  2:{ repeat split; intros; done. }
  2:{ repeat split; intros; done. }
  set (chunks := xml_Encode env EmptyString "  " coverage).
  destruct (Fprint out xml_Header) as [o1 e1] eqn:H1.
  destruct (Fprint o1 (DTDDecl +:+ newline)) as [o2 e2] eqn:H2.
  pose proof (Fprint_attempted out xml_Header) as [Ha1 Hf1]. rewrite H1 in Ha1, Hf1.
  pose proof (Fprint_attempted o1 (DTDDecl +:+ newline)) as [Ha2 Hf2]. rewrite H2 in Ha2, Hf2.
  simpl in Ha1, Hf1, Ha2, Hf2.
  assert (Hd12 : exists header, delivered o2 = delivered out ++ header
                                /\ sublist header [xml_Header; DTDDecl +:+ newline]).
  { unfold Fprint in H1, H2.
    destruct (failure out (attempted out) xml_Header);
      destruct (failure o1 (attempted o1) (DTDDecl +:+ newline));
      injection H1 as <- <-; injection H2 as <- <-; simpl.
    - exists []. split; [by rewrite app_nil_r|]. apply sublist_nil_l.
    - exists [DTDDecl +:+ newline]. split; [done|]. by apply sublist_cons, sublist_skip.
    - exists [xml_Header]. split; [done|]. apply sublist_skip, sublist_nil_l.
    - exists [xml_Header; DTDDecl +:+ newline]. split; [by rewrite <- app_assoc|done]. }
  split; [|split; [|split]].
  - destruct (encodeChunks o2 chunks) as [o3 [err|]] eqn:H3; [done|]. intros _.
    exists coverage. split; [done|].
    apply encodeChunks_None in H3 as (Ha3 & Hd3 & Hf3).
    pose proof (Fprint_attempted o3 newline) as [Ha4 _].
    destruct (Fprint o3 newline) as [o4 e4] eqn:H4. simpl in *.
    split. { rewrite Ha4, Ha3, Ha2, Ha1, <- !app_assoc. done. }
    destruct Hd12 as (header & Hd2 & Hsub).
    unfold Fprint in H4. destruct (failure o3 (attempted o3) newline); injection H4 as <- <-;
      simpl; rewrite Hd3, Hd2.
    + exists header, []. rewrite app_nil_r, <- app_assoc. split; [done|].
      split; [done|apply sublist_nil_l].
    + exists header, [newline]. rewrite <- !app_assoc. done.
  - intros c [= <-] Hok.
    pose proof (Fprint_delivered out xml_Header (Hok _ _)) as Hw1.
    pose proof (Fprint_delivered o1 (DTDDecl +:+ newline)) as Hw2.
    rewrite Hf1 in Hw2. specialize (Hw2 (Hok _ _)).
    rewrite H1 in Hw1. rewrite H2 in Hw2. injection Hw1 as -> _. injection Hw2 as -> _.
    rewrite encodeChunks_all_succeed by done. simpl.
    unfold Fprint. simpl. rewrite Hok. simpl.
    split; [done|]. by rewrite <- !app_assoc.
  - intros c pre chunk post err [= <-] Hchunks Hpre Hfail.
    pose proof (encodeChunks_fails pre post chunk err o2) as Henc.
    rewrite Hf2, Hf1, Ha2, Ha1 in Henc. rewrite <- !app_assoc in Henc. simpl in Henc.
    unfold chunks. rewrite Hchunks.
    destruct (encodeChunks o2 (pre ++ chunk :: post)) as [o3 r3]. simpl in Henc.
    rewrite Henc; [done| |done].
    intros k Hk. rewrite <- app_assoc. by apply Hpre.
  - intros c err [= <-] Hne Hfail.
    pose proof (encodeChunks_all_fail chunks err o2) as Henc.
    destruct (encodeChunks o2 chunks) as [o3 r3]. simpl in Henc.
    rewrite Henc; [done| |done]. intros a d. rewrite Hf2, Hf1. apply Hfail.
Qed.

Lemma Convert_emits_witness :
  (let result := @Convert insertion_sort sampleEnv false (mkReader ["mode: set"]%string None)
                   openWriter noIgnore [] in
   result.2 = Ok ()
   /\ delivered result.1
      = [xml_Header; DTDDecl +:+ newline; "<coverage>"; "</coverage>"; newline]%string)
  /\ (@Convert insertion_sort sampleEnv false (mkReader ["mode: set"]%string None)
        closedWriter noIgnore []).2
     = Err (ErrEncode "io: read/write on closed pipe").
Proof.
  split.
  - destruct (Convert_emits insertion_sort sampleEnv false (mkReader ["mode: set"]%string None)
                openWriter noIgnore []) as (_ & Hopen & _).
    apply (Hopen (mkCoverage [] [] 0 0 0 (mkRate 0 0))); [vm_compute; reflexivity|done].
  - destruct (Convert_emits insertion_sort sampleEnv false (mkReader ["mode: set"]%string None)
                closedWriter noIgnore []) as (_ & _ & _ & Hclosed).
    apply (Hclosed (mkCoverage [] [] 0 0 0 (mkRate 0 0)));
      [vm_compute; reflexivity|discriminate|done].
Defined.

(** ** One package, one entry *)


Lemma findPackage_spec (path : string) (packages : list Package) :
  forall index found,
    match findPackage packages path index found with
    | None => found = None /\ path ∉ Package_Name <$> packages
    | Some i =>
        found = Some i
        \/ exists p, packages !! (i - index)%nat = Some p /\ Package_Name p = path
                     /\ (index <= i)%nat
    end.
Proof.
  induction packages as [|p packages IH]; intros index found; simpl.
  - destruct found; [by left|]. split; [done|]. apply not_elem_of_nil.
  - specialize (IH (Datatypes.S index)
                   (if String.eqb (Package_Name p) path then Some index else found)).
    destruct (findPackage packages path _ _) as [i|].
    + destruct IH as [Hfound|(q & Hq & Hname & Hle)].
      * destruct (String.eqb (Package_Name p) path) eqn:Hp; [|by left].
        injection Hfound as <-. apply String.eqb_eq in Hp. right. exists p.
        by rewrite Nat.sub_diag.
      * right. exists q. replace (i - index)%nat with (Datatypes.S (i - Datatypes.S index))
          by lia. split; [done|]. split; [done|lia].
    + destruct IH as [Hfound Hnot]. destruct (String.eqb (Package_Name p) path) eqn:Hp; [done|].
      split; [done|]. csimpl. apply not_elem_of_cons. split; [|done].
      apply String.eqb_neq in Hp. congruence.
Qed.

Section Unique.
Context {S : SortAlgorithm}.
Variable env : Env.
Variable byFiles : bool.

Lemma class_name (v v' : fileVisitor) (n : FuncDecl) (idx : nat) :
  class byFiles v n = Ok (v', idx) -> Package_Name (pkg v') = Package_Name (pkg v).
Proof.
  unfold class.
  destruct (if byFiles then _ else _) as [className| |]; simpl; try done.
  destruct (classes v !! className); by intros [= <- _].
Qed.

Lemma Visit_name (v v' : fileVisitor) (n : FuncDecl) :
  Visit byFiles v n = Ok v' -> Package_Name (pkg v') = Package_Name (pkg v).
Proof.
  unfold Visit. destruct (class byFiles v n) as [[v1 idx]| |] eqn:Hc; simpl; try done.
  apply class_name in Hc. destruct (Package_Classes (pkg v1) !! idx); [|done].
  by intros [= <-].
Qed.

Lemma Walk_name (decls : list FuncDecl) :
  forall v v', Walk byFiles v decls = Ok v' -> Package_Name (pkg v') = Package_Name (pkg v).
Proof.
  induction decls as [|n decls IH]; intros v v'; simpl; [by intros [= <-]|].
  destruct (Visit byFiles v n) as [v1| |] eqn:Hv; simpl; try done.
  intros Hw%IH. rewrite Hw. by eapply Visit_name.
Qed.

(** Where the ID of the package is the path looked up, a profile adds
    no second entry of a name. *)
Lemma ParseProfile_unique (cov : Coverage) (profile : Profile)
    (pkgPkg : option GoPackage) (ignore : Ignore) :
  consistentPackage profile pkgPkg ->
  NoDup (Package_Name <$> Packages cov) ->
  NoDup (Package_Name <$> Packages (ParseProfile env byFiles cov profile pkgPkg ignore).1).
Proof.
  intros Hcons Hnd. unfold ParseProfile.
  destruct pkgPkg as [p|]; [|done]. destruct (Module p) as [module|] eqn:Hmod; [|done].
  destruct (GoStrings.sliceFrom _ _) as [fileName|] eqn:Hslice; [|done].
  specialize (Hcons p module fileName eq_refl Hmod Hslice).
  destruct (parser_ParseFile env _) as [err|parsed]; [done|].
  destruct (os_ReadFile env _) as [err|data]; [done|].
  destruct (Match ignore fileName (Some data)); [done|].
  pose proof (findPackage_spec (resolvedPkgPath module fileName) (Packages cov) 0 None)
    as Hfind.
  destruct (findPackage (Packages cov) _ 0 None) as [index|].
  - destruct Hfind as [|(q & Hq & Hname & _)]; [done|]. rewrite Nat.sub_0_r in Hq.
    rewrite Hq. destruct (Walk byFiles _ parsed) as [v| |] eqn:Hwalk; simpl; try done.
    apply Walk_name in Hwalk. simpl in Hwalk.
    rewrite list_fmap_insert. simpl. rewrite Hwalk.
    rewrite list_insert_id; [done|]. by rewrite list_lookup_fmap, Hq.
  - destruct Hfind as [_ Hnot].
    assert (NoDup (Package_Name <$> (Packages cov ++ [mkPackage (ID p) (mkRate 0 0) []])))
      as Hnd'.
    { rewrite fmap_app. apply NoDup_app. split; [done|]. split; [|apply NoDup_singleton].
      intros x Hx ->%list_elem_of_singleton. simpl in Hx. rewrite Hcons in Hx. done. }
    simpl. rewrite lookup_app_r by done. rewrite Nat.sub_diag. simpl.
    destruct (Walk byFiles _ parsed) as [v| |] eqn:Hwalk; simpl; try done.
    apply Walk_name in Hwalk. simpl in Hwalk.
    rewrite list_fmap_insert. simpl. rewrite Hwalk.
    rewrite list_insert_id; [done|].
    rewrite list_lookup_fmap, lookup_app_r by done. by rewrite Nat.sub_diag.
Qed.

Lemma parseProfilesLoop_unique (profiles : list Profile) (pkgMap : gmap string GoPackage)
    (ignore : Ignore) :
  forall cov,
    Forall (fun profile =>
              consistentPackage profile (pkgMap !! getPackageName (FileName profile)))
           profiles ->
    NoDup (Package_Name <$> Packages cov) ->
    NoDup (Package_Name <$>
             Packages (parseProfilesLoop env byFiles cov profiles pkgMap ignore).1).
Proof.
  induction profiles as [|profile profiles IH]; intros cov Hall Hnd; simpl; [done|].
  apply Forall_cons in Hall as [Hp Hall].
  pose proof (ParseProfile_unique cov profile _ ignore Hp Hnd) as Hone.
  destruct (ParseProfile env byFiles cov profile _ ignore) as [cov' [[]| |]]; simpl in *;
    [by apply IH|done|done].
Qed.

(** The intended invariant: no two entries of a name, for the runs in
    which every package is named as it is looked up. *)
Lemma parseProfiles_unique (cov : Coverage) (profiles : list Profile)
    (pkgMap : gmap string GoPackage) (ignore : Ignore) :
  Forall (fun profile =>
            consistentPackage profile (pkgMap !! getPackageName (FileName profile)))
         profiles ->
  NoDup (Package_Name <$> Packages (parseProfiles env byFiles cov profiles pkgMap ignore).1).
Proof.
  intros Hall. unfold parseProfiles.
  pose proof (parseProfilesLoop_unique profiles pkgMap ignore (setPackages cov []) Hall)
    as Hloop.
  simpl in Hloop. specialize (Hloop (NoDup_nil_2 (A:=string))).
  destruct (parseProfilesLoop env byFiles _ profiles pkgMap ignore) as [cov' [[]| |]];
    simpl in *; done.
Qed.
End Unique.

(** * Further properties *)

(** ** The early exit of [method] *)

Lemma pastEnd_later (a b : ProfileBlock) (el ec : Z) :
  startLe a b -> pastEnd a el ec = true -> pastEnd b el ec = true.
Proof.
  rewrite !pastEnd_spec. unfold startLe, posLe. lia.
Qed.

Lemma selectBlocks_filter (sl sc el ec : Z) (blocks : list ProfileBlock) :
  StronglySorted startLe blocks ->
  selectBlocks sl sc el ec blocks = filter (fun b => overlaps b sl sc el ec) blocks.
Proof.
  induction 1 as [|b blocks Hs IH Hall]; [reflexivity|]. simpl.
  destruct (pastEnd b el ec) eqn:Hp.
  - rewrite filter_cons_False by (apply Is_true_false; unfold overlaps; by rewrite Hp).
    symmetry. apply filter_none.
    intros x Hx. rewrite Forall_forall in Hall. apply Is_true_false. unfold overlaps.
    by rewrite (pastEnd_later b x el ec (Hall x Hx) Hp).
  - destruct (beforeStart b sl sc) eqn:Hb.
    + by rewrite filter_cons_False
        by (apply Is_true_false; unfold overlaps; by rewrite Hp, Hb).
    + rewrite filter_cons_True
        by (apply Is_true_true; unfold overlaps; by rewrite Hp, Hb).
      by rewrite IH.
Qed.

Lemma parsed_blocks_sorted (S : SortAlgorithm) (HS : SortLawful S)
    (input : Reader) (ignore : Ignore) (profiles : list Profile) (p : Profile) :
  ParseProfiles input ignore = Ok profiles -> p ∈ profiles ->
  StronglySorted startLe (Blocks p).
Proof.
  intros (mode & files & files' & Hscan & _ & Hmerge & ->)%ParseProfiles_Ok Hp.
  assert (Hk : keyed files) by (eapply scanLines_keyed; [apply keyed_empty|exact Hscan]).
  unfold generateSortedProfilesSlice in Hp.
  rewrite (sort_perm S HS _ byFileName_Less) in Hp.
  apply list_elem_of_fmap in Hp as ([k p'] & -> & Hin). simpl.
  apply elem_of_map_to_list in Hin.
  by apply (merged_files_keyed HS _ _ _ Hk Hmerge) in Hin as [_ ?].
Qed.

(** X1. "The blocks are sorted, so we can stop counting as soon as we
    reach the end": for a profile that [ParseProfiles] returned (whatever
    the sorting algorithm, as long as it sorts) the [break] of the loop
    of [method] loses nothing; the lines of the method are those of all
    the blocks of the profile that overlap the declaration, taken in
    their order. *)
Theorem method_of_parsed_profile (S : SortAlgorithm) (HS : SortLawful S)
    (input : Reader) (ignore : Ignore) (profiles : list Profile)
    (v : fileVisitor) (n : FuncDecl) :
  ParseProfiles input ignore = Ok profiles ->
  profile v ∈ profiles ->
  Method_Lines (method v n)
  = fold_left (fun ls b => addBlockLines (Mode (profile v)) b ls)
      (filter (fun b => overlaps b (PosLine (Decl_Pos n)) (PosColumn (Decl_Pos n))
                                   (PosLine (Decl_End n)) (PosColumn (Decl_End n)))
              (Blocks (profile v))) [].
Proof.
  intros Hparse Hin.
  unfold method. simpl. rewrite methodLoop_selectBlocks, selectBlocks_filter; [done|].
  by eapply parsed_blocks_sorted.
Qed.

Lemma method_of_parsed_profile_witness :
  let input := mkReader ["mode: count"; "f.go:9.1,10.2 1 4"; "f.go:5.1,6.2 1 2"]%string None in
  let p := mkProfile "f.go" "count" [mkBlock 5 1 6 2 1 2; mkBlock 9 1 10 2 1 4] in
  let v := mkVisitor "f.go" EmptyString (mkPackage "p" (mkRate 0 0) []) ∅ p in
  let n := mkFuncDecl "F" None (mkPosition 40 5 1) (mkPosition 90 8 2) in
  Method_Lines (method v n)
  = fold_left (fun ls b => addBlockLines "count" b ls)
      (filter (fun b => overlaps b 5 1 8 2) (Blocks p)) [].
Proof.
  intros input p v n.
  apply (method_of_parsed_profile insertion_sort insertionSort_lawful input noIgnore [p] v n).
  - vm_compute. reflexivity.
  - left.
Defined.

(** ** What the parser returns *)

Lemma modeLine_parts (mode : string) :
  mode <> EmptyString ->
  GoStrings.HasPrefix (modePrefix +:+ mode) modePrefix = true
  /\ String.eqb (modePrefix +:+ mode) modePrefix = false
  /\ GoStrings.sliceFrom (modePrefix +:+ mode) (String.length modePrefix) = Some mode.
Proof.
  intros Hmode. destruct mode as [|c mode]; [done|].
  split; [|split]; [reflexivity| |reflexivity].
  apply String.eqb_neq. intros [= Heq].
Qed.

Lemma parseLine_first (mode : string) (files : gmap string Profile) (ignore : Ignore) :
  mode <> EmptyString ->
  parseLine EmptyString (modePrefix +:+ mode) files ignore = Ok (mode, files).
Proof.
  intros (Hpre & Hne & Hslice)%modeLine_parts.
  rewrite parseLine_mode_line, Hpre, Hne, Hslice. done.
Qed.

Lemma parseLine_profiles (mode line : string) (files files' : gmap string Profile)
    (ignore : Ignore) (mode' : string) :
  mode <> EmptyString ->
  (forall k p, files !! k = Some p ->
     FileName p = k /\ Blocks p <> [] /\ Mode p = mode /\ Match ignore k None = false) ->
  parseLine mode line files ignore = Ok (mode', files') ->
  mode' = mode
  /\ forall k p, files' !! k = Some p ->
       FileName p = k /\ Blocks p <> [] /\ Mode p = mode /\ Match ignore k None = false.
Proof.
  intros Hmode%String.eqb_neq Hinv. unfold parseLine. rewrite Hmode.
  destruct (FindStringSubmatch line) as [m|]; [|by intros [= <- <-]].
  cbv zeta. destruct (Match ignore (nth 1 m EmptyString) None) eqn:Hign;
    [by intros [= <- <-]|].
  intros H.
  repeat match type of H with
  | context [toInt ?s] => destruct (toInt s); simpl in H; try done
  end.
  injection H as <- <-. split; [done|]. intros k p.
  destruct (decide (nth 1 m EmptyString = k)) as [<-|Hne].
  - rewrite lookup_insert_eq. intros [= <-]. simpl.
    destruct (files !! nth 1 m EmptyString) as [p0|] eqn:Hp0; simpl.
    + destruct (Hinv _ _ Hp0) as (? & ? & ? & ?). split; [done|].
      split; [by destruct (Blocks p0)|done].
    + done.
  - rewrite lookup_insert_ne by done. apply Hinv.
Qed.

Lemma scanLines_profiles (lines : list string) (ignore : Ignore) (mode : string) :
  forall files mode' files',
    mode <> EmptyString ->
    (forall k p, files !! k = Some p ->
       FileName p = k /\ Blocks p <> [] /\ Mode p = mode /\ Match ignore k None = false) ->
    scanLines mode files lines ignore = Ok (mode', files') ->
    mode' = mode
    /\ forall k p, files' !! k = Some p ->
         FileName p = k /\ Blocks p <> [] /\ Mode p = mode /\ Match ignore k None = false.
Proof.
  induction lines as [|line lines IH]; intros files mode' files' Hmode Hinv; simpl.
  - by intros [= <- <-].
  - destruct (parseLine mode line files ignore) as [[m1 f1]| |] eqn:Hline; simpl; try done.
    destruct (parseLine_profiles _ _ _ _ _ _ Hmode Hinv Hline) as [-> Hinv1].
    by apply IH.
Qed.

Lemma mergeRun_nonempty (mode : string) (rest : list ProfileBlock) :
  forall last merged, mergeRun mode last rest = Ok merged -> merged <> [].
Proof.
  induction rest as [|cur rest IH]; intros last merged; simpl; [by intros [= <-]|].
  destruct (sameLocation cur last); [destruct (negb _); [done|apply IH]|].
  destruct (mergeRun mode cur rest); simpl; [by intros [= <-]|done|done].
Qed.

Section Parsed.
Context {S : SortAlgorithm} (HS : SortLawful S).

Lemma mergeProfile_fields (mode : string) (p p' : Profile) :
  mergeProfile mode p = Ok p' ->
  FileName p' = FileName p /\ Mode p' = Mode p /\ Blocks p' <> [].
Proof.
  rewrite mergeProfile_mergeRun.
  destruct (sort_Sort blocksByStart_Less (Blocks p)) as [|last rest]; [done|].
  destruct (mergeRun mode last rest) as [merged| |] eqn:Hrun; simpl; try done.
  intros [= <-]. simpl. by apply mergeRun_nonempty in Hrun.
Qed.

End Parsed.

(** X2. Every profile that [ParseProfiles] returns has at least one
    block, a file name that the filter does not match, and as its mode
    the non-empty text that follows [mode: ] on the first line of the
    input: the mode is set once, and a later line cannot change it. *)
Theorem ParseProfiles_profiles (S : SortAlgorithm) (HS : SortLawful S)
    (input : Reader) (ignore : Ignore) (profiles : list Profile) (p : Profile) :
  ParseProfiles input ignore = Ok profiles ->
  p ∈ profiles ->
  Blocks p <> []
  /\ Match ignore (FileName p) None = false
  /\ Mode p <> EmptyString
  /\ exists rest, scanned input = (modePrefix +:+ Mode p)%string :: rest.
Proof.
  intros (mode & files & files' & Hscan & _ & Hmerge & ->)%ParseProfiles_Ok Hp.
  unfold generateSortedProfilesSlice in Hp.
  rewrite (sort_perm S HS _ byFileName_Less) in Hp.
  apply list_elem_of_fmap in Hp as ([k p'] & -> & Hin%elem_of_map_to_list). simpl.
  destruct (mergeSameLocationSamples_lookup mode _ _ Hmerge k p' Hin) as (p0 & Hp0 & Hm).
  apply mergeProfile_fields in Hm as (Hname & Hmode & Hblocks).
  destruct (scanned input) as [|line rest]; simpl in Hscan.
  { injection Hscan as <- <-. by rewrite lookup_empty in Hp0. }
  destruct (parseLine EmptyString line ∅ ignore) as [[m1 f1]| |] eqn:Hline; simpl in Hscan;
    try done.
  apply parseLine_Ok in Hline as [(_ & -> & Hm1 & ->)|(? & _)]; [|done].
  destruct (scanLines_profiles rest ignore m1 ∅ mode files Hm1) as [-> Hinv];
    [by intros ? ?; rewrite lookup_empty|done|].
  destruct (Hinv _ _ Hp0) as (Hk & _ & Hmode0 & Hign).
  rewrite Hname, Hmode, Hk, Hmode0. eauto.
Qed.

Lemma ParseProfiles_profiles_witness :
  let p := mkProfile "f.go" "atomic" [mkBlock 1 1 2 2 1 3] in
  Blocks p <> [] /\ Match noIgnore (FileName p) None = false /\ Mode p <> EmptyString
  /\ exists rest, ["mode: atomic"; "mode: set"; "f.go:1.1,2.2 1 3"]%string
                  = (modePrefix +:+ Mode p)%string :: rest.
Proof.
  intros p.
  apply (ParseProfiles_profiles insertion_sort insertionSort_lawful
           (mkReader ["mode: atomic"; "mode: set"; "f.go:1.1,2.2 1 3"]%string None)
           noIgnore [p] p).
  - vm_compute. reflexivity.
  - left.
Defined.

(** ** A profile without blocks *)

Lemma scanLines_skips (lines : list string) (ignore : Ignore) (mode : string)
    (files : gmap string Profile) :
  mode <> EmptyString ->
  Forall (fun line => match FindStringSubmatch line with
                      | None => True
                      | Some m => Match ignore (nth 1 m EmptyString) None = true
                      end) lines ->
  scanLines mode files lines ignore = Ok (mode, files).
Proof.
  intros Hmode%String.eqb_neq. induction 1 as [|line lines Hline _ IH]; simpl; [done|].
  unfold parseLine. rewrite Hmode.
  destruct (FindStringSubmatch line) as [m|]; simpl; [|exact IH].
  rewrite Hline. exact IH.
Qed.

(** X3. A mode line followed only by lines that do not match the block
    pattern, or that name files the filter matches, is a profile of no
    file: [ParseProfiles] returns the empty list, and the stages of
    [Convert] before the emission give, without a call of
    [packages.Load], a report without sources and packages whose totals
    are zero. *)
Theorem ParseProfiles_no_blocks (S : SortAlgorithm) (HS : SortLawful S) (env : Env)
    (byFiles : bool) (mode : string) (lines : list string) (ignore : Ignore)
    (buildTags : list string) :
  mode <> EmptyString ->
  Forall (fun line => match FindStringSubmatch line with
                      | None => True
                      | Some m => Match ignore (nth 1 m EmptyString) None = true
                      end) lines ->
  let input := mkReader ((modePrefix +:+ mode)%string :: lines) None in
  ParseProfiles input ignore = Ok []
  /\ coverageOf env byFiles input ignore buildTags
     = Ok (mkCoverage [] [] (Z.quot (time_Now env) 1000000) 0 0 (mkRate 0 0)).
Proof.
  intros Hmode Hlines input.
  assert (Hparse : ParseProfiles input ignore = Ok []).
  { unfold ParseProfiles, input. simpl.
    rewrite (parseLine_first _ _ _ Hmode). simpl.
    rewrite (scanLines_skips _ _ _ _ Hmode Hlines). simpl.
    unfold mergeSameLocationSamples, generateSortedProfilesSlice.
    rewrite map_to_list_empty. simpl. rewrite map_to_list_empty. simpl.
    pose proof (sort_perm S HS _ byFileName_Less []) as Hperm.
    by apply Permutation_nil_r in Hperm as ->. }
  split; [done|]. unfold coverageOf. rewrite Hparse. reflexivity.
Qed.

Lemma ParseProfiles_no_blocks_witness :
  @ParseProfiles insertion_sort
    (mkReader ["mode: set"; "PASS"; "ok example.com/m 0.2s"]%string None) noIgnore = Ok []
  /\ @coverageOf insertion_sort sampleEnv false
       (mkReader ["mode: set"; "PASS"; "ok example.com/m 0.2s"]%string None) noIgnore []
     = Ok (mkCoverage [] [] 0 0 0 (mkRate 0 0)).
Proof.
  apply (ParseProfiles_no_blocks insertion_sort insertionSort_lawful sampleEnv false "set"
           ["PASS"; "ok example.com/m 0.2s"]%string noIgnore []).
  - discriminate.
  - repeat constructor.
Defined.

(** ** No partial report *)

(** X4. [Convert] touches the destination only when the profile has been
    parsed, the packages loaded and every file resolved: when it returns
    another error than that of the encoder, or panics, nothing has been
    written, not even the header. *)
Theorem Convert_no_partial_report (S : SortAlgorithm) (env : Env) (byFiles : bool)
    (input : Reader) (out : Writer) (ignore : Ignore) (buildTags : list string) :
  let result := Convert env byFiles input out ignore buildTags in
  (forall e, result.2 = Err e -> (forall err, e <> ErrEncode err) -> result.1 = out)
  /\ (forall p, result.2 = Panic p -> result.1 = out).
Proof.
  intros result. unfold result. rewrite Convert_stages.
  destruct (coverageOf env byFiles input ignore buildTags) as [coverage|e0|p0]; simpl.
  2,3: by split.
  destruct (Fprint out xml_Header) as [o1 e1].
  destruct (Fprint o1 (DTDDecl +:+ newline)) as [o2 e2].
  destruct (encodeChunks o2 (reportChunks env coverage)) as [o3 [err|]]; simpl.
  - split; [|done]. intros e [= <-] Hne. by destruct (Hne err).
  - destruct (Fprint o3 newline) as [o4 e4]. simpl. by split.
Qed.

Lemma Convert_no_partial_report_witness :
  (@Convert insertion_sort sampleEnv false (mkReader ["garbage"]%string None)
     openWriter noIgnore []).1 = openWriter.
Proof.
  destruct (Convert_no_partial_report insertion_sort sampleEnv false
              (mkReader ["garbage"]%string None) openWriter noIgnore []) as [Herr _].
  apply (Herr (ErrBadModeLine "garbage")); [vm_compute; reflexivity|discriminate].
Defined.

(** ** What the merge keeps *)

Lemma wrap64_mod (z : Z) : wrap64 z mod 2 ^ 64 = z mod 2 ^ 64.
Proof.
  unfold wrap64. rewrite Zminus_mod_idemp_l. f_equal. lia.
Qed.

Lemma wrap64_small (z : Z) : int_min <= z <= int_max -> wrap64 z = z.
Proof.
  unfold wrap64, int_min, int_max. intros Hz.
  rewrite Z.mod_small by lia. lia.
Qed.

Lemma totalCount_perm (l1 l2 : list ProfileBlock) :
  Permutation l1 l2 -> totalCount l1 = totalCount l2.
Proof.
  unfold totalCount. induction 1; simpl; lia.
Qed.

Lemma mergeRun_total_mod (mode : string) (rest : list ProfileBlock) :
  forall last merged,
    mode <> "set"%string ->
    mergeRun mode last rest = Ok merged ->
    totalCount merged mod 2 ^ 64 = totalCount (last :: rest) mod 2 ^ 64.
Proof.
  induction rest as [|cur rest IH]; intros last merged Hmode; simpl.
  - by intros [= <-].
  - destruct (sameLocation cur last).
    + destruct (negb _); [done|]. intros Hrun. rewrite (IH _ _ Hmode Hrun). simpl.
      unfold mergeCount. apply String.eqb_neq in Hmode. rewrite Hmode.
      rewrite Z.add_assoc, Zplus_mod, wrap64_mod, <- Zplus_mod. done.
    + destruct (mergeRun mode cur rest) as [m'| |] eqn:Hrun; simpl; try done.
      intros [= <-]. simpl. rewrite Zplus_mod, (IH _ _ Hmode Hrun), <- Zplus_mod. done.
Qed.

Lemma mergeRun_total (mode : string) (rest : list ProfileBlock) :
  forall last merged,
    mode <> "set"%string ->
    Forall (fun b => 0 <= Count b) (last :: rest) ->
    totalCount (last :: rest) <= int_max ->
    mergeRun mode last rest = Ok merged ->
    totalCount merged = totalCount (last :: rest)
    /\ Forall (fun b => 0 <= Count b) merged.
Proof.
  induction rest as [|cur rest IH]; intros last merged Hmode Hpos Hmax; simpl.
  - by intros [= <-].
  - apply Forall_cons in Hpos as [Hl Hpos]. apply Forall_cons in Hpos as [Hc Hpos].
    assert (0 <= totalCount rest) as Hrest.
    { clear -Hpos. induction Hpos; simpl; lia. }
    simpl in Hmax.
    destruct (sameLocation cur last).
    + destruct (negb _); [done|].
      assert (mergeCount mode (Count last) (Count cur) = Count last + Count cur) as Hmc.
      { unfold mergeCount. apply String.eqb_neq in Hmode. rewrite Hmode.
        apply wrap64_small. unfold int_min. lia. }
      intros Hrun. apply IH in Hrun as [Ht Hp]; try done.
      * split; [|done]. rewrite Ht. simpl. rewrite Hmc. lia.
      * constructor; [simpl; rewrite Hmc; lia|done].
      * simpl. rewrite Hmc. lia.
    + destruct (mergeRun mode cur rest) as [m'| |] eqn:Hrun; simpl; try done.
      intros [= <-]. apply IH in Hrun as [Ht Hp]; try done.
      * split; [simpl; rewrite Ht; done|by constructor].
      * by constructor.
      * simpl. lia.
Qed.

(** X5. In every mode but [set] the merge loses no hit: the counts of a
    merged profile add up to the sum of the counts of the profile before
    the merge, modulo 2^64; exactly, and with no count below zero, when
    no count is below zero before the merge and their sum is an [int]. *)
Theorem mergeProfile_keeps_total (S : SortAlgorithm) (HS : SortLawful S)
    (mode : string) (p p' : Profile) :
  mode <> "set"%string ->
  mergeProfile mode p = Ok p' ->
  totalCount (Blocks p') mod 2 ^ 64 = totalCount (Blocks p) mod 2 ^ 64
  /\ (Forall (fun b => 0 <= Count b) (Blocks p) ->
      totalCount (Blocks p) <= int_max ->
      totalCount (Blocks p') = totalCount (Blocks p)
      /\ Forall (fun b => 0 <= Count b) (Blocks p')).
Proof.
  intros Hmode. rewrite mergeProfile_mergeRun.
  pose proof (sort_perm S HS _ blocksByStart_Less (Blocks p)) as Hperm.
  destruct (sort_Sort blocksByStart_Less (Blocks p)) as [|last rest]; [done|].
  destruct (mergeRun mode last rest) as [merged| |] eqn:Hrun; simpl; try done.
  intros [= <-]. simpl. rewrite <- (totalCount_perm _ _ Hperm). split.
  - exact (mergeRun_total_mod mode rest last merged Hmode Hrun).
  - intros Hpos Hmax. apply (mergeRun_total mode rest last merged); try done.
    by rewrite Hperm.
Qed.

Lemma mergeProfile_keeps_total_witness :
  let p := mkProfile "f.go" "count"
             [mkBlock 3 1 4 2 1 5; mkBlock 1 1 2 2 1 1; mkBlock 1 1 2 2 1 2] in
  let p' := mkProfile "f.go" "count" [mkBlock 1 1 2 2 1 3; mkBlock 3 1 4 2 1 5] in
  totalCount (Blocks p') = totalCount (Blocks p).
Proof.
  intros p p'.
  destruct (mergeProfile_keeps_total insertion_sort insertionSort_lawful "count" p p')
    as [_ Hexact]; [discriminate|vm_compute; reflexivity|].
  apply Hexact.
  - repeat constructor; simpl; lia.
  - vm_compute. discriminate.
Defined.

Lemma lor_bit (a b : Z) :
  (a = 0 \/ a = 1) -> (b = 0 \/ b = 1) ->
  (Z.lor a b = 0 \/ Z.lor a b = 1) /\ (Z.lor a b = 1 <-> a = 1 \/ b = 1).
Proof.
  intros [-> | ->] [-> | ->]; change (Z.lor 0 0) with 0; change (Z.lor 0 1) with 1;
    change (Z.lor 1 0) with 1; change (Z.lor 1 1) with 1; intuition lia.
Qed.

Lemma mergeRun_set (rest : list ProfileBlock) :
  forall last merged,
    Forall (fun b => Count b = 0 \/ Count b = 1) (last :: rest) ->
    mergeRun "set" last rest = Ok merged ->
    Forall (fun b => Count b = 0 \/ Count b = 1) merged
    /\ (Exists (fun b => Count b = 1) merged <-> Exists (fun b => Count b = 1) (last :: rest)).
Proof.
  induction rest as [|cur rest IH]; intros last merged Hbits; simpl.
  - by intros [= <-].
  - apply Forall_cons in Hbits as [Hl Hbits]. apply Forall_cons in Hbits as [Hc Hbits].
    destruct (lor_bit _ _ Hl Hc) as [Hlor Hone].
    destruct (sameLocation cur last).
    + destruct (negb _); [done|]. intros Hrun.
      apply IH in Hrun as [Hb Hex]; [|by constructor].
      split; [done|]. rewrite Hex, !Exists_cons. simpl.
      change (mergeCount "set" (Count last) (Count cur)) with (Z.lor (Count last) (Count cur)).
      rewrite Hone. tauto.
    + destruct (mergeRun "set" cur rest) as [m'| |] eqn:Hrun; simpl; try done.
      intros [= <-]. apply IH in Hrun as [Hb Hex]; [|by constructor].
      split; [by constructor|]. rewrite !Exists_cons, Hex, Exists_cons. tauto.
Qed.

(** X6. In mode [set], a profile whose counts are all 0 or 1 stays so
    through the merge, and the merged profile has a block that is hit
    exactly when the profile had one. *)
Theorem mergeProfile_set_counts (S : SortAlgorithm) (HS : SortLawful S) (p p' : Profile) :
  Forall (fun b => Count b = 0 \/ Count b = 1) (Blocks p) ->
  mergeProfile "set" p = Ok p' ->
  Forall (fun b => Count b = 0 \/ Count b = 1) (Blocks p')
  /\ (Exists (fun b => Count b = 1) (Blocks p') <-> Exists (fun b => Count b = 1) (Blocks p)).
Proof.
  intros Hbits. rewrite mergeProfile_mergeRun.
  pose proof (sort_perm S HS _ blocksByStart_Less (Blocks p)) as Hperm.
  assert (Hex : Exists (fun b => Count b = 1) (sort_Sort blocksByStart_Less (Blocks p))
                <-> Exists (fun b => Count b = 1) (Blocks p)) by (by rewrite Hperm).
  rewrite <- Hperm in Hbits. rewrite <- Hex. clear Hex Hperm.
  destruct (sort_Sort blocksByStart_Less (Blocks p)) as [|last rest]; [done|].
  destruct (mergeRun "set" last rest) as [merged| |] eqn:Hrun; simpl; try done.
  intros [= <-]. simpl. by apply mergeRun_set.
Qed.

Lemma mergeProfile_set_counts_witness :
  let p := mkProfile "f.go" "set"
             [mkBlock 3 1 4 2 1 0; mkBlock 1 1 2 2 1 0; mkBlock 1 1 2 2 1 1] in
  let p' := mkProfile "f.go" "set" [mkBlock 1 1 2 2 1 1; mkBlock 3 1 4 2 1 0] in
  Forall (fun b => Count b = 0 \/ Count b = 1) (Blocks p')
  /\ (Exists (fun b => Count b = 1) (Blocks p') <-> Exists (fun b => Count b = 1) (Blocks p)).
Proof.
  intros p p'.
  apply (mergeProfile_set_counts insertion_sort insertionSort_lawful p p').
  - repeat constructor; simpl; lia.
  - vm_compute. reflexivity.
Defined.

Lemma mergeRun_blocks (mode : string) (rest : list ProfileBlock) :
  forall last merged,
    mergeRun mode last rest = Ok merged ->
    (length merged <= length (last :: rest))%nat
    /\ Forall (fun b' => exists b, b ∈ last :: rest
                                   /\ locationOf b' = locationOf b
                                   /\ NumStmt b' = NumStmt b) merged.
Proof.
  induction rest as [|cur rest IH]; intros last merged; simpl.
  - intros [= <-]. split; [done|]. repeat constructor. exists last. split; [left|done].
  - destruct (sameLocation cur last).
    + destruct (negb _); [done|]. intros [Hlen Hall]%IH. split; [simpl in *; lia|].
      eapply Forall_impl; [exact Hall|]. intros b' (b & [->|Hb]%elem_of_cons & Hloc & Hnum).
      * exists last. split; [left|done].
      * exists b. split; [by do 2 right|done].
    + destruct (mergeRun mode cur rest) as [m'| |] eqn:Hrun; simpl; try done.
      intros [= <-]. destruct (IH _ _ Hrun) as [Hlen Hall]. split; [simpl in *; lia|].
      constructor; [exists last; split; [left|done]|].
      eapply Forall_impl; [exact Hall|]. intros b' (b & Hb & Hloc & Hnum).
      exists b. split; [by right|done].
Qed.

Lemma mergeRun_distinct (mode : string) (rest : list ProfileBlock) :
  forall last,
    NoDup (locationOf <$> last :: rest) ->
    mergeRun mode last rest = Ok (last :: rest).
Proof.
  induction rest as [|cur rest IH]; intros last Hnd; simpl; [done|].
  apply NoDup_cons in Hnd as [Hlast Hnd].
  assert (sameLocation cur last = false) as ->.
  { apply sameLocation_false. intros Heq. apply Hlast. rewrite <- Heq. csimpl. left. }
  by rewrite IH.
Qed.

(** X7. The merge of a profile keeps its file name and mode, leaves at
    least one block and no more blocks than there were, and invents
    nothing: every block left is at the location, and has the statement
    count, of a block of the profile.  When no two blocks of the profile
    are at one location the merge only sorts. *)
Theorem mergeProfile_blocks (S : SortAlgorithm) (HS : SortLawful S)
    (mode : string) (p p' : Profile) :
  mergeProfile mode p = Ok p' ->
  FileName p' = FileName p
  /\ Mode p' = Mode p
  /\ (0 < length (Blocks p') <= length (Blocks p))%nat
  /\ Forall (fun b' => exists b, b ∈ Blocks p
                                 /\ locationOf b' = locationOf b
                                 /\ NumStmt b' = NumStmt b) (Blocks p')
  /\ (NoDup (locationOf <$> Blocks p) ->
      Blocks p' = sort_Sort blocksByStart_Less (Blocks p)).
Proof.
  rewrite mergeProfile_mergeRun.
  pose proof (sort_perm S HS _ blocksByStart_Less (Blocks p)) as Hperm.
  destruct (sort_Sort blocksByStart_Less (Blocks p)) as [|last rest] eqn:Hsort; [done|].
  destruct (mergeRun mode last rest) as [merged| |] eqn:Hrun; simpl; try done.
  intros [= <-]. simpl. split; [done|]. split; [done|].
  destruct (mergeRun_blocks _ _ _ _ Hrun) as [Hlen Hall].
  pose proof (mergeRun_nonempty _ _ _ _ Hrun) as Hne.
  split; [|split].
  - rewrite <- (Permutation_length Hperm). split; [|done]. destruct merged; [done|simpl; lia].
  - eapply Forall_impl; [exact Hall|]. intros b' (b & Hb & Hloc & Hnum).
    exists b. split; [by rewrite <- Hperm|done].
  - intros Hnd. rewrite <- Hperm in Hnd.
    rewrite (mergeRun_distinct mode rest last Hnd) in Hrun. by injection Hrun as <-.
Qed.

Lemma mergeProfile_blocks_witness :
  let p := mkProfile "f.go" "count" [mkBlock 3 1 4 2 1 5; mkBlock 1 1 2 2 1 1] in
  let p' := mkProfile "f.go" "count" [mkBlock 1 1 2 2 1 1; mkBlock 3 1 4 2 1 5] in
  (0 < length (Blocks p') <= length (Blocks p))%nat
  /\ Blocks p' = @sort_Sort insertion_sort _ blocksByStart_Less (Blocks p).
Proof.
  intros p p'.
  destruct (mergeProfile_blocks insertion_sort insertionSort_lawful "count" p p')
    as (_ & _ & Hlen & _ & Hsort); [vm_compute; reflexivity|].
  split; [exact Hlen|]. apply Hsort.
  vm_compute. apply NoDup_cons. split; [|apply NoDup_singleton].
  intros [=]%list_elem_of_singleton.
Defined.

(** ** The walk over the declarations of a file *)

Lemma classKey_ext (byFiles : bool) (v v0 : fileVisitor) (n : FuncDecl) :
  fileName v = fileName v0 -> fileData v = fileData v0 ->
  classKey byFiles v n = classKey byFiles v0 n.
Proof.
  unfold classKey, recvName. intros -> ->. done.
Qed.

Lemma visitedMethod_ext (v v0 : fileVisitor) (n : FuncDecl) :
  profile v = profile v0 -> visitedMethod v n = visitedMethod v0 n.
Proof. unfold visitedMethod, method. by intros ->. Qed.

Lemma keyIs_true (byFiles : bool) (v : fileVisitor) (name : string) (n : FuncDecl) :
  keyIs byFiles v name n = true <-> classKey byFiles v n = Ok name.
Proof.
  unfold keyIs. destruct (classKey byFiles v n) as [k| |]; [|done|done].
  rewrite String.eqb_eq. split; [by intros ->|by intros [= ->]].
Qed.

(** [Visit], once the name of the class is known. *)
Lemma Visit_key (byFiles : bool) (v : fileVisitor) (n : FuncDecl) :
  Visit byFiles v n =
  match classKey byFiles v n with
  | Ok k =>
      let m := visitedMethod v n in
      match classes v !! k with
      | Some idx =>
          match Package_Classes (pkg v) !! idx with
          | Some c =>
              Ok (setPkg v
                    (mkPackage (Package_Name (pkg v)) (Package_LineRate (pkg v))
                       (<[idx := mkClass (Class_Name c) (Class_Filename c)
                                   (Lines_HitRate (Class_Lines c ++ Method_Lines m))
                                   (Class_Methods c ++ [m])
                                   (Class_Lines c ++ Method_Lines m)]>
                          (Package_Classes (pkg v))))
                    (classes v))
          | None => Panic PanicSliceBounds
          end
      | None =>
          Ok (setPkg v
                (mkPackage (Package_Name (pkg v)) (Package_LineRate (pkg v))
                   (Package_Classes (pkg v)
                    ++ [mkClass k (fileName v) (Lines_HitRate (Method_Lines m)) [m]
                          (Method_Lines m)]))
                (<[k := length (Package_Classes (pkg v))]> (classes v)))
      end
  | Err e => Err e
  | Panic p => Panic p
  end.
Proof.
  unfold Visit, class, classKey.
  destruct (if byFiles then _ else _) as [k| |]; simpl; [|done|done].
  destruct (classes v !! k) as [idx|]; simpl.
  - by destruct (Package_Classes (pkg v) !! idx).
  - rewrite lookup_app_r by done. rewrite Nat.sub_diag. simpl.
    rewrite insert_app_r_alt by done. rewrite Nat.sub_diag. done.
Qed.

Lemma walkInv_start (byFiles : bool) (v0 : fileVisitor) :
  classes v0 = ∅ -> walkInv byFiles v0 [] v0.
Proof.
  intros Hempty. unfold walkInv.
  split; [done|]. split; [done|]. split; [done|].
  split; [by rewrite firstn_all|]. split; [|split].
  - intros name idx. rewrite Hempty, lookup_empty. split; [done|].
    intros (Hle & c & Hc & _). apply lookup_lt_Some in Hc. lia.
  - intros idx c Hle Hc. apply lookup_lt_Some in Hc. lia.
  - intros n Hn. by apply elem_of_nil in Hn.
Qed.

Lemma Visit_step (byFiles : bool) (v0 : fileVisitor) (visited : list FuncDecl)
    (v : fileVisitor) (n : FuncDecl) (k : string) :
  walkInv byFiles v0 visited v ->
  classKey byFiles v0 n = Ok k ->
  exists v', Visit byFiles v n = Ok v' /\ walkInv byFiles v0 (visited ++ [n]) v'.
Proof.
  intros (Hfn & Hfd & Hpr & Htake & Hmap & Hcls & Hvis) Hk.
  rewrite Visit_key, (classKey_ext _ _ _ _ Hfn Hfd), Hk. cbv zeta.
  rewrite (visitedMethod_ext _ _ _ Hpr).
  set (m := visitedMethod v0 n). set (cs := Package_Classes (pkg v)) in *.
  set (base := length (Package_Classes (pkg v0))) in *.
  assert (Hbase : (base <= length cs)%nat).
  { apply (f_equal length) in Htake. rewrite length_take in Htake. fold base in Htake. lia. }
  assert (Hkn : keyIs byFiles v0 k n = true) by (by apply keyIs_true).
  destruct (classes v !! k) as [idx|] eqn:Hlook.
  - destruct (proj1 (Hmap k idx) Hlook) as (Hle & c & Hc & Hname). fold cs. rewrite Hc.
    pose proof (lookup_lt_Some _ _ _ Hc) as Hidx.
    eexists. split; [done|]. unfold walkInv. simpl. fold base.
    split; [done|]. split; [done|]. split; [done|].
    split; [by rewrite take_insert_ge by lia|]. split; [|split].
    + intros name j. rewrite Hmap. fold cs.
      split; intros (Hj & c1 & Hc1 & Hn1); (split; [done|]).
      * destruct (decide (j = idx)) as [->|Hne].
        -- rewrite list_lookup_insert_eq by done. eexists. split; [done|]. simpl. congruence.
        -- rewrite list_lookup_insert_ne by done. eauto.
      * destruct (decide (j = idx)) as [->|Hne].
        -- rewrite list_lookup_insert_eq in Hc1 by done. injection Hc1 as <-. simpl in Hn1. eauto.
        -- rewrite list_lookup_insert_ne in Hc1 by done. eauto.
    + intros j cj Hj Hcj. destruct (decide (j = idx)) as [->|Hne].
      * rewrite list_lookup_insert_eq in Hcj by done. injection Hcj as <-. simpl.
        destruct (Hcls idx c Hle Hc) as (Hf & Hm & Hl & Hne').
        split; [done|]. split; [|split].
        -- rewrite Hm, filter_app, fmap_app. f_equal.
           rewrite filter_cons_True by (apply Is_true_true; by rewrite Hname). done.
        -- rewrite fmap_app, concat_app, Hl. simpl. by rewrite app_nil_r.
        -- by destruct (Class_Methods c).
      * rewrite list_lookup_insert_ne in Hcj by done.
        destruct (Hcls j cj Hj Hcj) as (Hf & Hm & Hl & Hne').
        split; [done|]. split; [|done].
        rewrite Hm, filter_app, filter_cons_False, filter_nil, app_nil_r; [done|].
        intros Hkey%Is_true_true%keyIs_true. rewrite Hk in Hkey. injection Hkey as Hkey.
        assert (classes v !! k = Some j) as Hj' by (apply Hmap; eauto).
        congruence.
    + intros n' [Hn'| ->%list_elem_of_singleton]%elem_of_app; [by apply Hvis|].
      exists k. by rewrite Hlook.
  - eexists. split; [done|]. unfold walkInv. simpl. fold base. fold cs.
    set (c' := mkClass k (fileName v) (Lines_HitRate (Method_Lines m)) [m] (Method_Lines m)).
    split; [done|]. split; [done|]. split; [done|].
    split; [by rewrite take_app_le by lia|]. split; [|split].
    + intros name j. destruct (decide (k = name)) as [<-|Hne].
      * rewrite lookup_insert_eq. split.
        -- intros [= <-]. split; [lia|]. exists c'.
           rewrite lookup_app_r by done. by rewrite Nat.sub_diag.
        -- intros (Hj & c1 & Hc1 & Hn1). f_equal.
           destruct (decide (j < length cs)%nat) as [Hlt|Hge].
           ++ rewrite lookup_app_l in Hc1 by done.
              assert (classes v !! k = Some j) as Hj' by (apply Hmap; eauto). congruence.
           ++ apply lookup_lt_Some in Hc1. rewrite length_app in Hc1. simpl in Hc1. lia.
      * rewrite lookup_insert_ne by done. rewrite Hmap. fold cs.
        split; intros (Hj & c1 & Hc1 & Hn1); (split; [done|]).
        -- exists c1. rewrite lookup_app_l by (by eapply lookup_lt_Some). done.
        -- destruct (decide (j < length cs)%nat) as [Hlt|Hge].
           ++ rewrite lookup_app_l in Hc1 by done. eauto.
           ++ rewrite lookup_app_r in Hc1 by lia.
              destruct (j - length cs)%nat; [|done]. injection Hc1 as <-. done.
    + intros j cj Hj Hcj. destruct (decide (j < length cs)%nat) as [Hlt|Hge].
      * rewrite lookup_app_l in Hcj by done.
        destruct (Hcls j cj Hj Hcj) as (Hf & Hm & Hl & Hne').
        split; [done|]. split; [|done].
        rewrite Hm, filter_app, filter_cons_False, filter_nil, app_nil_r; [done|].
        intros Hkey%Is_true_true%keyIs_true. rewrite Hk in Hkey. injection Hkey as Hkey.
        assert (classes v !! k = Some j) as Hj' by (apply Hmap; eauto).
        congruence.
      * rewrite lookup_app_r in Hcj by lia.
        destruct (j - length cs)%nat; [|done]. injection Hcj as <-. simpl.
        split; [done|]. split; [|split; [by rewrite app_nil_r|done]].
        rewrite filter_app, filter_cons_True, filter_nil by (by apply Is_true_true).
        rewrite (filter_none _ visited); [done|].
        intros n' Hn' Hkey%Is_true_true%keyIs_true.
        destruct (Hvis n' Hn') as (k' & Hk' & Hsome). rewrite Hkey in Hk'.
        injection Hk' as <-. rewrite Hlook in Hsome. by destruct Hsome.
    + intros n' [Hn'| ->%list_elem_of_singleton]%elem_of_app.
      * destruct (Hvis n' Hn') as (k' & Hk' & Hsome). exists k'. split; [done|].
        destruct (decide (k = k')) as [<-|Hne]; [by rewrite lookup_insert_eq|].
        by rewrite lookup_insert_ne.
      * exists k. by rewrite lookup_insert_eq.
Qed.

Lemma filter_all {A : Type} (P : A -> Prop) `{forall x, Decision (P x)} (l : list A) :
  (forall x, x ∈ l -> P x) -> filter P l = l.
Proof.
  induction l as [|x l IH]; intros Hl; [done|].
  rewrite filter_cons_True by (apply Hl; left). f_equal. apply IH.
  intros y Hy. apply Hl. by right.
Qed.

Lemma Visit_Ok_key (byFiles : bool) (v v' : fileVisitor) (n : FuncDecl) :
  Visit byFiles v n = Ok v' -> exists k, classKey byFiles v n = Ok k.
Proof.
  rewrite Visit_key. destruct (classKey byFiles v n) as [k| |]; [eauto|done|done].
Qed.

Lemma Walk_inv (byFiles : bool) (v0 : fileVisitor) (decls : list FuncDecl) :
  forall visited v v',
    walkInv byFiles v0 visited v ->
    Walk byFiles v decls = Ok v' ->
    walkInv byFiles v0 (visited ++ decls) v'.
Proof.
  induction decls as [|n decls IH]; intros visited v v' Hinv; simpl.
  - intros [= <-]. by rewrite app_nil_r.
  - destruct (Visit byFiles v n) as [v1| |] eqn:Hv; simpl; try done.
    destruct (Visit_Ok_key _ _ _ _ Hv) as [k Hk].
    destruct Hinv as (Hfn & Hfd & Hrest).
    rewrite (classKey_ext _ _ _ _ Hfn Hfd) in Hk.
    destruct (Visit_step byFiles v0 visited v n k (conj Hfn (conj Hfd Hrest)) Hk)
      as (v1' & Hv1 & Hinv1).
    rewrite Hv in Hv1. injection Hv1 as <-.
    intros Hwalk. rewrite (cons_middle n), app_assoc. by eapply IH.
Qed.

Lemma Walk_runs (byFiles : bool) (v0 : fileVisitor) (decls : list FuncDecl) :
  forall visited v,
    walkInv byFiles v0 visited v ->
    Forall (fun n => exists k, classKey byFiles v0 n = Ok k) decls ->
    exists v', Walk byFiles v decls = Ok v'.
Proof.
  induction decls as [|n decls IH]; intros visited v Hinv Hkeys; simpl; [eauto|].
  apply Forall_cons in Hkeys as [[k Hk] Hkeys].
  destruct (Visit_step byFiles v0 visited v n k Hinv Hk) as (v1 & -> & Hinv1). simpl.
  by eapply IH.
Qed.




Lemma Visit_no_Err (byFiles : bool) (v : fileVisitor) (n : FuncDecl) (e : error) :
  Visit byFiles v n <> Err e.
Proof.
  rewrite Visit_key. unfold classKey, recvName, slice.
  destruct byFiles.
  - cbv zeta. destruct (classes v !! _); [destruct (_ !! _)|]; done.
  - destruct (Decl_Recv n) as [[start end_]|].
    + destruct (decide _); [|done].
      destruct (GoStrings.sliceFrom _ _); simpl; [|done].
      cbv zeta. destruct (classes v !! _); [destruct (_ !! _)|]; done.
    + cbv zeta. destruct (classes v !! _); [destruct (_ !! _)|]; done.
Qed.

Lemma Walk_no_Err (byFiles : bool) (decls : list FuncDecl) :
  forall v e, Walk byFiles v decls <> Err e.
Proof.
  induction decls as [|n decls IH]; intros v e; simpl; [done|].
  destruct (Visit byFiles v n) as [v1|e1|] eqn:Hv; simpl; [apply IH| |done].
  by apply Visit_no_Err in Hv.
Qed.

(** X8. The walk over the declarations of a file, started with an empty
    class map, leaves the classes that the package had as they were and
    adds classes of pairwise different names, each with the file name of
    the visitor; a class added holds the methods of exactly the
    declarations that bear its name (the receiver type, or the file in
    the grouping by files), in the order of the source, and its lines
    are those of its methods in that order; every declaration has its
    class. *)
Theorem Walk_groups (byFiles : bool) (v0 v' : fileVisitor) (decls : list FuncDecl) :
  classes v0 = ∅ ->
  Walk byFiles v0 decls = Ok v' ->
  let base := length (Package_Classes (pkg v0)) in
  let added := drop base (Package_Classes (pkg v')) in
  take base (Package_Classes (pkg v')) = Package_Classes (pkg v0)
  /\ NoDup (Class_Name <$> added)
  /\ Forall (fun c =>
               Class_Filename c = fileName v0
               /\ Class_Methods c
                  = visitedMethod v0 <$> filter (fun n => keyIs byFiles v0 (Class_Name c) n) decls
               /\ Class_Lines c = concat (Method_Lines <$> Class_Methods c)
               /\ Class_Methods c <> []) added
  /\ (forall n, n ∈ decls ->
        exists c, c ∈ added /\ classKey byFiles v0 n = Ok (Class_Name c)).
Proof.
  intros Hempty Hwalk base added.
  pose proof (Walk_inv byFiles v0 decls [] v0 v' (walkInv_start byFiles v0 Hempty) Hwalk)
    as (_ & _ & _ & Htake & Hmap & Hcls & Hvis).
  cbn [app] in Hcls, Hvis. fold base in Htake, Hmap, Hcls.
  split; [done|]. split; [|split].
  - apply NoDup_alt. intros i j name Hi Hj.
    rewrite list_lookup_fmap in Hi, Hj. unfold added in Hi, Hj.
    rewrite lookup_drop in Hi, Hj.
    destruct (Package_Classes (pkg v') !! (base + i)%nat) as [ci|] eqn:Hci; [|done].
    destruct (Package_Classes (pkg v') !! (base + j)%nat) as [cj|] eqn:Hcj; [|done].
    injection Hi as Hi. injection Hj as Hj.
    assert (classes v' !! name = Some (base + i)%nat) as Hmi by (apply Hmap; split; [lia|eauto]).
    assert (classes v' !! name = Some (base + j)%nat) as Hmj by (apply Hmap; split; [lia|eauto]).
    rewrite Hmi in Hmj. injection Hmj. lia.
  - apply Forall_forall. intros c Hc. apply list_elem_of_lookup in Hc as [i Hi].
    unfold added in Hi. rewrite lookup_drop in Hi. apply (Hcls (base + i)%nat); [lia|done].
  - intros n Hn. destruct (Hvis n Hn) as (k & Hk & [idx Hidx]).
    apply Hmap in Hidx as (Hle & c & Hc & Hname). exists c. split; [|by rewrite Hname].
    apply list_elem_of_lookup. exists (idx - base)%nat. unfold added.
    rewrite lookup_drop. by replace (base + (idx - base))%nat with idx by lia.
Qed.

Lemma Walk_groups_witness :
  let v0 := mkVisitor "testdata/func2.go" "Type1 *Type1"
              (mkPackage "p" (mkRate 0 0) [mkClass "-" "testdata/func1.go" (mkRate 0 0) [] []])
              ∅ (mkProfile "testdata/func2.go" "set" []) in
  let byValue := mkFuncDecl "Func2a" (Some (mkPosition 0 8 9, mkPosition 5 8 14))
                   (mkPosition 60 8 1) (mkPosition 120 12 2) in
  let byPointer := mkFuncDecl "Func2b" (Some (mkPosition 6 14 9, mkPosition 12 14 15))
                     (mkPosition 122 14 1) (mkPosition 160 15 2) in
  exists v',
    Walk false v0 [byValue; byPointer] = Ok v'
    /\ Class_Name <$> Package_Classes (pkg v') = ["-"; "Type1"]%string
    /\ take 1 (Package_Classes (pkg v')) = Package_Classes (pkg v0)
    /\ NoDup (Class_Name <$> drop 1 (Package_Classes (pkg v'))).
Proof.
  intros v0 byValue byPointer. eexists. split; [vm_compute; reflexivity|].
  split; [reflexivity|].
  match goal with
  | |- context [Package_Classes (pkg ?v)] =>
      destruct (Walk_groups false v0 v [byValue; byPointer] eq_refl) as (Htake & Hnd & _)
  end; [vm_compute; reflexivity|].
  split; [exact Htake|exact Hnd].
Defined.



(** X10. In the grouping by files all the declarations of a file go to
    one class: the walk of a file with declarations adds, behind the
    classes that the package had, a single class, named by the path of
    the file with its separators turned into dots, that holds one method
    for each declaration, in the order of the source. *)
Theorem Walk_byFiles (v0 : fileVisitor) (decls : list FuncDecl) :
  classes v0 = ∅ ->
  decls <> [] ->
  exists v' c,
    Walk true v0 decls = Ok v'
    /\ Package_Classes (pkg v') = Package_Classes (pkg v0) ++ [c]
    /\ Class_Name c
       = GoStrings.ReplaceAll (GoStrings.ReplaceAll (fileName v0) "/" ".") "\" "."
    /\ Class_Filename c = fileName v0
    /\ Class_Methods c = visitedMethod v0 <$> decls
    /\ Class_Lines c = concat (Method_Lines <$> Class_Methods c).
Proof.
  intros Hempty Hne.
  set (key := GoStrings.ReplaceAll (GoStrings.ReplaceAll (fileName v0) "/" ".") "\" ".").
  assert (Hkey : forall n, classKey true v0 n = Ok key) by done.
  destruct (Walk_runs true v0 decls [] v0 (walkInv_start true v0 Hempty)) as [v' Hwalk].
  { apply Forall_forall. intros n _. eauto. }
  pose proof (Walk_inv true v0 decls [] v0 v' (walkInv_start true v0 Hempty) Hwalk)
    as (_ & _ & _ & Htake & Hmap & Hcls & Hvis).
  cbn [app] in Hcls, Hvis.
  set (base := length (Package_Classes (pkg v0))) in *.
  destruct decls as [|n0 decls]; [done|].
  destruct (Hvis n0 ltac:(left)) as (k & Hk & [idx Hidx]).
  rewrite Hkey in Hk. injection Hk as <-.
  destruct (proj1 (Hmap key idx) Hidx) as (Hle & c & Hc & Hname).
  assert (Hall : forall j cj, (base <= j)%nat -> Package_Classes (pkg v') !! j = Some cj ->
                              j = idx).
  { intros j cj Hj Hcj. destruct (Hcls j cj Hj Hcj) as (_ & Hm & _ & Hne').
    destruct (filter _ (n0 :: decls)) as [|n1 l] eqn:Hf; [by rewrite Hm in Hne'|].
    assert (n1 ∈ filter (fun n => keyIs true v0 (Class_Name cj) n) (n0 :: decls)) as Hn1
      by (rewrite Hf; left).
    apply list_elem_of_filter in Hn1 as [Hn1%Is_true_true%keyIs_true _].
    rewrite Hkey in Hn1. injection Hn1 as Hn1.
    assert (classes v' !! key = Some j) as Hj' by (apply Hmap; split; [done|eauto]).
    congruence. }
  assert (Hlen : length (Package_Classes (pkg v')) = Datatypes.S base /\ idx = base).
  { pose proof (lookup_lt_Some _ _ _ Hc) as Hlt.
    destruct (decide (idx = base)) as [->|Hnb].
    - split; [|done].
      destruct (Package_Classes (pkg v') !! Datatypes.S base) as [c1|] eqn:Hc1.
      + specialize (Hall (Datatypes.S base) c1 ltac:(lia) Hc1). lia.
      + apply lookup_ge_None in Hc1. lia.
    - destruct (Package_Classes (pkg v') !! base) as [c1|] eqn:Hc1.
      + specialize (Hall base c1 ltac:(lia) Hc1). lia.
      + apply lookup_ge_None in Hc1. lia. }
  destruct Hlen as [Hlen ->].
  exists v', c. split; [done|]. split.
  - rewrite <- (take_drop base (Package_Classes (pkg v'))) at 1. rewrite Htake. f_equal.
    apply list_eq. intros i. rewrite lookup_drop. destruct i as [|i]; simpl.
    + by rewrite Nat.add_0_r.
    + apply lookup_ge_None. lia.
  - destruct (Hcls base c ltac:(lia) Hc) as (Hf & Hm & Hl & _).
    split; [done|]. split; [done|]. split; [|done].
    rewrite Hm, Hname. f_equal. apply filter_all.
    intros n _. apply Is_true_true, keyIs_true, Hkey.
Qed.

Lemma Walk_byFiles_witness :
  let v0 := mkVisitor "src/lib/foo.go" EmptyString (mkPackage "p" (mkRate 0 0) []) ∅
              (mkProfile "m/src/lib/foo.go" "set" [mkBlock 1 1 2 2 1 1]) in
  let f := mkFuncDecl "F" None (mkPosition 0 1 1) (mkPosition 9 2 2) in
  let g := mkFuncDecl "G" None (mkPosition 10 4 1) (mkPosition 19 5 2) in
  exists v' c,
    Walk true v0 [f; g] = Ok v'
    /\ Package_Classes (pkg v') = [c]
    /\ Class_Name c = "src.lib.foo.go"%string
    /\ Method_Name <$> Class_Methods c = ["F"; "G"]%string.
Proof.
  intros v0 f g.
  destruct (Walk_byFiles v0 [f; g] eq_refl ltac:(discriminate))
    as (v' & c & Hwalk & Hcls & Hname & _ & Hmethods & _).
  exists v', c. split; [exact Hwalk|]. split; [exact Hcls|]. split; [exact Hname|].
  rewrite Hmethods. reflexivity.
Defined.

(** ** One file into the report *)

Lemma findPackage_lt (path : string) (packages : list Package) :
  forall index found i,
    findPackage packages path index found = Some i ->
    found = Some i \/ (index <= i < index + length packages)%nat.
Proof.
  induction packages as [|p packages IH]; intros index found i; simpl; [by left|].
  intros [Hf|Hi]%IH; [|right; lia].
  destruct (String.eqb (Package_Name p) path); [|by left].
  injection Hf as <-. right. lia.
Qed.

(** X11. [ParseProfile] fails before it touches the report: when it
    returns an error the report is the one it was given, and the error
    is the missing module, the failure to parse the file or the failure
    to read it.  A file that the filter matches, once its contents are
    read, leaves the report as it was and is no error.  In every case
    the sources, the time stamp and the totals of the report stay, the
    packages that were there keep their names and order, and at most one
    package is added, behind them, named by the ID of the package. *)
Theorem ParseProfile_atomic (env : Env) (byFiles : bool) (cov : Coverage)
    (profile : Profile) (pkgPkg : option GoPackage) (ignore : Ignore) :
  let r := ParseProfile env byFiles cov profile pkgPkg ignore in
  (forall e, r.2 = Err e ->
     r.1 = cov
     /\ (e = ErrPackageRequired
         \/ (exists id cause, e = ErrFilePath id (FileName profile) cause)
         \/ (exists path cause, e = ErrReadFile path cause)))
  /\ (forall p module fileName parsed data,
        pkgPkg = Some p -> Module p = Some module ->
        GoStrings.sliceFrom (FileName profile) (String.length (Path module) + 1)
          = Some fileName ->
        parser_ParseFile env (findAbsFilePath p (FileName profile)) = inr parsed ->
        os_ReadFile env (findAbsFilePath p (FileName profile)) = inr data ->
        Match ignore fileName (Some data) = true ->
        r = (cov, Ok ()))
  /\ (Sources r.1 = Sources cov /\ Timestamp r.1 = Timestamp cov
      /\ LinesValid r.1 = LinesValid cov /\ LinesCovered r.1 = LinesCovered cov
      /\ LineRate r.1 = LineRate cov)
  /\ (Package_Name <$> Packages r.1 = Package_Name <$> Packages cov
      \/ exists p, pkgPkg = Some p
                   /\ Package_Name <$> Packages r.1
                      = (Package_Name <$> Packages cov) ++ [ID p]).
Proof.
  intros r. unfold r, ParseProfile.
  destruct pkgPkg as [p|].
  2:{ split; [intros e [= <-]; split; [done|by left]|].
      split; [by intros p0 m0 f0 parsed0 data0 [=]|].
      split; [done|by left]. }
  destruct (Module p) as [module|] eqn:Hmod.
  2:{ split; [intros e [= <-]; split; [done|by left]|].
      split; [intros p0 m0 f0 parsed0 data0 [= <-] Hm Hs Hp Hr Hi; congruence|].
      split; [done|by left]. }
  destruct (GoStrings.sliceFrom _ _) as [fileName|] eqn:Hslice.
  2:{ split; [by intros e [=]|].
      split; [intros p0 m0 f0 parsed0 data0 [= <-] Hm Hs Hp Hr Hi; congruence|].
      split; [done|by left]. }
  destruct (parser_ParseFile env _) as [err|parsed] eqn:Hparse.
  { split; [intros e [= <-]; split; [done|right; left; eauto]|].
    split; [intros p0 m0 f0 parsed0 data0 [= <-] Hm Hs Hp Hr Hi; congruence|].
    split; [done|by left]. }
  destruct (os_ReadFile env _) as [err|data] eqn:Hread.
  { split; [intros e [= <-]; split; [done|right; right; eauto]|].
    split; [intros p0 m0 f0 parsed0 data0 [= <-] Hm Hs Hp Hr Hi; congruence|].
    split; [done|by left]. }
  destruct (Match ignore fileName (Some data)) eqn:Hign.
  { split; [by intros e [=]|]. split; [done|]. split; [done|by left]. }
  split; [|split; [|split]].
  - pose proof (findPackage_lt (resolvedPkgPath module fileName) (Packages cov) 0 None) as Hlt.
    destruct (findPackage (Packages cov) _ 0 None) as [index|].
    + destruct (Hlt index eq_refl) as [|Hi]; [done|].
      destruct (lookup_lt_is_Some_2 (Packages cov) index ltac:(lia)) as [target ->].
      destruct (Walk byFiles _ parsed) as [v| |] eqn:Hwalk; simpl; [done| |done].
      by apply Walk_no_Err in Hwalk.
    + simpl. rewrite lookup_app_r by done. rewrite Nat.sub_diag. simpl.
      destruct (Walk byFiles _ parsed) as [v| |] eqn:Hwalk; simpl; [done| |done].
      by apply Walk_no_Err in Hwalk.
  - intros p0 m0 f0 parsed0 data0 [= <-] Hm Hs Hp Hr Hi. congruence.
  - destruct (findPackage (Packages cov) _ 0 None) as [index|]; simpl.
    + destruct (Packages cov !! index); [|done].
      by destruct (Walk byFiles _ parsed).
    + rewrite lookup_app_r by done. rewrite Nat.sub_diag. simpl.
      by destruct (Walk byFiles _ parsed).
  - pose proof (findPackage_spec (resolvedPkgPath module fileName) (Packages cov) 0 None)
      as Hfind.
    destruct (findPackage (Packages cov) _ 0 None) as [index|].
    + destruct Hfind as [|(q & Hq & Hname & _)]; [done|]. rewrite Nat.sub_0_r in Hq.
      rewrite Hq. left.
      destruct (Walk byFiles _ parsed) as [v| |] eqn:Hwalk; simpl; try done.
      apply Walk_name in Hwalk. simpl in Hwalk.
      rewrite list_fmap_insert. simpl. rewrite Hwalk.
      apply list_insert_id. by rewrite list_lookup_fmap, Hq.
    + right. exists p. split; [done|].
      simpl. rewrite lookup_app_r by done. rewrite Nat.sub_diag. simpl.
      destruct (Walk byFiles _ parsed) as [v| |] eqn:Hwalk; simpl;
        try (by rewrite fmap_app).
      apply Walk_name in Hwalk. simpl in Hwalk.
      rewrite list_fmap_insert. simpl. rewrite Hwalk.
      rewrite list_insert_id; [by rewrite fmap_app|].
      rewrite list_lookup_fmap, lookup_app_r by done. by rewrite Nat.sub_diag.
Qed.

Lemma ParseProfile_atomic_witness :
  (ParseProfile bareEnv false emptyCoverage (mkProfile "example.com/m/a.go" "set" [])
     None noIgnore).1 = emptyCoverage.
Proof.
  exact (proj1 (proj1 (ParseProfile_atomic bareEnv false emptyCoverage
                         (mkProfile "example.com/m/a.go" "set" []) None noIgnore)
                      ErrPackageRequired eq_refl)).
Defined.

(** ** Sources and packages of the report *)

Lemma appendIfUnique_elem (sources : list string) (dir d : string) :
  d ∈ appendIfUnique sources dir <-> d ∈ sources \/ d = dir.
Proof.
  unfold appendIfUnique. destruct (existsb (String.eqb dir) sources) eqn:Hex.
  - apply existsb_exists in Hex as (x & Hx & ->%String.eqb_eq).
    apply list_elem_of_In in Hx. split; [by intros ?; left|by intros [?| ->]].
  - rewrite elem_of_app, list_elem_of_singleton. done.
Qed.

Lemma appendIfUnique_NoDup (sources : list string) (dir : string) :
  NoDup sources -> NoDup (appendIfUnique sources dir).
Proof.
  intros Hnd. unfold appendIfUnique.
  destruct (existsb (String.eqb dir) sources) eqn:Hex; [done|].
  apply NoDup_app. split; [done|]. split; [|apply NoDup_singleton].
  intros x Hx ->%list_elem_of_singleton.
  assert (existsb (String.eqb dir) sources = true); [|congruence].
  apply existsb_exists. exists dir. split; [by apply list_elem_of_In|apply String.eqb_refl].
Qed.

Lemma collectPackages_inv (pkgs : list (option GoPackage)) :
  forall (sources : list string) (pkgMap : gmap string GoPackage),
    NoDup sources ->
    let r := collectPackages pkgs sources pkgMap in
    NoDup r.1
    /\ (forall d, d ∈ r.1 <->
          d ∈ sources \/ exists p m, Some p ∈ pkgs /\ Module p = Some m /\ Dir m = d)
    /\ (forall k p, r.2 !! k = Some p ->
          pkgMap !! k = Some p \/ (ID p = k /\ Some p ∈ pkgs /\ is_Some (Module p)))
    /\ (forall p m, Some p ∈ pkgs -> Module p = Some m -> is_Some (r.2 !! ID p))
    /\ (forall k, is_Some (pkgMap !! k) -> is_Some (r.2 !! k)).
Proof.
  induction pkgs as [|[pkg|] pkgs IH]; intros sources pkgMap Hnd; simpl.
  - repeat split; try done.
    + by left.
    + intros [?|(p & m & []%elem_of_nil & _)]; done.
    + by left.
    + by intros p m []%elem_of_nil.
  - destruct (Module pkg) as [module|] eqn:Hmod.
    + destruct (IH (appendIfUnique sources (Dir module)) (<[ID pkg := pkg]> pkgMap)
                  (appendIfUnique_NoDup _ _ Hnd)) as (Hnd' & Hsrc & Hmap & Hall & Hkeep).
      split; [done|]. split; [|split; [|split]].
      * intros d. rewrite Hsrc, appendIfUnique_elem. split.
        -- intros [[?| ->]|(p & m & Hp & Hm & Hd)]; [by left| |].
           ++ right. exists pkg, module. split; [left|done].
           ++ right. exists p, m. split; [by right|done].
        -- intros [?|(p & m & Hp & Hm & Hd)]; [by left; left|].
           apply elem_of_cons in Hp as [[= ->]|Hp].
           ++ left. right. congruence.
           ++ right. eauto.
      * intros k p [Hk|(Hid & Hp & Hm)]%Hmap.
        -- destruct (decide (ID pkg = k)) as [<-|Hne].
           ++ rewrite lookup_insert_eq in Hk. injection Hk as <-.
              right. split; [done|]. split; [left|by rewrite Hmod].
           ++ rewrite lookup_insert_ne in Hk by done. by left.
        -- right. split; [done|]. split; [by right|done].
      * intros p m [[= ->]|Hp]%elem_of_cons Hm; [|by eapply Hall].
        apply Hkeep. by rewrite lookup_insert_eq.
      * intros k Hk. apply Hkeep.
        destruct (decide (ID pkg = k)) as [<-|Hne];
          [by rewrite lookup_insert_eq|by rewrite lookup_insert_ne].
    + destruct (IH sources pkgMap Hnd) as (Hnd' & Hsrc & Hmap & Hall & Hkeep).
      split; [done|]. split; [|split; [|split]]; [| | |done].
      * intros d. rewrite Hsrc. split.
        -- intros [?|(p & m & Hp & Hm & Hd)]; [by left|].
           right. exists p, m. split; [by right|done].
        -- intros [?|(p & m & Hp & Hm & Hd)]; [by left|].
           apply elem_of_cons in Hp as [[= ->]|Hp]; [congruence|]. right. eauto.
      * intros k p [Hk|(Hid & Hp & Hm)]%Hmap; [by left|].
        right. split; [done|]. split; [by right|done].
      * intros p m [[= ->]|Hp]%elem_of_cons Hm; [congruence|by eapply Hall].
  - destruct (IH sources pkgMap Hnd) as (Hnd' & Hsrc & Hmap & Hall & Hkeep).
    split; [done|]. split; [|split; [|split]]; [| | |done].
    + intros d. rewrite Hsrc. split.
      * intros [?|(p & m & Hp & Hm & Hd)]; [by left|].
        right. exists p, m. split; [by right|done].
      * intros [?|(p & m & Hp & Hm & Hd)]; [by left|].
        apply elem_of_cons in Hp as [[=]|Hp]. right. eauto.
    + intros k p [Hk|(Hid & Hp & Hm)]%Hmap; [by left|].
      right. split; [done|]. split; [by right|done].
    + intros p m [[=]|Hp]%elem_of_cons Hm. by eapply Hall.
Qed.

(** X12. What the loop of [Convert] over the loaded packages builds: the
    sources are the module directories of the packages that have a
    module, each once; the map holds, under its ID, every package that
    has a module, and nothing else: no key leads to a package without
    module, so that [ParseProfile] is never handed one. *)
Theorem collectPackages_spec (pkgs : list (option GoPackage)) :
  let r := collectPackages pkgs [] ∅ in
  NoDup r.1
  /\ (forall d, d ∈ r.1 <-> exists p m, Some p ∈ pkgs /\ Module p = Some m /\ Dir m = d)
  /\ (forall k p, r.2 !! k = Some p -> ID p = k /\ Some p ∈ pkgs /\ is_Some (Module p))
  /\ (forall p m, Some p ∈ pkgs -> Module p = Some m -> is_Some (r.2 !! ID p)).
Proof.
  destruct (collectPackages_inv pkgs [] ∅ (NoDup_nil_2)) as (Hnd & Hsrc & Hmap & Hall & _).
  split; [done|]. split; [|split; [|done]].
  - intros d. rewrite Hsrc. split; [|by right]. by intros [?%elem_of_nil|?].
  - intros k p [Hk|?]%Hmap; [|done]. by rewrite lookup_empty in Hk.
Qed.

(** ** Names of packages and files *)

Lemma Split_cons (c : ascii) (rest : string) :
  Filepath.Split (String c rest)
  = match Filepath.Split rest with
    | (EmptyString, file) =>
        if Ascii.eqb c "/" then (String c EmptyString, file)
        else (EmptyString, String c file)
    | (dir, file) => (String c dir, file)
    end.
Proof. simpl. by destruct (Filepath.Split rest) as [[|] ?]. Qed.

Lemma Split_noSlash (s : string) :
  noSlash s = true -> Filepath.Split s = (EmptyString, s).
Proof.
  unfold noSlash. induction s as [|c s IH]; [done|].
  cbn [list_ascii_of_string forallb]. intros [Hc Hs]%andb_true_iff.
  rewrite Split_cons, (IH Hs). by destruct (Ascii.eqb c "/").
Qed.

Lemma Split_app (dir base : string) :
  noSlash base = true ->
  Filepath.Split (dir +:+ "/" +:+ base) = ((dir +:+ "/")%string, base).
Proof.
  intros Hbase. induction dir as [|c dir IH].
  - change (Filepath.Split (String "/" base) = ("/"%string, base)).
    by rewrite Split_cons, (Split_noSlash _ Hbase).
  - change (Filepath.Split (String c (dir +:+ "/" +:+ base))
            = (String c (dir +:+ "/"), base)).
    rewrite Split_cons, IH. by destruct dir.
Qed.

Lemma TrimRight_keep (s t cutset : string) :
  t <> EmptyString -> GoStrings.TrimRight t cutset = t ->
  GoStrings.TrimRight (s +:+ t) cutset = (s +:+ t)%string.
Proof.
  intros Hne Ht. induction s as [|c s IH]; simpl; [done|].
  simpl in IH. rewrite IH. destruct s; simpl; [by destruct t|done].
Qed.

Lemma TrimRight_app_cut (s : string) (c : ascii) (cutset : string) :
  GoStrings.byte_in cutset c = true ->
  GoStrings.TrimRight (s +:+ String c EmptyString) cutset = GoStrings.TrimRight s cutset.
Proof.
  intros Hc. induction s as [|c' s IH]; simpl; [by rewrite Hc|].
  simpl in IH. by rewrite IH.
Qed.

Lemma TrimRight_noSlash (s : string) :
  noSlash s = true -> GoStrings.TrimRight s "/" = s.
Proof.
  unfold noSlash. induction s as [|c s IH]; simpl; [done|].
  intros [Hc Hs]%andb_true_iff. rewrite (IH Hs).
  destruct s; [|done]. unfold GoStrings.byte_in. simpl.
  apply negb_true_iff in Hc. by rewrite Hc.
Qed.

(** X13. [getPackageName] is the directory of the file, without the
    slashes that end it: for a name [dir/base] whose last component has
    no slash it is [dir] less its trailing slashes (a backslash that
    ends [dir] stays, since the slash is trimmed after the backslash);
    a name without slash has the empty package name. *)
Theorem getPackageName_dir (dir base : string) :
  noSlash base = true ->
  getPackageName (dir +:+ "/" +:+ base) = GoStrings.TrimRight dir "/"
  /\ getPackageName base = EmptyString.
Proof.
  intros Hbase. unfold getPackageName. split.
  - rewrite (Split_app _ _ Hbase).
    rewrite (TrimRight_keep dir "/" "\") by done.
    by apply TrimRight_app_cut.
  - by rewrite (Split_noSlash _ Hbase).
Qed.

Lemma getPackageName_dir_witness :
  getPackageName "example.com/m/pkg/a.go" = "example.com/m/pkg"%string
  /\ getPackageName "a.go" = EmptyString.
Proof. exact (getPackageName_dir "example.com/m/pkg" "a.go" eq_refl). Defined.

Lemma Base_app (dir file : string) :
  noSlash file = true -> file <> EmptyString ->
  Filepath.Base (dir +:+ "/" +:+ file) = file.
Proof.
  intros Hfile Hne.
  assert (Hassoc : (dir +:+ "/" +:+ file)%string = ((dir +:+ "/") +:+ file)%string).
  { induction dir as [|c dir IH]; [done|].
    change (String c (dir +:+ "/" +:+ file) = String c ((dir +:+ "/") +:+ file)).
    by rewrite IH. }
  assert (Htrim : GoStrings.TrimRight (dir +:+ "/" +:+ file) "/"
                  = (dir +:+ "/" +:+ file)%string).
  { rewrite Hassoc. apply TrimRight_keep; [done|by apply TrimRight_noSlash]. }
  unfold Filepath.Base. rewrite Htrim.
  destruct (dir +:+ "/" +:+ file)%string as [|c path] eqn:Hpath; [by destruct dir|].
  by rewrite <- Hpath, (Split_app _ _ Hfile).
Qed.

(** X14. [findAbsFilePath] compares last components only: for a profile
    name [dir/file] it returns the first of the package's files whose
    base name is [file], whatever [dir] is, and the empty path when the
    package has no such file. *)
Theorem findAbsFilePath_first (pkgPkg : GoPackage) (dir file : string) :
  noSlash file = true -> file <> EmptyString ->
  let r := findAbsFilePath pkgPkg (dir +:+ "/" +:+ file) in
  (exists before after,
      GoFiles pkgPkg = before ++ r :: after
      /\ Filepath.Base r = file
      /\ Forall (fun f => Filepath.Base f <> file) before)
  \/ (r = EmptyString /\ Forall (fun f => Filepath.Base f <> file) (GoFiles pkgPkg)).
Proof.
  intros Hfile Hne r. unfold r, findAbsFilePath. rewrite (Base_app _ _ Hfile Hne).
  induction (GoFiles pkgPkg) as [|f files IH]; simpl; [by right|].
  destruct (String.eqb (Filepath.Base f) file) eqn:Heq.
  - left. exists [], files. apply String.eqb_eq in Heq. by repeat split.
  - apply String.eqb_neq in Heq.
    destruct IH as [(before & after & Hfiles & Hbase & Hall)|[Hr Hall]].
    + left. exists (f :: before), after. rewrite Hfiles at 1. repeat split; [done|].
      by constructor.
    + right. split; [done|]. by constructor.
Qed.

Lemma findAbsFilePath_first_witness :
  let pkgPkg := mkGoPackage "fmt" ["/go/src/fmt/a.go"; "/go/src/fmt/b.go"]%string None in
  let r := findAbsFilePath pkgPkg "elsewhere/b.go" in
  (exists before after,
      GoFiles pkgPkg = before ++ r :: after
      /\ Filepath.Base r = "b.go"%string
      /\ Forall (fun f => Filepath.Base f <> "b.go"%string) before)
  \/ (r = EmptyString
      /\ Forall (fun f => Filepath.Base f <> "b.go"%string) (GoFiles pkgPkg)).
Proof.
  exact (findAbsFilePath_first
           (mkGoPackage "fmt" ["/go/src/fmt/a.go"; "/go/src/fmt/b.go"]%string None)
           "elsewhere" "b.go" eq_refl ltac:(done)).
Defined.

(** ** The lines of a profile *)

Lemma sliceTo_sliceFrom (n : nat) :
  forall s s', GoStrings.sliceFrom s n = Some s' ->
    s = (GoStrings.sliceTo s n +:+ s')%string /\ String.length (GoStrings.sliceTo s n) = n.
Proof.
  induction n as [|n IH]; intros s s'; simpl.
  - intros [= ->]. by destruct s'.
  - destruct s as [|c s]; [done|]. intros H. destruct (IH _ _ H) as [Heq Hlen].
    split; [|simpl; by rewrite Hlen].
    change (String c s = String c (GoStrings.sliceTo s n +:+ s')). by rewrite <- Heq.
Qed.

Lemma runeWidth_bounds (s : string) :
  s <> EmptyString -> (1 <= Regexp.runeWidth s <= 4)%nat.
Proof.
  destruct s as [|c s]; [done|]. intros _. unfold Regexp.runeWidth.
  repeat case_match; lia.
Qed.

Lemma dot_Some (s : string) (w : nat) :
  Regexp.dot s = Some w ->
  exists c s0, s = String c s0 /\ Ascii.eqb c "010" = false /\ (1 <= w <= 4)%nat.
Proof.
  destruct s as [|c s0]; [done|]. unfold Regexp.dot.
  destruct (Ascii.eqb c "010") eqn:Hc; [done|]. intros [= <-].
  exists c, s0. split; [done|]. split; [done|].
  by apply (runeWidth_bounds (String c s0)).
Qed.

Lemma repeats_pos (u : Regexp.atom) (fuel : nat) :
  (forall s w, u s = Some w -> (0 < w)%nat) ->
  forall s c n, n ∈ Regexp.repeats u fuel s c -> (c < n)%nat.
Proof.
  intros Hu. induction fuel as [|fuel IH]; intros s c n; simpl; [by intros ?%elem_of_nil|].
  destruct (u s) as [w|] eqn:Huw; [|by intros ?%elem_of_nil].
  apply Hu in Huw.
  destruct (GoStrings.sliceFrom s w) as [s'|]; [|by intros ?%elem_of_nil].
  intros [Hin| ->%list_elem_of_singleton]%elem_of_app; [|lia].
  apply IH in Hin. lia.
Qed.

Lemma matchItems_Lit_inv (c : ascii) (rest : list Regexp.item) (s : string)
    (caps : list string) :
  Regexp.matchItems (Regexp.Lit c :: rest) s = Some caps ->
  exists s', s = String c s' /\ Regexp.matchItems rest s' = Some caps.
Proof.
  simpl. destruct s as [|c' s']; [done|].
  destruct (Ascii.eqb c c') eqn:Hc; [|done]. apply Ascii.eqb_eq in Hc as <-. eauto.
Qed.

Lemma matchItems_dot_inv (rest : list Regexp.item) (s : string) (caps : list string) :
  Regexp.matchItems (Regexp.One Regexp.dot :: rest) s = Some caps ->
  exists r s', s = (r +:+ s')%string /\ (1 <= String.length r <= 4)%nat
               /\ Regexp.dot r <> None /\ Regexp.matchItems rest s' = Some caps.
Proof.
  cbn [Regexp.matchItems]. destruct (Regexp.dot s) as [w|] eqn:Hdot; [|done].
  destruct (GoStrings.sliceFrom s w) as [s'|] eqn:Hs'; [|done].
  cbn [mbind option_bind]. intros Hrest.
  destruct (sliceTo_sliceFrom _ _ _ Hs') as [Heq Hlen].
  destruct (dot_Some _ _ Hdot) as (c & s0 & -> & Hc & Hw).
  exists (GoStrings.sliceTo (String c s0) w), s'.
  split; [done|]. split; [by rewrite Hlen|]. split; [|done].
  destruct w as [|w]; [lia|]. simpl. by rewrite Hc.
Qed.

Lemma matchItems_digits_inv (rest : list Regexp.item) (s : string) (caps : list string) :
  Regexp.matchItems (Regexp.Group Regexp.digit :: rest) s = Some caps ->
  exists g s' caps',
    s = (g +:+ s')%string /\ Strconv.digitString g = true
    /\ Regexp.matchItems rest s' = Some caps' /\ caps = g :: caps'.
Proof.
  intros (n & s' & caps' & Hin & Hs' & Hrest & ->)%matchItems_Group.
  apply repeats_digit in Hin as [_ Hd]. rewrite Nat.sub_0_r in Hd.
  destruct (sliceTo_sliceFrom _ _ _ Hs') as [Heq _]. eauto 10.
Qed.

Lemma matchItems_name_inv (rest : list Regexp.item) (s : string) (caps : list string) :
  Regexp.matchItems (Regexp.Group Regexp.dot :: rest) s = Some caps ->
  exists g s' caps',
    s = (g +:+ s')%string /\ g <> EmptyString
    /\ Regexp.matchItems rest s' = Some caps' /\ caps = g :: caps'.
Proof.
  intros (n & s' & caps' & Hin & Hs' & Hrest & ->)%matchItems_Group.
  apply repeats_pos in Hin;
    [|intros s0 w (? & ? & _ & _ & ?)%dot_Some; lia].
  destruct (sliceTo_sliceFrom _ _ _ Hs') as [Heq Hlen].
  exists (GoStrings.sliceTo s n), s', caps'. repeat split; try done.
  intros Hempty. rewrite Hempty in Hlen. simpl in Hlen. lia.
Qed.

(** X15. What [lineRe] accepts: a line is matched only if it is a
    non-empty name, a colon, and six strings of decimal digits set apart
    by one character, a comma, one character, a space and a space; the
    submatches are the line, the name and the six digit strings.  The
    two characters between line and column are any rune but a line feed
    (one to four bytes), not only the dot. *)
Theorem FindStringSubmatch_sound (line : string) (m : list string) :
  FindStringSubmatch line = Some m ->
  exists file g2 sep1 g3 g4 sep2 g5 g6 g7,
    m = [line; file; g2; g3; g4; g5; g6; g7]
    /\ line = blockLine file g2 sep1 g3 g4 sep2 g5 g6 g7
    /\ file <> EmptyString
    /\ Forall (fun g => Strconv.digitString g = true) [g2; g3; g4; g5; g6; g7]
    /\ Forall (fun sep => (1 <= String.length sep <= 4)%nat /\ Regexp.dot sep <> None)
              [sep1; sep2].
Proof.
  unfold FindStringSubmatch, lineRe.
  destruct (Regexp.matchItems _ line) as [caps|] eqn:Hm; simpl; [|done].
  intros [= <-].
  apply matchItems_name_inv in Hm as (file & s1 & c1 & -> & Hfile & Hm & ->).
  apply matchItems_Lit_inv in Hm as (s2 & -> & Hm).
  apply matchItems_digits_inv in Hm as (g2 & s3 & c3 & -> & Hg2 & Hm & ->).
  apply matchItems_dot_inv in Hm as (sep1 & s4 & -> & Hl1 & Hd1 & Hm).
  apply matchItems_digits_inv in Hm as (g3 & s5 & c5 & -> & Hg3 & Hm & ->).
  apply matchItems_Lit_inv in Hm as (s6 & -> & Hm).
  apply matchItems_digits_inv in Hm as (g4 & s7 & c7 & -> & Hg4 & Hm & ->).
  apply matchItems_dot_inv in Hm as (sep2 & s8 & -> & Hl2 & Hd2 & Hm).
  apply matchItems_digits_inv in Hm as (g5 & s9 & c9 & -> & Hg5 & Hm & ->).
  apply matchItems_Lit_inv in Hm as (s10 & -> & Hm).
  apply matchItems_digits_inv in Hm as (g6 & s11 & c11 & -> & Hg6 & Hm & ->).
  apply matchItems_Lit_inv in Hm as (s12 & -> & Hm).
  apply matchItems_digits_inv in Hm as (g7 & s13 & c13 & -> & Hg7 & Hm & ->).
  simpl in Hm. destruct s13; [|done]. injection Hm as <-.
  exists file, g2, sep1, g3, g4, sep2, g5, g6, g7.
  assert (Hnil : forall s : string, (s +:+ EmptyString)%string = s)
    by (induction s as [|c s IH]; [done|];
        change (String c (s +:+ EmptyString) = String c s); by rewrite IH).
  split; [done|]. split; [unfold blockLine; by rewrite Hnil|].
  split; [done|]. split; repeat (apply Forall_cons; split; [done|]); apply Forall_nil_2.
Qed.

Lemma FindStringSubmatch_sound_witness :
  exists file g2 sep1 g3 g4 sep2 g5 g6 g7,
    [ "a.go:1-2,3=4 5 6"; "a.go"; "1"; "2"; "3"; "4"; "5"; "6" ]%string
      = [ "a.go:1-2,3=4 5 6"%string; file; g2; g3; g4; g5; g6; g7]
    /\ "a.go:1-2,3=4 5 6"%string = blockLine file g2 sep1 g3 g4 sep2 g5 g6 g7
    /\ file <> EmptyString
    /\ Forall (fun g => Strconv.digitString g = true) [g2; g3; g4; g5; g6; g7]
    /\ Forall (fun sep => (1 <= String.length sep <= 4)%nat /\ Regexp.dot sep <> None)
              [sep1; sep2].
Proof.
  exact (FindStringSubmatch_sound "a.go:1-2,3=4 5 6"
           [ "a.go:1-2,3=4 5 6"; "a.go"; "1"; "2"; "3"; "4"; "5"; "6" ]%string eq_refl).
Defined.

Lemma string_length_app (a b : string) :
  String.length (a +:+ b) = (String.length a + String.length b)%nat.
Proof. induction a as [|c a IH]; simpl; [done|]. by rewrite <- IH. Qed.

Lemma list_ascii_app (a b : string) :
  list_ascii_of_string (a +:+ b) = list_ascii_of_string a ++ list_ascii_of_string b.
Proof. induction a as [|c a IH]; simpl; [done|]. by rewrite <- IH. Qed.

Lemma sliceFrom_app (a b : string) (k : nat) :
  GoStrings.sliceFrom (a +:+ b) (String.length a + k) = GoStrings.sliceFrom b k.
Proof. induction a as [|c a IH]; simpl; [done|]. exact IH. Qed.

Lemma sliceTo_app (a b : string) :
  GoStrings.sliceTo (a +:+ b) (String.length a) = a.
Proof. induction a as [|c a IH]; simpl; [by destruct b|]. by rewrite IH. Qed.

Lemma firstSome_skip {A B : Type} (f : A -> option B) (l1 l2 : list A) :
  Forall (fun a => f a = None) l1 ->
  Regexp.firstSome f (l1 ++ l2) = Regexp.firstSome f l2.
Proof. induction 1 as [|a l1 Ha _ IH]; simpl; [done|]. by rewrite Ha. Qed.

(** The greedy group of digits tries the whole run of digits first. *)
Lemma repeats_digit_head (g : string) :
  forall (rest : string) (fuel c : nat),
    g <> EmptyString ->
    forallb Strconv.isDigit (list_ascii_of_string g) = true ->
    Regexp.digit rest = None ->
    (String.length g <= fuel)%nat ->
    exists tail,
      Regexp.repeats Regexp.digit fuel (g +:+ rest) c = (c + String.length g)%nat :: tail.
Proof.
  induction g as [|d g IH]; intros rest fuel c Hne Hd Hrest Hfuel; [done|].
  simpl in Hd. apply andb_true_iff in Hd as [Hd Hg].
  destruct fuel as [|fuel]; [simpl in Hfuel; lia|].
  change (Regexp.repeats Regexp.digit (Datatypes.S fuel) (String d g +:+ rest) c)
    with (match Regexp.digit (String d (g +:+ rest)) with
          | Some w =>
              match GoStrings.sliceFrom (String d (g +:+ rest)) w with
              | Some s' => Regexp.repeats Regexp.digit fuel s' (c + w) ++ [(c + w)%nat]
              | None => []
              end
          | None => []
          end).
  unfold Regexp.digit at 1. rewrite Hd.
  change (GoStrings.sliceFrom (String d (g +:+ rest)) 1) with (Some (g +:+ rest)%string).
  destruct g as [|d' g'].
  - exists []. change (EmptyString +:+ rest)%string with rest.
    replace (Regexp.repeats Regexp.digit fuel rest (c + 1)) with (@nil nat).
    + simpl. do 2 f_equal.
    + destruct fuel; [done|]. simpl. by rewrite Hrest.
  - destruct (IH rest fuel (c + 1)%nat) as [tail ->]; [done|done|done|simpl in *; lia|].
    exists (tail ++ [(c + 1)%nat]). simpl. f_equal. lia.
Qed.

Lemma Group_digit_greedy (g rest : string) (items : list Regexp.item) (caps : list string) :
  Strconv.digitString g = true ->
  Regexp.digit rest = None ->
  Regexp.matchItems items rest = Some caps ->
  Regexp.matchItems (Regexp.Group Regexp.digit :: items) (g +:+ rest) = Some (g :: caps).
Proof.
  unfold Strconv.digitString. intros [Hne%negb_true_iff%String.eqb_neq Hd]%andb_true_iff
    Hrest Hitems.
  cbn [Regexp.matchItems].
  destruct (repeats_digit_head g rest (String.length (g +:+ rest)) 0 Hne Hd Hrest)
    as [tail ->]; [rewrite string_length_app; lia|].
  cbn [Regexp.firstSome Nat.add].
  pose proof (sliceFrom_app g rest 0) as Hfrom. rewrite Nat.add_0_r in Hfrom.
  rewrite Hfrom. cbn [GoStrings.sliceFrom mbind option_bind]. rewrite Hitems.
  cbn [mbind option_bind]. by rewrite sliceTo_app.
Qed.

Lemma Lit_intro (c : ascii) (s : string) (items : list Regexp.item) (caps : list string) :
  Regexp.matchItems items s = Some caps ->
  Regexp.matchItems (Regexp.Lit c :: items) (String c s) = Some caps.
Proof. intros H. cbn [Regexp.matchItems]. by rewrite Ascii.eqb_refl. Qed.

Lemma dot_intro (s : string) (items : list Regexp.item) (caps : list string) :
  Regexp.matchItems items s = Some caps ->
  Regexp.matchItems (Regexp.One Regexp.dot :: items) (String "." s) = Some caps.
Proof. intros H. exact H. Qed.

(** The candidates of the greedy name group on ASCII text: every
    length, longest first. *)
Lemma repeats_dot_ascii (s : string) :
  forall c, asciiText s = true ->
    Regexp.repeats Regexp.dot (String.length s) s c = rev (seq (Datatypes.S c) (String.length s)).
Proof.
  unfold asciiText. induction s as [|a s IH]; intros c; [done|].
  cbn [list_ascii_of_string forallb]. intros [[Ha Hlf]%andb_true_iff Hs]%andb_true_iff.
  apply negb_true_iff in Hlf. apply N.ltb_lt in Ha.
  cbn [String.length Regexp.repeats]. unfold Regexp.dot at 1. rewrite Hlf.
  unfold Regexp.runeWidth. replace (N_of_ascii a <? 194)%N with true
    by (symmetry; apply N.ltb_lt; lia).
  cbn [GoStrings.sliceFrom]. rewrite (IH _ Hs).
  cbn [seq rev]. by rewrite Nat.add_1_r.
Qed.

Lemma noColon_sliceFrom (k : nat) :
  forall s s', noColon s = true -> GoStrings.sliceFrom s k = Some s' -> noColon s' = true.
Proof.
  unfold noColon. induction k as [|k IH]; intros s s' Hs; simpl; [by intros [= <-]|].
  destruct s as [|c s]; [done|]. simpl in Hs. apply andb_true_iff in Hs as [_ Hs].
  by apply IH.
Qed.

Lemma Lit_colon_fails (s : string) (items : list Regexp.item) :
  noColon s = true -> Regexp.matchItems (Regexp.Lit ":" :: items) s = None.
Proof.
  unfold noColon. destruct s as [|c s]; [done|].
  cbn [Regexp.matchItems list_ascii_of_string forallb].
  intros [Hc%negb_true_iff _]%andb_true_iff.
  rewrite Ascii.eqb_sym. by rewrite Hc.
Qed.

(** The greedy name group ends at the last colon of the line. *)
Lemma Group_name_greedy (file rest : string) (items : list Regexp.item) (caps : list string) :
  file <> EmptyString -> asciiText file = true ->
  asciiText rest = true -> noColon rest = true ->
  Regexp.matchItems items rest = Some caps ->
  Regexp.matchItems (Regexp.Group Regexp.dot :: Regexp.Lit ":" :: items)
                    (file +:+ ":" +:+ rest)
  = Some (file :: caps).
Proof.
  intros Hne Hfile Hrest Hcolon Hitems.
  assert (Hline : asciiText (file +:+ ":" +:+ rest) = true).
  { unfold asciiText in *. rewrite list_ascii_app, forallb_app, Hfile.
    change (":" +:+ rest)%string with (String ":" rest).
    cbn [list_ascii_of_string forallb]. by rewrite Hrest. }
  change (Regexp.matchItems (Regexp.Group Regexp.dot :: Regexp.Lit ":" :: items)
                            (file +:+ ":" +:+ rest))
    with (Regexp.firstSome
            (fun n => s' ← GoStrings.sliceFrom (file +:+ ":" +:+ rest) n;
                      caps ← Regexp.matchItems (Regexp.Lit ":" :: items) s';
                      Some (GoStrings.sliceTo (file +:+ ":" +:+ rest) n :: caps))
            (Regexp.repeats Regexp.dot (String.length (file +:+ ":" +:+ rest))
                            (file +:+ ":" +:+ rest) 0)).
  rewrite (repeats_dot_ascii _ 0 Hline), string_length_app.
  destruct file as [|a file]; [done|].
  change (String.length (String a file)) with (Datatypes.S (String.length file)).
  set (line := (String a file +:+ ":" +:+ rest)%string).
  replace (Datatypes.S (String.length file) + String.length (":" +:+ rest))%nat
    with (String.length file + 1 + String.length (":" +:+ rest))%nat by lia.
  rewrite !seq_app, !rev_app_distr. cbn [seq rev app].
  rewrite firstSome_skip.
  - cbn [app Regexp.firstSome].
    pose proof (sliceFrom_app (String a file) (":" +:+ rest) 0) as Hfrom.
    rewrite Nat.add_0_r in Hfrom. cbn [String.length] in Hfrom.
    replace (1 + String.length file)%nat with (Datatypes.S (String.length file)) by lia.
    fold line in Hfrom. rewrite Hfrom.
    cbn [GoStrings.sliceFrom mbind option_bind].
    change (":" +:+ rest)%string with (String ":" rest).
    rewrite (Lit_intro ":" rest items caps Hitems). cbn [mbind option_bind].
    pose proof (sliceTo_app (String a file) (String ":" rest)) as Hto.
    cbn [String.length] in Hto. unfold line. f_equal. f_equal. exact Hto.
  - apply Forall_forall. intros n Hn.
    apply list_elem_of_In, in_rev, in_seq in Hn.
    pose proof (sliceFrom_app (String a file) (":" +:+ rest)
                  (n - Datatypes.S (String.length file))) as Hfrom.
    cbn [String.length] in Hfrom.
    replace (Datatypes.S (String.length file) + (n - Datatypes.S (String.length file)))%nat
      with n in Hfrom by lia.
    fold line in Hfrom. rewrite Hfrom.
    replace (n - Datatypes.S (String.length file))%nat
      with (Datatypes.S (n - Datatypes.S (Datatypes.S (String.length file)))) by lia.
    change (GoStrings.sliceFrom (":" +:+ rest) (Datatypes.S ?k))
      with (GoStrings.sliceFrom rest k).
    destruct (GoStrings.sliceFrom rest _) as [s'|] eqn:Hs'; [|done].
    cbn [mbind option_bind].
    by rewrite (Lit_colon_fails _ _ (noColon_sliceFrom _ _ _ Hcolon Hs')).
Qed.

Lemma digits_text (g : string) :
  Strconv.digitString g = true -> asciiText g = true /\ noColon g = true.
Proof.
  unfold Strconv.digitString, asciiText, noColon. intros [_ Hd]%andb_true_iff.
  induction (list_ascii_of_string g) as [|c l IH]; [done|].
  cbn [forallb] in *. apply andb_true_iff in Hd as [Hc Hl].
  destruct (IH Hl) as [-> ->]. rewrite !andb_true_r.
  unfold Strconv.isDigit in Hc. apply andb_true_iff in Hc as [Hlo%N.leb_le Hhi%N.leb_le].
  split.
  - apply andb_true_iff. split; [apply N.ltb_lt; lia|].
    apply negb_true_iff, Ascii.eqb_neq. intros ->. simpl in Hlo. lia.
  - apply negb_true_iff, Ascii.eqb_neq. intros ->. simpl in Hhi. lia.
Qed.

Lemma asciiText_app (a b : string) :
  asciiText a = true -> asciiText b = true -> asciiText (a +:+ b) = true.
Proof.
  unfold asciiText. intros Ha Hb. by rewrite list_ascii_app, forallb_app, Ha, Hb.
Qed.

Lemma noColon_app (a b : string) :
  noColon a = true -> noColon b = true -> noColon (a +:+ b) = true.
Proof.
  unfold noColon. intros Ha Hb. by rewrite list_ascii_app, forallb_app, Ha, Hb.
Qed.

(** A line in the format of the cover tool is matched, and its
    submatches are its parts. *)
Lemma FindStringSubmatch_blockLine (file g2 g3 g4 g5 g6 g7 : string) :
  file <> EmptyString -> asciiText file = true ->
  Forall (fun g => Strconv.digitString g = true) [g2; g3; g4; g5; g6; g7] ->
  FindStringSubmatch (blockLine file g2 "." g3 g4 "." g5 g6 g7)
  = Some [blockLine file g2 "." g3 g4 "." g5 g6 g7; file; g2; g3; g4; g5; g6; g7].
Proof.
  intros Hne Hfile Hg.
  apply Forall_cons in Hg as [Hg2 Hg]. apply Forall_cons in Hg as [Hg3 Hg].
  apply Forall_cons in Hg as [Hg4 Hg]. apply Forall_cons in Hg as [Hg5 Hg].
  apply Forall_cons in Hg as [Hg6 Hg]. apply Forall_cons in Hg as [Hg7 _].
  destruct (digits_text _ Hg2) as [Ha2 Hc2]. destruct (digits_text _ Hg3) as [Ha3 Hc3].
  destruct (digits_text _ Hg4) as [Ha4 Hc4]. destruct (digits_text _ Hg5) as [Ha5 Hc5].
  destruct (digits_text _ Hg6) as [Ha6 Hc6]. destruct (digits_text _ Hg7) as [Ha7 Hc7].
  unfold FindStringSubmatch, lineRe, blockLine.
  rewrite (Group_name_greedy file _ _ [g2; g3; g4; g5; g6; g7] Hne Hfile).
  - done.
  - repeat (apply asciiText_app; [done|]). done.
  - repeat (apply noColon_app; [done|]). done.
  - apply Group_digit_greedy; [done|done|]. apply dot_intro.
    apply Group_digit_greedy; [done|done|]. apply (Lit_intro ",").
    apply Group_digit_greedy; [done|done|]. apply dot_intro.
    apply Group_digit_greedy; [done|done|]. apply (Lit_intro " ").
    apply Group_digit_greedy; [done|done|]. apply (Lit_intro " ").
    assert (Hnil : (g7 +:+ EmptyString)%string = g7).
    { clear. induction g7 as [|c s IH]; [done|].
      change (String c (s +:+ EmptyString) = String c s). by rewrite IH. }
    rewrite <- Hnil at 1. by apply Group_digit_greedy.
Qed.

(** X16. A line as the cover tool writes it is read back: once the mode
    is known, [parseLine] takes [name:l.c,l.c n count] apart at the last
    colon and appends to the profile of [name] (a new one in the current
    mode if the file is new) the block with these six numbers, for any
    ASCII name, colons included, that is not ignored and numbers that fit
    an [int]. *)
Theorem parseLine_blockLine (mode file g2 g3 g4 g5 g6 g7 : string)
    (files : gmap string Profile) (ignore : Ignore) :
  mode <> EmptyString ->
  file <> EmptyString -> asciiText file = true ->
  Forall (fun g => Strconv.digitString g = true /\ Strconv.decimal 0 g <= int_max)
         [g2; g3; g4; g5; g6; g7] ->
  Match ignore file None = false ->
  parseLine mode (blockLine file g2 "." g3 g4 "." g5 g6 g7) files ignore
  = Ok (mode,
        let profile := default (mkProfile file mode []) (files !! file) in
        <[file := setBlocks profile
                    (Blocks profile ++
                     [mkBlock (Strconv.decimal 0 g2) (Strconv.decimal 0 g3)
                              (Strconv.decimal 0 g4) (Strconv.decimal 0 g5)
                              (Strconv.decimal 0 g6) (Strconv.decimal 0 g7)])]> files).
Proof.
  intros Hmode%String.eqb_neq Hne Hfile Hg Hign.
  assert (Hd : Forall (fun g => Strconv.digitString g = true) [g2; g3; g4; g5; g6; g7])
    by (eapply Forall_impl; [exact Hg|by intros g [? _]]).
  assert (Hint : Forall (fun g => toInt g = Ok (Strconv.decimal 0 g)) [g2; g3; g4; g5; g6; g7]).
  { eapply Forall_impl; [exact Hg|]. intros g [Hdg Hmax]. simpl in Hdg, Hmax.
    rewrite (toInt_digitString _ Hdg).
    by replace (Strconv.decimal 0 g <=? int_max) with true by (symmetry; by apply Z.leb_le). }
  apply Forall_cons in Hint as [H2 Hint]. apply Forall_cons in Hint as [H3 Hint].
  apply Forall_cons in Hint as [H4 Hint]. apply Forall_cons in Hint as [H5 Hint].
  apply Forall_cons in Hint as [H6 Hint]. apply Forall_cons in Hint as [H7 _].
  unfold parseLine. rewrite Hmode, (FindStringSubmatch_blockLine _ _ _ _ _ _ _ Hne Hfile Hd).
  cbv zeta. cbn [nth]. rewrite Hign, H2, H3, H4, H5, H6, H7.
  cbn [mbind]. by destruct (files !! file).
Qed.

Lemma parseLine_blockLine_witness :
  parseLine "count" "C:/src/a.go:10.2,12.3 4 7" ∅ noIgnore
  = Ok ("count"%string,
        <["C:/src/a.go"%string := mkProfile "C:/src/a.go" "count" [mkBlock 10 2 12 3 4 7]]> ∅).
Proof.
  exact (parseLine_blockLine "count" "C:/src/a.go" "10" "2" "12" "3" "4" "7" ∅ noIgnore
           ltac:(done) ltac:(done) eq_refl
           ltac:(repeat (apply Forall_cons; split; [split; [reflexivity|by vm_compute]|]);
                 apply Forall_nil_2)
           eq_refl).
Defined.

(** ** Boundaries *)

Lemma getMaxCount_fold (blocks : list ProfileBlock) :
  forall start,
    let r := fold_left (fun maxCount b => if Count b >? maxCount then Count b else maxCount)
                       blocks start in
    start <= r
    /\ Forall (fun b => Count b <= r) blocks
    /\ (r = start \/ exists b, b ∈ blocks /\ Count b = r).
Proof.
  induction blocks as [|b blocks IH]; intros start; simpl.
  { split; [lia|]. split; [constructor|by left]. }
  destruct (IH (if Count b >? start then Count b else start)) as (Hle & Hall & Hfrom).
  destruct (Z.gtb_spec (Count b) start) as [Hgt|Hngt].
  - split; [lia|]. split; [constructor; [lia|done]|].
    right. destruct Hfrom as [->|(b' & Hin & Heq)].
    + exists b. split; [left|done].
    + exists b'. split; [by right|done].
  - split; [lia|]. split; [constructor; [lia|done]|].
    destruct Hfrom as [->|(b' & Hin & Heq)]; [by left|].
    right. exists b'. split; [by right|done].
Qed.

(** X17. [getMaxCount] is the largest count of the profile, and 0 when
    no count is positive (a profile without blocks, or with negative
    counts only, has maximum 0). *)
Theorem getMaxCount_max (p : Profile) :
  0 <= getMaxCount p
  /\ Forall (fun b => Count b <= getMaxCount p) (Blocks p)
  /\ (getMaxCount p = 0 \/ exists b, b ∈ Blocks p /\ Count b = getMaxCount p).
Proof. exact (getMaxCount_fold (Blocks p) 0). Qed.

Lemma boundariesByPos_Less_swo : StrictWeakOrder boundariesByPos_Less.
Proof.
  split; unfold boundariesByPos_Less.
  - intros x y.
    destruct (Z.eqb_spec (B_Offset x) (B_Offset y)) as [Heq|Hne].
    + rewrite Heq, Z.eqb_refl. by destruct (B_Start x), (B_Start y).
    + destruct (Z.eqb_spec (B_Offset y) (B_Offset x)) as [?|_]; [congruence|].
      intros ?%Z.ltb_lt. apply Z.ltb_ge. lia.
  - intros x y z.
    destruct (Z.eqb_spec (B_Offset x) (B_Offset y)), (Z.eqb_spec (B_Offset y) (B_Offset z)),
      (Z.eqb_spec (B_Offset x) (B_Offset z)); try lia;
      destruct (B_Start x), (B_Start y), (B_Start z); simpl; try done;
      rewrite ?Z.ltb_lt; lia.
  - intros x y z.
    destruct (Z.eqb_spec (B_Offset x) (B_Offset y)), (Z.eqb_spec (B_Offset y) (B_Offset z)),
      (Z.eqb_spec (B_Offset x) (B_Offset z)); try lia;
      destruct (B_Start x), (B_Start y), (B_Start z); simpl; try done;
      rewrite ?Z.ltb_ge; lia.
Qed.

Lemma boundaryLe_Less (x y : Boundary) :
  boundariesByPos_Less y x = false <-> boundaryLe x y.
Proof.
  unfold boundariesByPos_Less, boundaryLe.
  destruct (Z.eqb_spec (B_Offset y) (B_Offset x)) as [Heq|Hne].
  - destruct (B_Start x), (B_Start y); simpl; split; try done; try (right; by split);
      intros [?|[_ ?]]; try lia; auto.
  - rewrite Z.ltb_ge. split; [intros ?; left; lia|intros [?|[? _]]; lia].
Qed.

Lemma boundaryLe_trans : Transitive boundaryLe.
Proof. intros x y z. unfold boundaryLe. intros [?|[? ?]] [?|[? ?]]; [lia..|]. right. split; [lia|auto]. Qed.

Lemma get_lt (src : string) :
  forall (si : nat) (c : ascii), String.get si src = Some c -> (si < String.length src)%nat.
Proof.
  induction src as [|a src IH]; intros si c; simpl; [by destruct si|].
  destruct si as [|si]; [lia|]. intros ?%IH. lia.
Qed.

Lemma posFrom_next (src : string) :
  forall (si : nat) (c : ascii) (line col : Z),
    String.get si src = Some c ->
    posFrom src (Datatypes.S si) line col
    = (let '(l, k) := posFrom src si line col in
       if Ascii.eqb c "010" then (wrap64 (l + 1), wrap64 (0 + 1)) else (l, wrap64 (k + 1))).
Proof.
  induction src as [|a src IH]; intros si c line col; [by destruct si|].
  destruct si as [|si].
  - simpl. intros [= ->]. destruct (Ascii.eqb c "010"); by destruct src.
  - intros Hget. change (String.get si src = Some c) in Hget.
    change (posFrom (String a src) (Datatypes.S (Datatypes.S si)) line col)
      with (let '(l, k) := if Ascii.eqb a "010" then (wrap64 (line + 1), 0) else (line, col) in
            posFrom src (Datatypes.S si) l (wrap64 (k + 1))).
    change (posFrom (String a src) (Datatypes.S si) line col)
      with (let '(l, k) := if Ascii.eqb a "010" then (wrap64 (line + 1), 0) else (line, col) in
            posFrom src si l (wrap64 (k + 1))).
    destruct (Ascii.eqb a "010"); by rewrite (IH si c _ _ Hget).
Qed.

(** The loop appends to what it was given; what it appends are
    boundaries of blocks, and it closes at most the blocks from [bi]
    on. *)
Lemma boundariesLoop_inv (p : Profile) (src : string) (fuel : nat) :
  forall (si bi : nat) (line col : Z) (acc : list Boundary),
  posAt src si = (line, col) ->
  exists new,
    boundariesLoop fuel p src (getMaxCount p) si bi line col acc = acc ++ new
    /\ Forall (boundaryOf p src) new
    /\ (length (filter closing new) <= length (Blocks p) - bi)%nat.
Proof.
  induction fuel as [|fuel IH]; intros si bi line col acc Hpos; simpl.
  { exists []. rewrite app_nil_r. repeat split; [constructor|simpl; lia]. }
  destruct (String.get si src) as [c|] eqn:Hc;
    [|exists []; rewrite app_nil_r; repeat split; [constructor|simpl; lia]].
  destruct (Blocks p !! bi) as [b|] eqn:Hb;
    [|exists []; rewrite app_nil_r; repeat split; [constructor|simpl; lia]].
  pose proof (get_lt _ _ _ Hc) as Hsi.
  pose proof (lookup_lt_Some _ _ _ Hb) as Hbi.
  pose proof (list_elem_of_lookup_2 _ _ _ Hb) as Hin.
  assert (exists opened,
             (if (StartLine b =? line) && (StartCol b =? col)
              then acc ++ [createBoundary (Z.of_nat si) true (Count b) (getMaxCount p)]
              else acc) = acc ++ opened
             /\ Forall (boundaryOf p src) opened
             /\ filter closing opened = []) as (opened & Hacc & Hopened & Hnone).
  { destruct ((StartLine b =? line) && (StartCol b =? col)) eqn:Hstart.
    - exists [createBoundary (Z.of_nat si) true (Count b) (getMaxCount p)].
      apply andb_true_iff in Hstart as [Hl%Z.eqb_eq Hk%Z.eqb_eq].
      split; [done|]. split.
      + apply Forall_singleton. exists si, b. unfold createBoundary. simpl.
        rewrite Hl, Hk.
        destruct (Count b =? 0) eqn:Hz; simpl; rewrite ?Hz; by repeat split.
      + unfold createBoundary. by destruct (negb true || (Count b =? 0)).
    - exists []. split; [by rewrite app_nil_r|]. split; [constructor|done]. }
  rewrite Hacc. destruct ((EndLine b =? line) && (EndCol b =? col)) eqn:Hend.
  - apply andb_true_iff in Hend as [Hl%Z.eqb_eq Hk%Z.eqb_eq].
    destruct (IH si (bi + 1)%nat line col
                ((acc ++ opened) ++ [createBoundary (Z.of_nat si) false 0 (getMaxCount p)])
                Hpos)
      as (new & -> & Hnew & Hlen).
    exists (opened ++ [createBoundary (Z.of_nat si) false 0 (getMaxCount p)] ++ new).
    split; [by rewrite <- !app_assoc|]. split.
    + apply Forall_app. split; [done|]. apply Forall_app. split; [|done].
      apply Forall_singleton. exists si, b. unfold createBoundary. simpl.
      rewrite Hl, Hk. by repeat split.
    + rewrite !filter_app, Hnone, !length_app.
      change (length (filter closing [createBoundary (Z.of_nat si) false 0 (getMaxCount p)]))
        with 1%nat.
      simpl length. lia.
  - assert (Hnext : posAt src (si + 1)
                    = if Ascii.eqb c "010" then (wrap64 (line + 1), wrap64 (0 + 1))
                      else (line, wrap64 (col + 1))).
    { unfold posAt in *. rewrite Nat.add_1_r, (posFrom_next _ _ _ _ _ Hc), Hpos. done. }
    destruct (Ascii.eqb c "010").
    + destruct (IH (si + 1)%nat bi (wrap64 (line + 1)) (wrap64 (0 + 1)) (acc ++ opened) Hnext)
        as (new & -> & Hnew & Hlen).
      exists (opened ++ new). split; [by rewrite <- app_assoc|]. split.
      * apply Forall_app. by split.
      * rewrite filter_app, Hnone. simpl. lia.
    + destruct (IH (si + 1)%nat bi line (wrap64 (col + 1)) (acc ++ opened) Hnext)
        as (new & -> & Hnew & Hlen).
      exists (opened ++ new). split; [by rewrite <- app_assoc|]. split.
      * apply Forall_app. by split.
      * rewrite filter_app, Hnone. simpl. lia.
Qed.

(** The loop has ended when its fuel is the number of bytes and blocks
    left: more fuel changes nothing. *)
Lemma boundariesLoop_fuel (p : Profile) (src : string) (maxCount : Z) (fuel : nat) :
  forall (extra si bi : nat) (line col : Z) (acc : list Boundary),
    (String.length src - si + (length (Blocks p) - bi) <= fuel)%nat ->
    boundariesLoop (fuel + extra) p src maxCount si bi line col acc
    = boundariesLoop fuel p src maxCount si bi line col acc.
Proof.
  induction fuel as [|fuel IH]; intros extra si bi line col acc Hfuel.
  - destruct extra as [|extra]; [done|]. simpl.
    destruct (String.get si src) as [c|] eqn:Hc; [|done].
    destruct (Blocks p !! bi) as [b|] eqn:Hb; [|done].
    apply lookup_lt_Some in Hb. lia.
  - simpl. destruct (String.get si src) as [c|] eqn:Hc; [|done].
    destruct (Blocks p !! bi) as [b|] eqn:Hb; [|done].
    pose proof (get_lt _ _ _ Hc) as Hsi.
    apply lookup_lt_Some in Hb.
    destruct ((EndLine b =? line) && (EndCol b =? col)).
    + apply IH. lia.
    + destruct (Ascii.eqb c "010"); apply IH; lia.
Qed.

Section BoundariesSorted.
Context (S : SortAlgorithm) (lawful : SortLawful S).

(** X18. [Boundaries], with any sort that sorts: the loop is over
    after at most one iteration for each byte and each block (more
    iterations add nothing); every boundary lies at the offset of a byte
    of the source whose line and column, counted in bytes from 1:1, are
    those of the start of a block (an opening boundary, with the count
    of the block and its norm, none for count 0) or those of the end of
    a block (a closing boundary, with count 0 and no norm); at most one
    closing boundary is made for each block; and the result is ordered
    by offset, the closing boundaries of an offset before the opening
    ones. *)
Theorem Boundaries_wellformed (p : Profile) (src : string) :
  (forall extra,
      boundariesLoop (String.length src + length (Blocks p) + extra) p src (getMaxCount p)
                     0 0 1 1 []
      = boundariesLoop (String.length src + length (Blocks p)) p src (getMaxCount p)
                       0 0 1 1 [])
  /\ Forall (boundaryOf p src) (Boundaries p src)
  /\ (length (filter closing (Boundaries p src)) <= length (Blocks p))%nat
  /\ StronglySorted boundaryLe (Boundaries p src).
Proof.
  split; [intros extra; apply boundariesLoop_fuel; lia|].
  unfold Boundaries.
  destruct (boundariesLoop_inv p src (String.length src + length (Blocks p)) 0 0 1 1 []
              eq_refl)
    as (new & -> & Hnew & Hlen).
  simpl app. pose proof (sort_perm S lawful _ boundariesByPos_Less new) as Hperm.
  split; [|split].
  - by rewrite Hperm.
  - rewrite Hperm. lia.
  - apply Sorted_StronglySorted; [apply boundaryLe_trans|].
    eapply Sorted_weaken; [|apply (sort_sorted S lawful), boundariesByPos_Less_swo].
    intros x y. apply boundaryLe_Less.
Qed.

End BoundariesSorted.

Lemma Boundaries_wellformed_witness :
  let p := mkProfile "a.go" "count" [mkBlock 1 1 1 3 1 2; mkBlock 2 1 2 2 1 0] in
  let src := String "a" (String "b" (String "c" (String "010" (String "d" (String "e" EmptyString))))) in
  (forall extra,
      boundariesLoop (String.length src + length (Blocks p) + extra) p src (getMaxCount p)
                     0 0 1 1 []
      = boundariesLoop (String.length src + length (Blocks p)) p src (getMaxCount p)
                       0 0 1 1 [])
  /\ Forall (boundaryOf p src) (@Boundaries insertion_sort p src)
  /\ (length (filter closing (@Boundaries insertion_sort p src)) <= length (Blocks p))%nat
  /\ StronglySorted boundaryLe (@Boundaries insertion_sort p src).
Proof.
  exact (Boundaries_wellformed insertion_sort insertionSort_lawful
           (mkProfile "a.go" "count" [mkBlock 1 1 1 3 1 2; mkBlock 2 1 2 2 1 0])
           (String "a" (String "b" (String "c" (String "010" (String "d" (String "e" EmptyString))))))).
Defined.

(** ** The profiles of a run *)

Lemma ParseProfile_Err_same (env : Env) (byFiles : bool) (cov : Coverage)
    (profile : Profile) (pkgPkg : option GoPackage) (ignore : Ignore) (e : error) :
  (ParseProfile env byFiles cov profile pkgPkg ignore).2 = Err e ->
  (ParseProfile env byFiles cov profile pkgPkg ignore).1 = cov.
Proof.
  unfold ParseProfile.
  destruct pkgPkg as [p|]; [|done]. destruct (Module p) as [module|]; [|done].
  destruct (GoStrings.sliceFrom _ _) as [fileName|]; [|done].
  destruct (parser_ParseFile env _) as [err|parsed]; [done|].
  destruct (os_ReadFile env _) as [err|data]; [done|].
  destruct (Match ignore fileName (Some data)); [done|].
  pose proof (findPackage_lt (resolvedPkgPath module fileName) (Packages cov) 0 None) as Hlt.
  destruct (findPackage (Packages cov) _ 0 None) as [index|].
  - destruct (Hlt index eq_refl) as [|Hi]; [done|].
    destruct (lookup_lt_is_Some_2 (Packages cov) index ltac:(lia)) as [target ->].
    destruct (Walk byFiles _ parsed) as [v| |] eqn:Hwalk; simpl; [done| |done].
    by apply Walk_no_Err in Hwalk.
  - simpl. rewrite lookup_app_r by done. rewrite Nat.sub_diag. simpl.
    destruct (Walk byFiles _ parsed) as [v| |] eqn:Hwalk; simpl; [done| |done].
    by apply Walk_no_Err in Hwalk.
Qed.

Lemma ParseProfile_totals (env : Env) (byFiles : bool) (cov : Coverage)
    (profile : Profile) (pkgPkg : option GoPackage) (ignore : Ignore) :
  let cov' := (ParseProfile env byFiles cov profile pkgPkg ignore).1 in
  Sources cov' = Sources cov /\ Timestamp cov' = Timestamp cov
  /\ LinesValid cov' = LinesValid cov /\ LinesCovered cov' = LinesCovered cov
  /\ LineRate cov' = LineRate cov.
Proof.
  unfold ParseProfile.
  destruct pkgPkg as [p|]; [|done]. destruct (Module p) as [module|]; [|done].
  destruct (GoStrings.sliceFrom _ _) as [fileName|]; [|done].
  destruct (parser_ParseFile env _) as [err|parsed]; [done|].
  destruct (os_ReadFile env _) as [err|data]; [done|].
  destruct (Match ignore fileName (Some data)); [done|].
  destruct (findPackage (Packages cov) _ 0 None) as [index|]; simpl.
  - destruct (Packages cov !! index); [|done]. by destruct (Walk byFiles _ parsed).
  - rewrite lookup_app_r by done. rewrite Nat.sub_diag. simpl.
    by destruct (Walk byFiles _ parsed).
Qed.

Lemma parseProfilesLoop_totals (env : Env) (byFiles : bool) (profiles : list Profile)
    (pkgMap : gmap string GoPackage) (ignore : Ignore) :
  forall cov,
    let cov' := (parseProfilesLoop env byFiles cov profiles pkgMap ignore).1 in
    Sources cov' = Sources cov /\ Timestamp cov' = Timestamp cov
    /\ LinesValid cov' = LinesValid cov /\ LinesCovered cov' = LinesCovered cov
    /\ LineRate cov' = LineRate cov.
Proof.
  induction profiles as [|profile profiles IH]; intros cov; simpl; [done|].
  pose proof (ParseProfile_totals env byFiles cov profile
                (pkgMap !! getPackageName (FileName profile)) ignore) as Hone.
  destruct (ParseProfile env byFiles cov profile _ ignore) as [cov1 [[]| |]];
    simpl in *; [|done|done].
  destruct (IH cov1) as (-> & -> & -> & -> & ->). done.
Qed.

(** X19. [Coverage.parseProfiles] stops at the first profile that
    fails: the profiles after it play no part, the error is the one of
    that profile, the report holds the packages of the profiles before
    it and nothing of the failed one, and the totals of the report
    (lines valid, lines covered, line rate) are the ones it was entered
    with, since they are computed after the loop only. *)
Theorem parseProfiles_first_error (env : Env) (byFiles : bool) (cov cov' : Coverage)
    (before rest : list Profile) (profile : Profile)
    (pkgMap : gmap string GoPackage) (ignore : Ignore) (e : error) :
  parseProfilesLoop env byFiles (setPackages cov []) before pkgMap ignore = (cov', Ok ()) ->
  (ParseProfile env byFiles cov' profile (pkgMap !! getPackageName (FileName profile))
                ignore).2 = Err e ->
  parseProfiles env byFiles cov (before ++ profile :: rest) pkgMap ignore = (cov', Err e)
  /\ Sources cov' = Sources cov
  /\ LinesValid cov' = LinesValid cov /\ LinesCovered cov' = LinesCovered cov
  /\ LineRate cov' = LineRate cov.
Proof.
  intros Hbefore Herr. split.
  - unfold parseProfiles. rewrite parseProfilesLoop_app, Hbefore. simpl.
    pose proof (ParseProfile_Err_same _ _ _ _ _ _ _ Herr) as Hsame.
    destruct (ParseProfile env byFiles cov' profile _ ignore) as [cov1 r].
    simpl in *. by subst.
  - pose proof (parseProfilesLoop_totals env byFiles before pkgMap ignore (setPackages cov []))
      as Htot.
    rewrite Hbefore in Htot. simpl in Htot.
    destruct Htot as (Hs & _ & Hv & Hc & Hr). done.
Qed.

Lemma parseProfiles_first_error_witness :
  parseProfiles bareEnv false emptyCoverage
    [mkProfile "example.com/m/a.go" "set" []; mkProfile "example.com/m/b.go" "set" []]
    ∅ noIgnore
  = (emptyCoverage, Err ErrPackageRequired).
Proof.
  exact (proj1 (parseProfiles_first_error bareEnv false emptyCoverage emptyCoverage []
                  [mkProfile "example.com/m/b.go" "set" []]
                  (mkProfile "example.com/m/a.go" "set" []) ∅ noIgnore ErrPackageRequired
                  eq_refl eq_refl)).
Defined.

(** ** The name of the receiver *)






